(** * Keystone gate runtime: canonical codec, commit gate and replay engines

    A shallow embedding of the JavaScript sources of the keystone-gate-runtime
    package (flowversion-envelope.js, error-classification.js, cpo-kernel.js,
    replay/replay-index.js, replay/invariant-replay.js,
    replay/forensic-replay.js, replay/constrained-replay.js,
    replay/replay-result-artifact.js, replay/ledger.js, replay/replay-result.js)
    together with the properties the specification states about them.

    Conventions of the embedding:
    - a JavaScript value is a [value]; objects are association lists in
      insertion order;
    - a JavaScript string is a [string]; each [ascii] stands for one code unit
      (the envelope schemas constrain keys and tokens to ASCII);
    - a JavaScript number is an IEEE-754 binary64 datum, [spec_float];
    - a function that may throw returns an [outcome];
    - a function that mutates a store takes the store and returns the new one;
    - platform services (SHA-256, the compiled schema validators, locale
      collation, Number::toString) are variables of the section that uses
      them. *)

From Stdlib Require Import List String Ascii ZArith NArith Bool Lia.
From Stdlib Require Import Permutation Sorted.
From Stdlib Require Import SpecFloat DecimalString DecimalZ.
Import ListNotations.

#[local] Set Warnings "-register-all".

Local Open Scope string_scope.
Local Open Scope list_scope.
Local Open Scope Z_scope.

(* ================================================================== *)
(** ** Exceptions *)

(** A call either returns or throws an [Error] with a message. *)
Inductive outcome (A : Type) : Type :=
| Ret (a : A)
| Throw (msg : string).
Arguments Ret {A} a.
Arguments Throw {A} msg.

Definition bind {A B : Type} (x : outcome A) (f : A -> outcome B) : outcome B :=
  match x with
  | Ret a => f a
  | Throw m => Throw m
  end.

Notation "x <- c1 ;; c2" := (bind c1 (fun x => c2))
  (at level 61, c1 at next level, right associativity).

(** [v.map(f)] where [f] may throw: elements are visited in order and the
    first exception propagates. *)
Fixpoint sequence {A : Type} (l : list (outcome A)) : outcome (list A) :=
  match l with
  | [] => Ret []
  | x :: l' => a <- x ;; r <- sequence l' ;; Ret (a :: r)
  end.

Definition returns {A : Type} (x : outcome A) : Prop := exists a, x = Ret a.

(* ================================================================== *)
(** ** [Array.prototype.sort]

    The comparator result is read as the language does: negative ([Lt]) puts
    the first argument first, positive ([Gt]) the second, zero or NaN ([Eq])
    keeps the original order (the sort is stable). *)

Section JsSort.
Context {A : Type}.
Variable cmp : A -> A -> comparison.

Fixpoint sort_insert (x : A) (l : list A) : list A :=
  match l with
  | [] => [x]
  | y :: l' =>
      match cmp x y with
      | Gt => y :: sort_insert x l'
      | _ => x :: l
      end
  end.

Definition js_sort (l : list A) : list A := fold_right sort_insert [] l.
End JsSort.

(* ================================================================== *)
(** ** Numbers *)

Definition number : Type := spec_float.

(** The double of an integer, rounded to nearest even as a literal is. *)
Definition number_of_Z (z : Z) : number := binary_normalize 53 1024 z 0 false.

(** [Number.isFinite] *)
Definition Number_isFinite (v : number) : bool :=
  match v with
  | S754_zero _ | S754_finite _ _ _ => true
  | S754_infinity _ | S754_nan => false
  end.

(** The mathematical value of a finite double when it is an integer. *)
Definition integer_value (v : number) : option Z :=
  match v with
  | S754_zero _ => Some 0
  | S754_finite s m e =>
      if 0 <=? e then Some (cond_Zopp s (Zpos m * 2 ^ e))
      else if (Zpos m mod 2 ^ (- e)) =? 0
           then Some (cond_Zopp s (Zpos m / 2 ^ (- e)))
           else None
  | S754_infinity _ | S754_nan => None
  end.

(** [Number.isInteger] *)
Definition Number_isInteger (v : number) : bool :=
  match integer_value v with
  | Some _ => true
  | None => false
  end.

Definition MAX_SAFE_INTEGER : Z := 9007199254740991.

(** [Number.isSafeInteger]: an integer of magnitude at most 2^53 - 1. *)
Definition Number_isSafeInteger (v : number) : bool :=
  match integer_value v with
  | Some z => Z.abs z <=? MAX_SAFE_INTEGER
  | None => false
  end.

(** [Object.is(v, -0)] *)
Definition is_negative_zero (v : number) : bool :=
  match v with
  | S754_zero true => true
  | _ => false
  end.

(** Decimal digits of an integer, with a leading minus sign when negative. *)
Definition decimal (z : Z) : string := NilZero.string_of_int (Z.to_int z).

(** [String(v)] at an integer below 10^21 is its decimal expansion; the
    serializer only reaches it for safe integers. *)
Definition String_of_number (v : number) : string :=
  match integer_value v with
  | Some z => decimal z
  | None => EmptyString
  end.

(** The double [v] is finite and its value is the integer [z]. *)
Definition denotes_integer (v : number) (z : Z) : Prop :=
  match v with
  | S754_zero _ => z = 0
  | S754_finite s m e =>
      (0 <= e /\ z = cond_Zopp s (Zpos m * 2 ^ e))
      \/ (e < 0 /\ z * 2 ^ (- e) = cond_Zopp s (Zpos m))
  | S754_infinity _ | S754_nan => False
  end.

(** [a === b] on numbers: NaN differs from itself, the two zeros are equal. *)
Definition number_strict_eq (a b : number) : bool := SFeqb a b.

(** The sign of [a - b] as a sort comparator reads it. The IEEE difference of
    two doubles is negative exactly when [a < b], positive exactly when
    [a > b], and NaN when an operand is NaN; NaN is read as zero. *)
Definition number_difference_sign (a b : number) : comparison :=
  match SFcompare a b with
  | Some c => c
  | None => Eq
  end.

(* ================================================================== *)
(** ** Values *)

Inductive value : Type :=
| JUndefined
| JNull
| JBool (b : bool)
| JNum (n : number)
| JStr (s : string)
| JArr (items : list value)
| JObj (fields : list (string * value)).

Fixpoint assoc {V : Type} (k : string) (l : list (string * V)) : option V :=
  match l with
  | [] => None
  | (k', v) :: l' => if String.eqb k k' then Some v else assoc k l'
  end.

(** [Object.keys(obj)] *)
Definition Object_keys (fs : list (string * value)) : list string := map fst fs.

(** [v?.k]: property read with optional chaining. None of the property
    names read by the sources is a built-in of strings, arrays or
    [Object.prototype], so a read yields the own property or [undefined]. *)
Definition get (v : value) (k : string) : value :=
  match v with
  | JObj fs =>
      match assoc k fs with
      | Some x => x
      | None => JUndefined
      end
  | _ => JUndefined
  end.

(** [v.k]: property read without optional chaining throws a [TypeError] on
    [null] and [undefined]. *)
Definition get_strict (v : value) (k : string) : outcome value :=
  match v with
  | JUndefined | JNull => Throw "TypeError: Cannot read properties"
  | _ => Ret (get v k)
  end.

(** A string-valued read, [typeof x === 'string']. *)
Definition as_string (v : value) : option string :=
  match v with
  | JStr s => Some s
  | _ => None
  end.

(** [a === b] and [a !== b]. Objects and arrays compare by identity; two
    values read from different stored records are never the same reference. *)
Definition strict_eq (a b : value) : bool :=
  match a, b with
  | JUndefined, JUndefined => true
  | JNull, JNull => true
  | JBool x, JBool y => Bool.eqb x y
  | JNum x, JNum y => number_strict_eq x y
  | JStr x, JStr y => String.eqb x y
  | _, _ => false
  end.

(** [typeof v === 'undefined'] *)
Definition is_undefined (v : value) : bool :=
  match v with
  | JUndefined => true
  | _ => false
  end.

(** Truthiness, [!!v]. *)
Definition truthy (v : value) : bool :=
  match v with
  | JUndefined | JNull => false
  | JBool b => b
  | JNum n =>
      match n with
      | S754_zero _ | S754_nan => false
      | _ => true
      end
  | JStr s => negb (String.eqb s EmptyString)
  | JArr _ | JObj _ => true
  end.

(** The object is a JavaScript object: every key occurs once, at every
    depth. *)
Inductive well_formed : value -> Prop :=
| wf_undefined : well_formed JUndefined
| wf_null : well_formed JNull
| wf_bool b : well_formed (JBool b)
| wf_num n : well_formed (JNum n)
| wf_str s : well_formed (JStr s)
| wf_arr xs : (forall x, In x xs -> well_formed x) -> well_formed (JArr xs)
| wf_obj fs :
    NoDup (map fst fs) ->
    (forall k x, In (k, x) fs -> well_formed x) ->
    well_formed (JObj fs).

(** Equality as JSON data: same keys mapping to recursively equal values,
    whatever the insertion order. *)
Inductive json_eq : value -> value -> Prop :=
| je_undefined : json_eq JUndefined JUndefined
| je_null : json_eq JNull JNull
| je_bool b : json_eq (JBool b) (JBool b)
| je_num n : json_eq (JNum n) (JNum n)
| je_str s : json_eq (JStr s) (JStr s)
| je_arr xs ys :
    List.length xs = List.length ys ->
    (forall i x y, nth_error xs i = Some x -> nth_error ys i = Some y ->
                   json_eq x y) ->
    json_eq (JArr xs) (JArr ys)
| je_obj fa fb :
    (forall k, assoc k fa = None <-> assoc k fb = None) ->
    (forall k x y, assoc k fa = Some x -> assoc k fb = Some y -> json_eq x y) ->
    json_eq (JObj fa) (JObj fb).

(** Executable counterparts of [well_formed] and [json_eq]. *)
Fixpoint distinct (l : list string) : bool :=
  match l with
  | [] => true
  | x :: l' => negb (existsb (String.eqb x) l') && distinct l'
  end.

Fixpoint well_formedb (v : value) : bool :=
  match v with
  | JArr xs => forallb well_formedb xs
  | JObj fs => distinct (map fst fs) && forallb (fun kv => well_formedb (snd kv)) fs
  | _ => true
  end.

Definition number_same (a b : number) : bool :=
  match a, b with
  | S754_zero s, S754_zero s' => Bool.eqb s s'
  | S754_infinity s, S754_infinity s' => Bool.eqb s s'
  | S754_nan, S754_nan => true
  | S754_finite s m e, S754_finite s' m' e' =>
      Bool.eqb s s' && Pos.eqb m m' && Z.eqb e e'
  | _, _ => false
  end.

Fixpoint json_eqb (a b : value) : bool :=
  match a, b with
  | JUndefined, JUndefined => true
  | JNull, JNull => true
  | JBool x, JBool y => Bool.eqb x y
  | JNum x, JNum y => number_same x y
  | JStr x, JStr y => String.eqb x y
  | JArr xs, JArr ys =>
      (fix all2 (l : list value) (r : list value) : bool :=
         match l, r with
         | [], [] => true
         | x :: l', y :: r' => json_eqb x y && all2 l' r'
         | _, _ => false
         end) xs ys
  | JObj fa, JObj fb =>
      forallb (fun kv => match assoc (fst kv) fb with
                         | Some y => json_eqb (snd kv) y
                         | None => false
                         end) fa
      && forallb (fun kv => match assoc (fst kv) fa with
                            | Some _ => true
                            | None => false
                            end) fb
  | _, _ => false
  end.

(* ================================================================== *)
(** ** [JSON.stringify] on strings *)

Definition dquote : ascii := ascii_of_nat 34.
Definition backslash : ascii := ascii_of_nat 92.

Definition hex_digit (n : N) : ascii :=
  ascii_of_N (if (n <? 10)%N then 48 + n else 87 + n)%N.

(** One code unit of a string literal: the two-character escapes, lowercase
    [\u00xx] for the other control characters, the unit itself otherwise. *)
Definition escape_char (c : ascii) : string :=
  let n := N_of_ascii c in
  let esc (x : string) := String backslash x in
  if (n =? 8)%N then esc "b"
  else if (n =? 9)%N then esc "t"
  else if (n =? 10)%N then esc "n"
  else if (n =? 12)%N then esc "f"
  else if (n =? 13)%N then esc "r"
  else if (n =? 34)%N then esc (String dquote EmptyString)
  else if (n =? 92)%N then esc (String backslash EmptyString)
  else if (n <? 32)%N
       then esc (String "u" (String "0" (String "0"
              (String (hex_digit (n / 16)) (String (hex_digit (n mod 16)) EmptyString)))))
       else String c EmptyString.

Fixpoint escape (s : string) : string :=
  match s with
  | EmptyString => EmptyString
  | String c s' => (escape_char c ++ escape s')%string
  end.

Definition JSON_stringify_string (s : string) : string :=
  String dquote (escape s ++ String dquote EmptyString)%string.

(* ================================================================== *)
(** ** flowversion-envelope.js: the JCS serializer *)

(** The member emitted for key [k], or the exception its value raises.
    [ser] holds what [jcsSerialize] gives for each property value. *)
Definition jcs_member (ser : list (string * outcome string)) (k : string)
  : outcome string :=
  match assoc k ser with
  | None => Throw "Undefined is forbidden in canonical JSON"
  | Some r => s <- r ;; Ret (JSON_stringify_string k ++ ":" ++ s)%string
  end.

Fixpoint jcsSerialize (v : value) : outcome string :=
  match v with
  | JNull => Ret "null"
  | JBool b => Ret (if b then "true" else "false")
  | JStr s => Ret (JSON_stringify_string s)
  | JNum n =>
      if negb (Number_isFinite n)
      then Throw "Non-finite numbers are forbidden in canonical JSON"
      else if negb (Number_isInteger n)
      then Throw "Non-integer numbers are forbidden in canonical JSON"
      else if negb (Number_isSafeInteger n)
      then Throw "Unsafe integers are forbidden in canonical JSON"
      else if is_negative_zero n then Ret "0"
      else Ret (String_of_number n)
  | JUndefined => Throw "Undefined is forbidden in canonical JSON"
  | JArr xs =>
      parts <- sequence (map jcsSerialize xs) ;;
      Ret ("[" ++ String.concat "," parts ++ "]")%string
  | JObj fs =>
      let ser := map (fun kv => (fst kv, jcsSerialize (snd kv))) fs in
      let keys := js_sort String.compare (Object_keys fs) in
      parts <- sequence (map (jcs_member ser) keys) ;;
      Ret ("{" ++ String.concat "," parts ++ "}")%string
  end.

Definition canonicalizeEnvelope (v : value) : outcome string := jcsSerialize v.

(* ================================================================== *)
(** ** Test vectors *)

Definition two_pow_53 : number := S754_finite false 4503599627370496 1.
Definition negative_zero : number := S754_zero true.

Example two_pow_53_value : integer_value two_pow_53 = Some (2 ^ 53).
Proof. reflexivity. Qed.

Example serialize_42 :
  jcsSerialize (JNum (number_of_Z 42)) = Ret "42".
Proof. vm_compute. reflexivity. Qed.

Example serialize_small_object :
  jcsSerialize (JObj [("b", JNum (number_of_Z (-7))); ("a", JArr [JNull; JBool true; JStr "x"])])
  = Ret (String "{" (String dquote ("a" ++ String dquote (":[null,true," ++ String dquote ("x" ++ String dquote ("]," ++ String dquote ("b" ++ String dquote ":-7}")))))))%string.
Proof. vm_compute. reflexivity. Qed.

(* ================================================================== *)
(** ** [Map]

    A JavaScript [Map] with string keys: entries in insertion order, one per
    key; [set] on a present key replaces the value in place. *)

Definition JsMap (V : Type) : Type := list (string * V).

Definition map_get {V : Type} (k : string) (m : JsMap V) : option V := assoc k m.

Fixpoint map_set {V : Type} (k : string) (v : V) (m : JsMap V) : JsMap V :=
  match m with
  | [] => [(k, v)]
  | (k', v') :: m' =>
      if String.eqb k k' then (k, v) :: m' else (k', v') :: map_set k v m'
  end.

Definition map_keys {V : Type} (m : JsMap V) : list string := map fst m.

(** [arr.includes(x)], [set.has(x)] on strings. *)
Definition includes (l : list string) (x : string) : bool :=
  existsb (String.eqb x) l.

(* ================================================================== *)
(** ** error-classification.js: the failure taxonomy *)

Module FailureClass.
Definition SCHEMA_REJECT : string := "SCHEMA_REJECT".
Definition HASH_MISMATCH : string := "HASH_MISMATCH".
Definition MISSING_PREREQ : string := "MISSING_PREREQ".
Definition TRACE_VIOLATION : string := "TRACE_VIOLATION".
Definition UNAUTHORIZED_EXECUTION : string := "UNAUTHORIZED_EXECUTION".
Definition RECORD_TYPE_FORBIDDEN : string := "RECORD_TYPE_FORBIDDEN".
End FailureClass.

Definition AcceptClass : string := "ACCEPT".

Definition NON_PERSISTENT_FAILURES : list string := [FailureClass.SCHEMA_REJECT].

Definition PERSIST_REJECTED_ATTEMPT : list string :=
  [FailureClass.HASH_MISMATCH; FailureClass.MISSING_PREREQ;
   FailureClass.TRACE_VIOLATION; FailureClass.UNAUTHORIZED_EXECUTION].

(** [s.endsWith(suffix)] *)
Definition endsWith (s suffix : string) : bool :=
  let n := String.length s in
  let k := String.length suffix in
  (k <=? n)%nat && String.eqb (substring (n - k) k s) suffix.

(** The validator's error objects carry a string [keyword] and a string
    [instancePath]; [ajvErrors] is the array of them. *)
Definition classifySchemaErrorKind (ajvErrors : list value) : string :=
  match ajvErrors with
  | [] => "schema_violation.unknown"
  | e0 :: _ =>
      let e := if truthy e0 then e0 else JObj [] in
      let keyword := get e "keyword" in
      if strict_eq keyword (JStr "required") then
        let missing := get (get e "params") "missingProperty" in
        let path := get e "instancePath" in
        if strict_eq missing (JStr "trace_id")
           && (strict_eq path (JStr "/trace")
               || match as_string path with
                  | Some p => endsWith p "/trace"
                  | None => false
                  end)
        then "schema_violation.trace_context.missing_trace_id"
        else match as_string missing with
             | Some m => ("schema_violation.required." ++ m)%string
             | None => "schema_violation.required"
             end
      else if strict_eq keyword (JStr "additionalProperties")
      then "schema_violation.additional_properties"
      else if strict_eq keyword (JStr "type") then "schema_violation.type"
      else if strict_eq keyword (JStr "pattern") then "schema_violation.pattern"
      else if strict_eq keyword (JStr "enum") then "schema_violation.enum"
      else match as_string keyword with
           | Some k =>
               if truthy keyword then ("schema_violation." ++ k)%string
               else "schema_violation.unknown"
           | None => "schema_violation.unknown"
           end
  end.

Definition missingPrereqKind (prereq : string) : string :=
  if String.eqb prereq "auth_context"
  then "missing_prereq.auth_context"
  else "missing_prereq.policy_decision".

Definition traceViolationKind : string := "trace_violation.trace_id_mismatch".
Definition unauthorizedKind : string := "unauthorized.policy_denied".
Definition hashMismatchKind : string := "hash_mismatch.envelope_hash".
Definition recordTypeForbiddenKind : string := "record_type_forbidden".

(* ================================================================== *)
(** ** replay/replay-failure.js *)

Module ReplayFailure.
Definition SCHEMA_REJECT : string := FailureClass.SCHEMA_REJECT.
Definition HASH_MISMATCH : string := FailureClass.HASH_MISMATCH.
Definition MISSING_PREREQ : string := FailureClass.MISSING_PREREQ.
Definition TRACE_VIOLATION : string := FailureClass.TRACE_VIOLATION.
Definition UNAUTHORIZED_EXECUTION : string := FailureClass.UNAUTHORIZED_EXECUTION.
Definition CHAIN_NOT_FOUND : string := "REPLAY_CHAIN_NOT_FOUND".
Definition POLICY_PATH_MISMATCH : string := "REPLAY_POLICY_PATH_MISMATCH".
Definition VARIANCE_VIOLATION : string := "REPLAY_VARIANCE_VIOLATION".
End ReplayFailure.

(* ================================================================== *)
(** ** cpo-kernel.js: stored artifacts and the artifact store *)

Record StoredArtifact : Type := mkStoredArtifact {
  sa_envelope_hash : string;
  sa_record_type : string;
  sa_envelope : value;
  sa_canonical_json : string
}.

Record StoredRejectedAttempt : Type := mkStoredRejectedAttempt {
  ra_envelope_hash : string;
  ra_record_type : string;
  ra_envelope : value;
  ra_canonical_json : string;
  ra_classification : string;
  ra_error_kind : string
}.

(** An entry of the generic artifacts bucket that
    replay-result-artifact.js attaches to a store. *)
Record OtherArtifact : Type := mkOtherArtifact {
  oa_artifact_sha256 : string;
  oa_canonical_json : string;
  oa_artifact : value;
  oa_artifact_type : string
}.

(** [other_artifacts] is absent until the first replay result is persisted. *)
Record ArtifactStore : Type := mkArtifactStore {
  accepted : JsMap StoredArtifact;
  rejected_attempts : JsMap StoredRejectedAttempt;
  other_artifacts : option (JsMap OtherArtifact)
}.

Definition new_ArtifactStore : ArtifactStore := mkArtifactStore [] [] None.

(** [store.getAccepted(envelopeHash)]; a key that is not a string is never
    present. *)
Definition getAccepted (store : ArtifactStore) (envelopeHash : value)
  : option StoredArtifact :=
  match envelopeHash with
  | JStr h => map_get h (accepted store)
  | _ => None
  end.

Definition putAccepted (store : ArtifactStore) (artifact : StoredArtifact)
  : ArtifactStore :=
  mkArtifactStore
    (map_set (sa_envelope_hash artifact) artifact (accepted store))
    (rejected_attempts store)
    (other_artifacts store).

Definition putRejectedAttempt (store : ArtifactStore) (attempt : StoredRejectedAttempt)
  : ArtifactStore :=
  mkArtifactStore
    (accepted store)
    (map_set (ra_envelope_hash attempt) attempt (rejected_attempts store))
    (other_artifacts store).

(** replay/ledger.js: [Ledger extends ArtifactStore] with a replay-results
    namespace. *)
Record ReplayResultEntry : Type := mkReplayResultEntry {
  rr_artifact_hash : string;
  rr_canonical_json : string;
  rr_artifact : value
}.

Record Ledger : Type := mkLedger {
  ledger_store :> ArtifactStore;
  replay_results : JsMap ReplayResultEntry
}.

Definition new_Ledger : Ledger := mkLedger new_ArtifactStore [].

Definition putReplayResult (ledger : Ledger) (artifact_hash canonical_json : string)
    (artifact : value) : Ledger :=
  mkLedger (ledger_store ledger)
    (map_set artifact_hash
       (mkReplayResultEntry artifact_hash canonical_json artifact)
       (replay_results ledger)).

(** The outcome object [commit_action] returns. *)
Inductive CommitResult : Type :=
| Accepted (envelope_hash canonical_json : string)
| Rejected (classification error_kind : string)
           (computed : option (string * string)).

Definition commit_ok (r : CommitResult) : bool :=
  match r with
  | Accepted _ _ => true
  | Rejected _ _ _ => false
  end.

Definition commit_classification (r : CommitResult) : string :=
  match r with
  | Accepted _ _ => AcceptClass
  | Rejected c _ _ => c
  end.

Definition commit_error_kind (r : CommitResult) : option string :=
  match r with
  | Accepted _ _ => None
  | Rejected _ k _ => Some k
  end.

Definition commit_canonical_json (r : CommitResult) : option string :=
  match r with
  | Accepted _ c => Some c
  | Rejected _ _ (Some (_, c)) => Some c
  | Rejected _ _ None => None
  end.

(** The result of a gate step: it passes with what it resolved, or fails
    with a classification and an error kind. *)
Inductive Check (A : Type) : Type :=
| Pass (a : A)
| Fail (classification error_kind : string).
Arguments Pass {A} a.
Arguments Fail {A} classification error_kind.

Record Prereqs : Type := mkPrereqs {
  pq_auth_context : option StoredArtifact;
  pq_policy_decision : option StoredArtifact
}.

(** [x?.envelope?.trace?.trace_id] on an optional stored artifact. *)
Definition artifact_trace_id (a : option StoredArtifact) : value :=
  match a with
  | Some x => get (get (sa_envelope x) "trace") "trace_id"
  | None => JUndefined
  end.

(* ================================================================== *)
(** ** flowversion-envelope.js: record types *)

Definition RECORD_TYPES : list string :=
  ["auth_context"; "policy_decision"; "model_call"; "tool_call"].

Record ValidationResult : Type := mkValidation {
  v_ok : bool;
  v_errors : list value
}.

(* ================================================================== *)
(** ** replay/replay-index.js: the resolver's view of the ledger *)

Inductive LedgerStatus : Type :=
| status_accepted
| status_rejected_attempt.

Record LedgerEnvelopeArtifact : Type := mkLedgerEnvelopeArtifact {
  la_envelope_hash : string;
  la_record_type : string;
  la_envelope : value;
  la_canonical_json : string;
  la_ledger_status : LedgerStatus;
  la_classification : option string;
  la_error_kind : option string
}.

Record ResolvedTraceChain : Type := mkResolvedTraceChain {
  rc_trace_id : string;
  rc_ordered : list LedgerEnvelopeArtifact;
  rc_auth_context : list LedgerEnvelopeArtifact;
  rc_policy_decision : list LedgerEnvelopeArtifact;
  rc_evidence : list LedgerEnvelopeArtifact
}.

(* ================================================================== *)
(** ** Replay result records *)

(** The result record of replay/invariant-replay.js and
    replay/constrained-replay.js. [failure_class] and [reference_trace_id]
    are absent until assigned. *)
Record ReplayRecord : Type := mkReplayRecord {
  rp_replay_type : string;
  rp_target_trace_id : string;
  rp_input_envelope_hashes : list string;
  rp_result : string;
  rp_generated_at : string;
  rp_reference_trace_id : option string;
  rp_failure_class : option string
}.

Definition with_failure (r : ReplayRecord) (failure_class : string) : ReplayRecord :=
  mkReplayRecord (rp_replay_type r) (rp_target_trace_id r)
    (rp_input_envelope_hashes r) (rp_result r) (rp_generated_at r)
    (rp_reference_trace_id r) (Some failure_class).

Definition with_hashes (r : ReplayRecord) (hashes : list string) : ReplayRecord :=
  mkReplayRecord (rp_replay_type r) (rp_target_trace_id r)
    hashes (rp_result r) (rp_generated_at r)
    (rp_reference_trace_id r) (rp_failure_class r).

Definition with_result (r : ReplayRecord) (result : string) : ReplayRecord :=
  mkReplayRecord (rp_replay_type r) (rp_target_trace_id r)
    (rp_input_envelope_hashes r) result (rp_generated_at r)
    (rp_reference_trace_id r) (rp_failure_class r).

Definition optional_field (k : string) (v : option string)
  : list (string * value) :=
  match v with
  | Some s => [(k, JStr s)]
  | None => []
  end.

(** The record as the JavaScript object that is canonicalized. *)
Definition record_value (r : ReplayRecord) : value :=
  JObj ([("replay_type", JStr (rp_replay_type r));
         ("target_trace_id", JStr (rp_target_trace_id r));
         ("input_envelope_hashes", JArr (map JStr (rp_input_envelope_hashes r)));
         ("result", JStr (rp_result r));
         ("generated_at", JStr (rp_generated_at r))]
        ++ optional_field "reference_trace_id" (rp_reference_trace_id r)
        ++ optional_field "failure_class" (rp_failure_class r)).

Record ReplayOutput : Type := mkReplayOutput {
  ro_record : ReplayRecord;
  ro_artifact_sha256 : option string
}.

(** The result record of replay/replay-result.js, built by
    [buildReplayResult]: absent [failure_class], [failure_kind] become
    [null]. *)
Record LedgerReplayResult : Type := buildReplayResult {
  lr_replay_type : string;
  lr_target_trace_id : string;
  lr_input_envelope_hashes : list string;
  lr_result : string;
  lr_failure_class : option string;
  lr_failure_kind : option string;
  lr_generated_at_ms : number;
  lr_details : value
}.

Definition nullable (v : option string) : value :=
  match v with
  | Some s => JStr s
  | None => JNull
  end.

Definition ledger_result_value (r : LedgerReplayResult) : value :=
  JObj [("replay_type", JStr (lr_replay_type r));
        ("target_trace_id", JStr (lr_target_trace_id r));
        ("input_envelope_hashes", JArr (map JStr (lr_input_envelope_hashes r)));
        ("result", JStr (lr_result r));
        ("failure_class", nullable (lr_failure_class r));
        ("failure_kind", nullable (lr_failure_kind r));
        ("generated_at_ms", JNum (lr_generated_at_ms r));
        ("details", lr_details r)].

Record ForensicOutput : Type := mkForensicOutput {
  fo_ok : bool;
  fo_replay_result : LedgerReplayResult;
  fo_result_artifact : option ReplayResultEntry
}.

(** replay/constrained-replay.js: the diagnostics returned beside the
    record. *)
Record AllowedDifference : Type := mkAllowedDifference {
  ad_record_type : string;
  ad_baseline_envelope_hash : string;
  ad_candidate_envelope_hash : string;
  ad_allowed_because : string
}.

Record Diagnostics : Type := mkDiagnostics {
  dg_allowed_hash_differences : list AllowedDifference;
  dg_baseline_policy_path : option (list value);
  dg_candidate_policy_path : option (list value)
}.

Record ConstrainedOutput : Type := mkConstrainedOutput {
  co_record : ReplayRecord;
  co_diagnostics : Diagnostics;
  co_artifact_sha256 : option string
}.

(* ================================================================== *)
(** ** conformance-producers.js: the fixture envelopes *)

Definition num (z : Z) : value := JNum (number_of_Z z).

Definition hex64 (c : string) : string :=
  String.concat EmptyString (repeat c 64).

Definition produceAuthContext_A : value :=
  JObj [("spec_version", JStr "1.0.0");
        ("canon_version", JStr "1");
        ("record_type", JStr "auth_context");
        ("ts_ms", num 1769817600000);
        ("trace", JObj [("trace_id", JStr "4bf92f3577b34da6a3ce929d0e0e4736");
                        ("span_id", JStr "00f067aa0ba902b7");
                        ("span_kind", JStr "root")]);
        ("producer", JObj [("layer", JStr "cpo");
                           ("component", JStr "ingress_gateway")]);
        ("actor", JObj [("actor_kind", JStr "human");
                        ("actor_id", JStr "user:12345")]);
        ("credential", JObj [("credential_kind", JStr "jwt");
                             ("issuer", JStr "auth.example");
                             ("presented_hash_sha256", JStr (hex64 "a"));
                             ("verified_at_ms", num 1769817600000);
                             ("expires_at_ms", num 1769821200000)]);
        ("grants", JObj [("role:viewer", JBool true);
                         ("scope:read", JBool true)])].

Definition produceAuthContext_B : value :=
  JObj [("ts_ms", num 1769817600000);
        ("record_type", JStr "auth_context");
        ("canon_version", JStr "1");
        ("spec_version", JStr "1.0.0");
        ("producer", JObj [("component", JStr "ingress_gateway");
                           ("layer", JStr "cpo")]);
        ("trace", JObj [("span_kind", JStr "root");
                        ("span_id", JStr "00f067aa0ba902b7");
                        ("trace_id", JStr "4bf92f3577b34da6a3ce929d0e0e4736")]);
        ("credential", JObj [("verified_at_ms", num 1769817600000);
                             ("presented_hash_sha256", JStr (hex64 "a"));
                             ("issuer", JStr "auth.example");
                             ("expires_at_ms", num 1769821200000);
                             ("credential_kind", JStr "jwt")]);
        ("actor", JObj [("actor_id", JStr "user:12345");
                        ("actor_kind", JStr "human")]);
        ("grants", JObj [("scope:read", JBool true);
                         ("role:viewer", JBool true)])].

Definition policy_decision_fixture (ts_ms : Z) (span_id action resource result reason : string)
    (auth_context_envelope_sha256 : string) : value :=
  JObj [("spec_version", JStr "1.0.0");
        ("canon_version", JStr "1");
        ("record_type", JStr "policy_decision");
        ("ts_ms", num ts_ms);
        ("trace", JObj [("trace_id", JStr "4bf92f3577b34da6a3ce929d0e0e4736");
                        ("span_id", JStr span_id);
                        ("span_kind", JStr "child");
                        ("parent_span_id", JStr "00f067aa0ba902b7")]);
        ("producer", JObj [("layer", JStr "cpo");
                           ("component", JStr "policy_engine")]);
        ("auth_context_envelope_sha256", JStr auth_context_envelope_sha256);
        ("policy", JObj [("policy_id", JStr "cpo.default");
                         ("policy_version", JStr "2026_01_31");
                         ("policy_sha256", JStr (hex64 "c"))]);
        ("request", JObj [("action", JStr action);
                          ("resource", JStr resource)]);
        ("decision", JObj [("result", JStr result);
                           ("reason_codes", JObj [(reason, JBool true)]);
                           ("obligations", JObj [])])].

Definition producePolicyDecisionAllow_Tool : string -> value :=
  policy_decision_fixture 1769817600250 "b7ad6b7169203331"
    "tool.invoke" "tool:http.fetch" "allow" "allow".

Definition producePolicyDecisionDeny_Tool : string -> value :=
  policy_decision_fixture 1769817600260 "b7ad6b7169203331"
    "tool.invoke" "tool:http.fetch" "deny" "deny.policy".

Definition producePolicyDecisionAllow_Model : string -> value :=
  policy_decision_fixture 1769817600200 "b7ad6b7169203332"
    "model.call" "model:openai:gpt-4o-mini" "allow" "allow.policy".

Definition blobref (sha : string) (size_bytes : Z) : value :=
  JObj [("sha256", JStr sha);
        ("size_bytes", num size_bytes);
        ("content_type", JStr "application/json")].

Definition model_call_fixture (trace_id span_id parent_span_id : string)
    (response : value) (auth_hash policy_hash : string) : value :=
  JObj [("spec_version", JStr "1.0.0");
        ("canon_version", JStr "1");
        ("record_type", JStr "model_call");
        ("started_at_ms", num 1769817600400);
        ("ended_at_ms", num 1769817600500);
        ("trace", JObj [("trace_id", JStr trace_id);
                        ("span_id", JStr span_id);
                        ("span_kind", JStr "child");
                        ("parent_span_id", JStr parent_span_id)]);
        ("producer", JObj [("layer", JStr "flow");
                           ("component", JStr "flow_runtime")]);
        ("auth_context_envelope_sha256", JStr auth_hash);
        ("policy_decision_envelope_sha256", JStr policy_hash);
        ("model", JObj [("provider", JStr "openai");
                        ("model", JStr "gpt-4o-mini")]);
        ("request", blobref (hex64 "d") 123);
        ("response", response);
        ("usage", JObj [("input_tokens", num 10);
                        ("output_tokens", num 20);
                        ("total_tokens", num 30)]);
        ("outcome", JObj [("status", JStr "ok")])].

Definition produceModelCall_A : string -> string -> value :=
  model_call_fixture "4bf92f3577b34da6a3ce929d0e0e4736" "c3ab8ff13720e8ad"
    "b7ad6b7169203332" (blobref (hex64 "e") 456).

Definition produceToolCall_A (auth_hash policy_hash : string) : value :=
  JObj [("spec_version", JStr "1.0.0");
        ("canon_version", JStr "1");
        ("record_type", JStr "tool_call");
        ("started_at_ms", num 1769817603000);
        ("ended_at_ms", num 1769817603200);
        ("trace", JObj [("trace_id", JStr "4bf92f3577b34da6a3ce929d0e0e4736");
                        ("span_id", JStr "5c1d3a2b4f6e7d8c");
                        ("span_kind", JStr "child");
                        ("parent_span_id", JStr "b7ad6b7169203331")]);
        ("producer", JObj [("layer", JStr "adapter");
                           ("component", JStr "adapter_http")]);
        ("auth_context_envelope_sha256", JStr auth_hash);
        ("policy_decision_envelope_sha256", JStr policy_hash);
        ("tool", JObj [("adapter_id", JStr "adapter.http");
                       ("tool_name", JStr "http.fetch")]);
        ("request", JObj [("content_type", JStr "application/json");
                          ("sha256", JStr (hex64 "1"));
                          ("size_bytes", num 210)]);
        ("response", JObj [("content_type", JStr "application/json");
                           ("sha256", JStr (hex64 "2"));
                           ("size_bytes", num 980)]);
        ("outcome", JObj [("status", JStr "ok")])].

Definition produceToolCall_B (auth_hash policy_hash : string) : value :=
  JObj [("outcome", JObj [("status", JStr "ok")]);
        ("response", JObj [("sha256", JStr (hex64 "2"));
                           ("content_type", JStr "application/json");
                           ("size_bytes", num 980)]);
        ("request", JObj [("size_bytes", num 210);
                          ("sha256", JStr (hex64 "1"));
                          ("content_type", JStr "application/json")]);
        ("tool", JObj [("tool_name", JStr "http.fetch");
                       ("adapter_id", JStr "adapter.http")]);
        ("policy_decision_envelope_sha256", JStr policy_hash);
        ("auth_context_envelope_sha256", JStr auth_hash);
        ("producer", JObj [("component", JStr "adapter_http");
                           ("layer", JStr "adapter")]);
        ("trace", JObj [("span_kind", JStr "child");
                        ("parent_span_id", JStr "b7ad6b7169203331");
                        ("trace_id", JStr "4bf92f3577b34da6a3ce929d0e0e4736");
                        ("span_id", JStr "5c1d3a2b4f6e7d8c")]);
        ("ended_at_ms", num 1769817603200);
        ("started_at_ms", num 1769817603000);
        ("record_type", JStr "tool_call");
        ("canon_version", JStr "1");
        ("spec_version", JStr "1.0.0")].

(** Stand-ins for the platform services in the test vectors below: an
    injective digest, a validator that accepts every object whose
    [record_type] is known, code-unit collation. *)
Definition test_sha256 (s : string) : string := ("sha256:" ++ s)%string.
Definition test_validate (record_type : string) (envelope : value)
  : option (list value) := None.
Definition test_localeCompare : string -> string -> comparison := String.compare.
Definition test_Number_toString (n : number) : string := "NaN".
Definition test_same_object (a b : value) : bool := false.

(* ================================================================== *)
(** ** The gate and the replay engines over the platform services *)

Section Runtime.

(** [createHash('sha256').update(s, 'utf8').digest('hex')] *)
Variable sha256 : string -> string.

(** The compiled schema validator of a record type, applied to an envelope:
    [None] when it validates, its error array otherwise. The schema files
    are assets outside the sources. *)
Variable ajv_validate : string -> value -> option (list value).

(** [a.localeCompare(b)], read as the sort comparator reads its sign. *)
Variable localeCompare : string -> string -> comparison.

(** [JSON.stringify] of a number that is not a safe integer
    (Number::toString). *)
Variable Number_toString : number -> string.

(** [a === b] on two objects, or on two arrays: whether the two are one
    object of the heap. A value carries no object identity, so the answer is
    left to the heap the program runs in; one object is one value, whatever
    the heap is. *)
Variable same_object : value -> value -> bool.

(* ---------------------------------------------------------------- *)
(** *** flowversion-envelope.js *)

Definition validateEnvelope (envelope : value) : ValidationResult :=
  match envelope with
  | JObj _ =>
      match get envelope "record_type" with
      | JStr recordType =>
          if negb (includes RECORD_TYPES recordType)
          then mkValidation false
                 [JObj [("keyword", JStr "enum");
                        ("message", JStr "unknown record_type");
                        ("instancePath", JStr "/record_type");
                        ("params", JObj [("allowedValues", JArr (map JStr RECORD_TYPES))])]]
          else match ajv_validate recordType envelope with
               | None => mkValidation true []
               | Some errors => mkValidation false errors
               end
      | _ =>
          mkValidation false
            [JObj [("keyword", JStr "required");
                   ("message", JStr "missing record_type");
                   ("instancePath", JStr EmptyString);
                   ("params", JObj [("missingProperty", JStr "record_type")])]]
      end
  | _ =>
      mkValidation false
        [JObj [("keyword", JStr "type");
               ("message", JStr "must be object");
               ("instancePath", JStr EmptyString)]]
  end.

Definition hashEnvelope (envelope : value) : outcome string :=
  canonical <- canonicalizeEnvelope envelope ;;
  Ret (sha256 canonical).

(* ---------------------------------------------------------------- *)
(** *** cpo-kernel.js: [CpoKernel] *)

Definition persistRejectedAttemptIfRequired (store : ArtifactStore)
    (classification error_kind record_type : string) (envelope : value)
    (canonical_json envelope_hash : string) : ArtifactStore :=
  if includes NON_PERSISTENT_FAILURES classification then store
  else if negb (includes PERSIST_REJECTED_ATTEMPT classification) then store
  else putRejectedAttempt store
         (mkStoredRejectedAttempt envelope_hash record_type envelope
            canonical_json classification error_kind).

Definition resolvePrereqs (store : ArtifactStore) (record_type : string)
    (envelope : value) : Check Prereqs :=
  if String.eqb record_type "auth_context" then Pass (mkPrereqs None None)
  else if String.eqb record_type "policy_decision" then
    let h := get envelope "auth_context_envelope_sha256" in
    match getAccepted store h with
    | None => Fail FailureClass.MISSING_PREREQ (missingPrereqKind "auth_context")
    | Some auth => Pass (mkPrereqs (Some auth) None)
    end
  else if String.eqb record_type "model_call" || String.eqb record_type "tool_call" then
    let authHash := get envelope "auth_context_envelope_sha256" in
    let pdHash := get envelope "policy_decision_envelope_sha256" in
    match getAccepted store authHash with
    | None => Fail FailureClass.MISSING_PREREQ (missingPrereqKind "auth_context")
    | Some auth =>
        match getAccepted store pdHash with
        | None => Fail FailureClass.MISSING_PREREQ (missingPrereqKind "policy_decision")
        | Some pd => Pass (mkPrereqs (Some auth) (Some pd))
        end
    end
  else Fail FailureClass.RECORD_TYPE_FORBIDDEN recordTypeForbiddenKind.

Definition enforceTraceContinuity (record_type : string) (envelope : value)
    (prereqs : Prereqs) : Check unit :=
  if String.eqb record_type "auth_context" then Pass tt
  else
    let traceId := get (get envelope "trace") "trace_id" in
    match traceId with
    | JStr _ =>
        if String.eqb record_type "policy_decision" then
          let authTrace := artifact_trace_id (pq_auth_context prereqs) in
          if negb (strict_eq authTrace traceId)
          then Fail FailureClass.TRACE_VIOLATION traceViolationKind
          else Pass tt
        else if String.eqb record_type "model_call" || String.eqb record_type "tool_call" then
          let authTrace := artifact_trace_id (pq_auth_context prereqs) in
          let pdTrace := artifact_trace_id (pq_policy_decision prereqs) in
          if negb (strict_eq authTrace traceId) || negb (strict_eq pdTrace traceId)
          then Fail FailureClass.TRACE_VIOLATION traceViolationKind
          else Pass tt
        else Pass tt
    | _ => Fail FailureClass.TRACE_VIOLATION traceViolationKind
    end.

Definition enforceAuthorization (record_type : string) (prereqs : Prereqs)
  : Check unit :=
  if negb (String.eqb record_type "model_call")
     && negb (String.eqb record_type "tool_call")
  then Pass tt
  else
    let result :=
      match pq_policy_decision prereqs with
      | Some pd => get (get (sa_envelope pd) "decision") "result"
      | None => JUndefined
      end in
    if negb (strict_eq result (JStr "allow"))
    then Fail FailureClass.UNAUTHORIZED_EXECUTION unauthorizedKind
    else Pass tt.

(** A rejection after hashing: persist the attempt when the taxonomy asks
    for it and report the computed hash and canonical bytes. *)
Definition reject_after_hash (store : ArtifactStore)
    (classification error_kind record_type : string) (envelope : value)
    (canonical_json computed_envelope_hash : string)
  : outcome CommitResult * ArtifactStore :=
  (Ret (Rejected classification error_kind
          (Some (computed_envelope_hash, canonical_json))),
   persistRejectedAttemptIfRequired store classification error_kind
     record_type envelope canonical_json computed_envelope_hash).

(** [commit_action(record_type, declared_envelope_hash, envelope)]: the
    returned outcome (or the exception) and the store afterwards. *)
Definition commit_action (store : ArtifactStore)
    (record_type declared_envelope_hash : string) (envelope : value)
  : outcome CommitResult * ArtifactStore :=
  (* 0) Closed-world record type check. *)
  if negb (includes RECORD_TYPES record_type) then
    (Ret (Rejected FailureClass.RECORD_TYPE_FORBIDDEN recordTypeForbiddenKind None),
     store)
  else
  (* 1) Schema validation. *)
  let v := validateEnvelope envelope in
  if negb (v_ok v) then
    (Ret (Rejected FailureClass.SCHEMA_REJECT
            (classifySchemaErrorKind (v_errors v)) None),
     store)
  else
  (* The boundary-declared record_type must match the envelope payload. *)
  if negb (strict_eq (get envelope "record_type") (JStr record_type)) then
    (Ret (Rejected FailureClass.SCHEMA_REJECT
            "schema_violation.record_type_mismatch" None),
     store)
  else
  (* 2) Canonicalization. *)
  match canonicalizeEnvelope envelope with
  | Throw msg => (Throw msg, store)
  | Ret canonical_json =>
  (* 3) Hash computation. *)
  match hashEnvelope envelope with
  | Throw msg => (Throw msg, store)
  | Ret computed_envelope_hash =>
  (* 4) Hash comparison. *)
  if negb (String.eqb declared_envelope_hash computed_envelope_hash) then
    reject_after_hash store FailureClass.HASH_MISMATCH hashMismatchKind
      record_type envelope canonical_json computed_envelope_hash
  else
  (* 5) Prerequisite resolution. *)
  match resolvePrereqs store record_type envelope with
  | Fail classification error_kind =>
      reject_after_hash store classification error_kind
        record_type envelope canonical_json computed_envelope_hash
  | Pass prereqs =>
  (* 6) Trace continuity enforcement. *)
  match enforceTraceContinuity record_type envelope prereqs with
  | Fail classification error_kind =>
      reject_after_hash store classification error_kind
        record_type envelope canonical_json computed_envelope_hash
  | Pass _ =>
  (* 7) Authorization check. *)
  match enforceAuthorization record_type prereqs with
  | Fail classification error_kind =>
      reject_after_hash store classification error_kind
        record_type envelope canonical_json computed_envelope_hash
  | Pass _ =>
  (* 8) Persist accepted artifact. *)
      (Ret (Accepted computed_envelope_hash canonical_json),
       putAccepted store
         (mkStoredArtifact computed_envelope_hash record_type envelope
            canonical_json))
  end end end end end.

(* ---------------------------------------------------------------- *)
(** *** replay/replay-index.js *)

Definition getTraceId (envelope : value) : value :=
  get (get envelope "trace") "trace_id".

Definition recordRank (rt : string) : Z :=
  if String.eqb rt "auth_context" then 0
  else if String.eqb rt "policy_decision" then 1
  else if String.eqb rt "model_call" || String.eqb rt "tool_call" then 2
  else 9.

Definition number_or_zero (v : value) : number :=
  match v with
  | JNum n => n
  | _ => S754_zero false
  end.

Definition timeKey (artifact : LedgerEnvelopeArtifact) : number :=
  let e := la_envelope artifact in
  let rt := la_record_type artifact in
  if String.eqb rt "auth_context" || String.eqb rt "policy_decision"
  then number_or_zero (get e "ts_ms")
  else if String.eqb rt "model_call" || String.eqb rt "tool_call"
  then number_or_zero (get e "started_at_ms")
  else S754_zero false.

Definition accepted_artifact (entry : string * StoredArtifact)
  : LedgerEnvelopeArtifact :=
  let (h, a) := entry in
  mkLedgerEnvelopeArtifact h (sa_record_type a) (sa_envelope a)
    (sa_canonical_json a) status_accepted None None.

Definition rejected_artifact (entry : string * StoredRejectedAttempt)
  : LedgerEnvelopeArtifact :=
  let (h, a) := entry in
  mkLedgerEnvelopeArtifact h (ra_record_type a) (ra_envelope a)
    (ra_canonical_json a) status_rejected_attempt
    (Some (ra_classification a)) (Some (ra_error_kind a)).

(** The local function [add] of [buildTraceIndex]. *)
Definition index_add (idx : JsMap (list LedgerEnvelopeArtifact))
    (art : LedgerEnvelopeArtifact) : JsMap (list LedgerEnvelopeArtifact) :=
  match getTraceId (la_envelope art) with
  | JStr tid =>
      if (String.length tid =? 0)%nat then idx
      else
        let arr := match map_get tid idx with
                   | Some a => a
                   | None => []
                   end in
        map_set tid (arr ++ [art]) idx
  | _ => idx
  end.

Definition buildTraceIndex (store : ArtifactStore)
    (include_rejected_attempts : bool) : JsMap (list LedgerEnvelopeArtifact) :=
  let idx := fold_left index_add (map accepted_artifact (accepted store)) [] in
  if include_rejected_attempts
  then fold_left index_add (map rejected_artifact (rejected_attempts store)) idx
  else idx.

(** The comparator of [resolveTraceChain]: record class, then time, then
    envelope hash. *)
Definition compareArtifacts (a b : LedgerEnvelopeArtifact) : comparison :=
  let ra := recordRank (la_record_type a) in
  let rb := recordRank (la_record_type b) in
  if negb (ra =? rb) then ra ?= rb
  else
    let ta := timeKey a in
    let tb := timeKey b in
    if negb (number_strict_eq ta tb) then number_difference_sign ta tb
    else localeCompare (la_envelope_hash a) (la_envelope_hash b).

Definition is_evidence (x : LedgerEnvelopeArtifact) : bool :=
  String.eqb (la_record_type x) "model_call"
  || String.eqb (la_record_type x) "tool_call".

Definition resolveTraceChain (store : ArtifactStore) (trace_id : string)
    (include_rejected_attempts : bool) : option ResolvedTraceChain :=
  let idx := buildTraceIndex store include_rejected_attempts in
  match map_get trace_id idx with
  | None => None
  | Some [] => None
  | Some items =>
      let ordered := js_sort compareArtifacts items in
      Some (mkResolvedTraceChain trace_id ordered
              (filter (fun x => String.eqb (la_record_type x) "auth_context") ordered)
              (filter (fun x => String.eqb (la_record_type x) "policy_decision") ordered)
              (filter is_evidence ordered))
  end.

(* ---------------------------------------------------------------- *)
(** *** replay/replay-result-artifact.js *)

Definition sealReplayResult (result : value) : outcome (string * string) :=
  canonical_json <- canonicalizeEnvelope result ;;
  sha <- hashEnvelope result ;;
  Ret (canonical_json, sha).

(** Persist the replay result into the generic artifacts bucket, attaching
    the bucket to the store when it is not there yet. Returns
    [(artifact_sha256, canonical_json)]. *)
Definition persistReplayResult (store : ArtifactStore) (result : value)
  : outcome (string * string) * ArtifactStore :=
  match sealReplayResult result with
  | Throw msg => (Throw msg, store)
  | Ret (canonical_json, sha) =>
      let bucket := match other_artifacts store with
                    | Some m => m
                    | None => []
                    end in
      (Ret (sha, canonical_json),
       mkArtifactStore (accepted store) (rejected_attempts store)
         (Some (map_set sha
                  (mkOtherArtifact sha canonical_json result "replay_result")
                  bucket)))
  end.

(* ---------------------------------------------------------------- *)
(** *** replay/invariant-replay.js *)

Definition traceIdOf (envelope : value) : value :=
  get (get envelope "trace") "trace_id".

Definition requireAccepted (store : ArtifactStore) (hash : value)
  : option StoredArtifact :=
  getAccepted store hash.

(** [None] when the check passes, the failure class otherwise. *)
Definition schemaAndHashCheck (envelope : value) (expectedHash : string)
  : outcome (option string) :=
  if negb (v_ok (validateEnvelope envelope))
  then Ret (Some ReplayFailure.SCHEMA_REJECT)
  else
    h <- hashEnvelope envelope ;;
    if negb (String.eqb h expectedHash)
    then Ret (Some ReplayFailure.HASH_MISMATCH)
    else Ret None.

(** First loop of the engine: schema and hash integrity of each artifact,
    stopping at the first failure. *)
Fixpoint integrity_loop (chain : list LedgerEnvelopeArtifact)
  : outcome (option string) :=
  match chain with
  | [] => Ret None
  | art :: rest =>
      chk <- schemaAndHashCheck (la_envelope art) (la_envelope_hash art) ;;
      match chk with
      | Some failure_class => Ret (Some failure_class)
      | None => integrity_loop rest
      end
  end.

(** Body of the second loop for one artifact: prerequisites, trace
    continuity and authorization. Every envelope reached here passed
    [validateEnvelope] in the first loop, so it is an object and its
    property reads do not throw. *)
Definition governance_check (store : ArtifactStore)
    (art : LedgerEnvelopeArtifact) : option string :=
  let rt := la_record_type art in
  let env := la_envelope art in
  if String.eqb rt "auth_context" then None
  else if String.eqb rt "policy_decision" then
    let authHash := get env "auth_context_envelope_sha256" in
    match requireAccepted store authHash with
    | None => Some ReplayFailure.MISSING_PREREQ
    | Some auth =>
        if negb (strict_eq (traceIdOf (sa_envelope auth)) (traceIdOf env))
        then Some ReplayFailure.TRACE_VIOLATION
        else None
    end
  else if String.eqb rt "model_call" || String.eqb rt "tool_call" then
    let authHash := get env "auth_context_envelope_sha256" in
    let pdHash := get env "policy_decision_envelope_sha256" in
    match requireAccepted store authHash with
    | None => Some ReplayFailure.MISSING_PREREQ
    | Some auth =>
        match requireAccepted store pdHash with
        | None => Some ReplayFailure.MISSING_PREREQ
        | Some pd =>
            let tid := traceIdOf env in
            if negb (strict_eq (traceIdOf (sa_envelope auth)) tid)
               || negb (strict_eq (traceIdOf (sa_envelope pd)) tid)
            then Some ReplayFailure.TRACE_VIOLATION
            else
              let decision := get (get (sa_envelope pd) "decision") "result" in
              if negb (strict_eq decision (JStr "allow"))
              then Some ReplayFailure.UNAUTHORIZED_EXECUTION
              else None
        end
    end
  else None.

Fixpoint governance_loop (store : ArtifactStore)
    (chain : list LedgerEnvelopeArtifact) : option string :=
  match chain with
  | [] => None
  | art :: rest =>
      match governance_check store art with
      | Some failure_class => Some failure_class
      | None => governance_loop store rest
      end
  end.

Definition finalize (store : ArtifactStore) (record : ReplayRecord)
    (persist : bool) : outcome ReplayOutput * ArtifactStore :=
  if persist then
    match persistReplayResult store (record_value record) with
    | (Throw msg, store') => (Throw msg, store')
    | (Ret (sha, _), store') => (Ret (mkReplayOutput record (Some sha)), store')
    end
  else (Ret (mkReplayOutput record None), store).

(** [invariantReplay(store, trace_id, opts)]; [clock_iso] is
    [isoTime(opts.clock)]. *)
Definition invariantReplay (store : ArtifactStore) (trace_id : string)
    (include_rejected_attempts persist_result : bool) (clock_iso : string)
  : outcome ReplayOutput * ArtifactStore :=
  let chain := resolveTraceChain store trace_id include_rejected_attempts in
  let record := mkReplayRecord "invariant" trace_id [] "fail" clock_iso None None in
  match chain with
  | None =>
      finalize store (with_failure record ReplayFailure.CHAIN_NOT_FOUND)
        persist_result
  | Some chain =>
      let record := with_hashes record (map la_envelope_hash (rc_ordered chain)) in
      match integrity_loop (rc_ordered chain) with
      | Throw msg => (Throw msg, store)
      | Ret (Some failure_class) =>
          finalize store (with_failure record failure_class) persist_result
      | Ret None =>
          match governance_loop store (rc_ordered chain) with
          | Some failure_class =>
              finalize store (with_failure record failure_class) persist_result
          | None => finalize store (with_result record "pass") persist_result
          end
      end
  end.

(* ---------------------------------------------------------------- *)
(** *** replay/replay-result.js (ledger variant) *)

Definition canonicalizeReplayResult (result : value) : outcome string :=
  canonicalizeEnvelope result.

Definition hashReplayResult (result : value) : outcome string :=
  hashEnvelope result.

(** [persistReplayResult(ledger, result)] of replay-result.js. *)
Definition persistReplayResult_ledger (ledger : Ledger) (result : value)
  : outcome ReplayResultEntry * Ledger :=
  match canonicalizeReplayResult result with
  | Throw msg => (Throw msg, ledger)
  | Ret canonical_json =>
      match hashReplayResult result with
      | Throw msg => (Throw msg, ledger)
      | Ret artifact_hash =>
          (Ret (mkReplayResultEntry artifact_hash canonical_json result),
           putReplayResult ledger artifact_hash canonical_json result)
      end
  end.

(* ---------------------------------------------------------------- *)
(** *** The ledger index used by replay/forensic-replay.js (ledger variant) *)

(** The chain order of the specification: kind class, then time key, then
    envelope hash in lexicographic order. *)
Definition chain_order (a b : LedgerEnvelopeArtifact) : comparison :=
  match recordRank (la_record_type a) ?= recordRank (la_record_type b) with
  | Eq =>
      match number_difference_sign (timeKey a) (timeKey b) with
      | Eq => String.compare (la_envelope_hash a) (la_envelope_hash b)
      | c => c
      end
  | c => c
  end.

Definition of_trace (trace_id : string) (x : LedgerEnvelopeArtifact) : bool :=
  strict_eq (getTraceId (la_envelope x)) (JStr trace_id).

(** Modelled from the spec: the class [ReplayIndex] ([fromLedger],
    [resolve]) is not among the sources. Section 4.6: scan the accepted
    namespace and the rejected-attempt namespace, bucket by [trace_id], and
    within a bucket order by kind class, time key and envelope hash;
    [resolve] returns the ordered accepted chain and the ordered
    rejected attempts of the trace. *)
Definition ReplayIndex_resolve (ledger : Ledger) (trace_id : string)
  : list LedgerEnvelopeArtifact * list LedgerEnvelopeArtifact :=
  (js_sort chain_order
     (filter (of_trace trace_id) (map accepted_artifact (accepted ledger))),
   js_sort chain_order
     (filter (of_trace trace_id) (map rejected_artifact (rejected_attempts ledger)))).

(* ---------------------------------------------------------------- *)
(** *** replay/forensic-replay.js (ledger variant) *)

Definition status_value (x : LedgerEnvelopeArtifact) : value :=
  match la_ledger_status x with
  | status_accepted => JStr "accepted"
  | status_rejected_attempt => JStr "rejected_attempt"
  end.

Definition firstFailureDetails (ref : LedgerEnvelopeArtifact)
    (classification failure_kind : string) (extra : list (string * value))
  : value :=
  JObj ([("classification", JStr classification);
         ("failure_kind", JStr failure_kind);
         ("at", JObj [("status", status_value ref);
                      ("record_type", JStr (la_record_type ref));
                      ("envelope_hash", JStr (la_envelope_hash ref))])]
        ++ extra).

(** The loop over the accepted chain, re-ingesting into the simulation
    store [sim]: the first failure as (class, kind, details), or [None]
    when every artifact passes. *)
Fixpoint forensic_loop (sim : ArtifactStore) (refs : list LedgerEnvelopeArtifact)
  : outcome (option (string * string * value)) :=
  match refs with
  | [] => Ret None
  | ref :: rest =>
      (* 0) Schema re-validation. *)
      let v := validateEnvelope (la_envelope ref) in
      if negb (v_ok v) then
        Ret (Some (FailureClass.SCHEMA_REJECT, "replay.schema_reject",
                   firstFailureDetails ref FailureClass.SCHEMA_REJECT
                     "replay.schema_reject"
                     [("schema_errors", JArr (v_errors v))]))
      else
      (* 1) Canonical bytes match stored canonical JSON. *)
      recomputed_canonical <- canonicalizeEnvelope (la_envelope ref) ;;
      if negb (String.eqb recomputed_canonical (la_canonical_json ref)) then
        Ret (Some (FailureClass.HASH_MISMATCH, "replay.canonical_json_mismatch",
                   firstFailureDetails ref FailureClass.HASH_MISMATCH
                     "replay.canonical_json_mismatch" []))
      else
      (* 2) Hash integrity. *)
      recomputed_hash <- hashEnvelope (la_envelope ref) ;;
      if negb (String.eqb recomputed_hash (la_envelope_hash ref)) then
        Ret (Some (FailureClass.HASH_MISMATCH, "replay.hash_integrity_mismatch",
                   firstFailureDetails ref FailureClass.HASH_MISMATCH
                     "replay.hash_integrity_mismatch"
                     [("expected_envelope_hash", JStr (la_envelope_hash ref));
                      ("recomputed_envelope_hash", JStr recomputed_hash)]))
      else
      (* 3) Re-ingest through commit_action. *)
      match commit_action sim (la_record_type ref) (la_envelope_hash ref)
              (la_envelope ref) with
      | (Throw msg, _) => Throw msg
      | (Ret (Rejected classification error_kind _), _) =>
          Ret (Some (classification, error_kind,
                     firstFailureDetails ref classification error_kind []))
      | (Ret (Accepted _ canonical_json), sim') =>
          (* 4) Canonical JSON produced during re-ingestion. *)
          if negb (String.eqb canonical_json (la_canonical_json ref)) then
            Ret (Some (FailureClass.HASH_MISMATCH,
                       "replay.canonical_json_mismatch_commit",
                       firstFailureDetails ref FailureClass.HASH_MISMATCH
                         "replay.canonical_json_mismatch_commit" []))
          else forensic_loop sim' rest
      end
  end.

Definition emit (ledger : Ledger) (emit_result : bool) (ok : bool)
    (replay_result : LedgerReplayResult) : outcome ForensicOutput * Ledger :=
  if emit_result then
    match persistReplayResult_ledger ledger (ledger_result_value replay_result) with
    | (Throw msg, ledger') => (Throw msg, ledger')
    | (Ret entry, ledger') =>
        (Ret (mkForensicOutput ok replay_result (Some entry)), ledger')
    end
  else (Ret (mkForensicOutput ok replay_result None), ledger).

(** [forensicReplay({ledger, trace_id, emit_result})]; [now_ms] is what
    [Date.now()] returns. *)
Definition forensicReplay (ledger : Ledger) (trace_id : string)
    (emit_result : bool) (now_ms : number) : outcome ForensicOutput * Ledger :=
  let (resolved_accepted, resolved_rejected) := ReplayIndex_resolve ledger trace_id in
  match resolved_accepted with
  | [] =>
      emit ledger emit_result false
        (buildReplayResult "forensic" trace_id [] "fail"
           (Some "REPLAY_NOT_FOUND") (Some "replay.not_found") now_ms (JObj []))
  | _ =>
      (* A fresh kernel over a fresh store. *)
      let simulation := new_ArtifactStore in
      let hashes := map la_envelope_hash resolved_accepted in
      match forensic_loop simulation resolved_accepted with
      | Throw msg => (Throw msg, ledger)
      | Ret (Some (failure_class, failure_kind, details)) =>
          emit ledger emit_result false
            (buildReplayResult "forensic" trace_id hashes "fail"
               (Some failure_class) (Some failure_kind) now_ms details)
      | Ret None =>
          emit ledger emit_result true
            (buildReplayResult "forensic" trace_id hashes "pass"
               None None now_ms
               (JObj [("accepted_count",
                        JNum (number_of_Z (Z.of_nat (List.length resolved_accepted))));
                      ("rejected_attempts_observed",
                        JNum (number_of_Z (Z.of_nat (List.length resolved_rejected))))]))
      end
  end.

(* ---------------------------------------------------------------- *)
(** *** [JSON.stringify]

    Properties are written in insertion order and a property whose value
    is [undefined] is left out; [undefined] in an array and a non-finite
    number are written [null]. *)

Definition stringify_number (n : number) : string :=
  if Number_isFinite n
  then if Number_isSafeInteger n then String_of_number n else Number_toString n
  else "null".

Fixpoint JSON_stringify (v : value) : string :=
  match v with
  | JUndefined => "null"
  | JNull => "null"
  | JBool b => if b then "true" else "false"
  | JNum n => stringify_number n
  | JStr s => JSON_stringify_string s
  | JArr xs => ("[" ++ String.concat "," (map JSON_stringify xs) ++ "]")%string
  | JObj fs =>
      let member (kv : string * value) : list string :=
        if is_undefined (snd kv) then []
        else [(JSON_stringify_string (fst kv) ++ ":" ++ JSON_stringify (snd kv))%string] in
      ("{" ++ String.concat "," (flat_map member fs) ++ "}")%string
  end.

(* ---------------------------------------------------------------- *)
(** *** replay/constrained-replay.js *)

Definition keysSorted (obj : value) : list string :=
  match obj with
  | JObj fs => js_sort String.compare (Object_keys fs)
  | JArr xs =>
      js_sort String.compare
        (map (fun i => decimal (Z.of_nat i)) (seq 0 (List.length xs)))
  | _ => []
  end.

Definition policySignature (pdEnv : value) : value :=
  JObj [("policy_id", get (get pdEnv "policy") "policy_id");
        ("policy_version", get (get pdEnv "policy") "policy_version");
        ("policy_sha256", get (get pdEnv "policy") "policy_sha256");
        ("action", get (get pdEnv "request") "action");
        ("resource", get (get pdEnv "request") "resource");
        ("result", get (get pdEnv "decision") "result");
        ("reason_codes",
          JArr (map JStr (keysSorted (get (get pdEnv "decision") "reason_codes"))));
        ("obligations",
          JArr (map JStr (keysSorted (get (get pdEnv "decision") "obligations"))))].

Definition stableJson (x : value) : string := JSON_stringify x.

(** [null] is [None]. The envelope passed [validateEnvelope] in the
    invariant replay that precedes, so it is an object. *)
Definition evidenceIdentity (store : ArtifactStore) (env : value)
  : option string :=
  let rt := get env "record_type" in
  if negb (strict_eq rt (JStr "model_call")) && negb (strict_eq rt (JStr "tool_call"))
  then None
  else
    let pdSig :=
      match getAccepted store (get env "policy_decision_envelope_sha256") with
      | Some pd => policySignature (sa_envelope pd)
      | None => JNull
      end in
    if strict_eq rt (JStr "model_call") then
      Some (stableJson
              (JObj [("rt", rt);
                     ("model", JObj [("provider", get (get env "model") "provider");
                                     ("model", get (get env "model") "model")]);
                     ("request", get env "request");
                     ("policy", pdSig)]))
    else
      Some (stableJson
              (JObj [("rt", rt);
                     ("tool", JObj [("adapter_id", get (get env "tool") "adapter_id");
                                    ("tool_name", get (get env "tool") "tool_name")]);
                     ("request", get env "request");
                     ("policy", pdSig)])).

(** [a === b] on two values read from stored records: by identity on two
    objects and on two arrays, as [strict_eq] on the rest. *)
Definition identical (a b : value) : bool :=
  match a, b with
  | JObj _, JObj _ | JArr _, JArr _ => same_object a b
  | _, _ => strict_eq a b
  end.

Definition blobrefEquals (a b : value) : bool :=
  if identical a b then true
  else if negb (truthy a) || negb (truthy b) then false
  else identical (get a "sha256") (get b "sha256")
       && identical (get a "size_bytes") (get b "size_bytes")
       && identical (get a "content_type") (get b "content_type").

(** The map from evidence identity to artifact built by one of the two
    loops over [chain.evidence]. *)
Definition evidenceById (store : ArtifactStore)
    (evidence : list LedgerEnvelopeArtifact) : JsMap LedgerEnvelopeArtifact :=
  fold_left
    (fun m art =>
       match evidenceIdentity store (la_envelope art) with
       | Some id => if negb (String.eqb id EmptyString) then map_set id art m else m
       | None => m
       end)
    evidence [].

(** [args.replay_policy?.allow_variance?.<kind>?.allow_response_blobref === true] *)
Definition allow_response_blobref (replay_policy : value) (kind : string) : bool :=
  strict_eq
    (get (get (get replay_policy "allow_variance") kind) "allow_response_blobref")
    (JBool true).

Definition variance_allowed (replay_policy : value) (rt : string) : bool :=
  if String.eqb rt "model_call"
  then allow_response_blobref replay_policy "model_call"
  else allow_response_blobref replay_policy "tool_call".

(** The loop over the matched evidence identities: the failure class of
    the first unapproved difference, if any, and the approved differences
    pushed so far. *)
Fixpoint variance_loop (replay_policy : value)
    (baseEvidenceById candEvidenceById : JsMap LedgerEnvelopeArtifact)
    (ids : list string) (allowed : list AllowedDifference)
  : option string * list AllowedDifference :=
  match ids with
  | [] => (None, allowed)
  | id :: rest =>
      match map_get id baseEvidenceById, map_get id candEvidenceById with
      | Some b, Some c =>
          let rt := la_record_type b in
          let bResp := get (la_envelope b) "response" in
          let cResp := get (la_envelope c) "response" in
          if negb (blobrefEquals bResp cResp) then
            if negb (variance_allowed replay_policy rt)
            then (Some ReplayFailure.VARIANCE_VIOLATION, allowed)
            else variance_loop replay_policy baseEvidenceById candEvidenceById rest
                   (allowed ++
                    [mkAllowedDifference rt (la_envelope_hash b) (la_envelope_hash c)
                       (rt ++ ".response BlobRef allowed to vary")%string])
          else variance_loop replay_policy baseEvidenceById candEvidenceById rest allowed
      | _, _ => variance_loop replay_policy baseEvidenceById candEvidenceById rest allowed
      end
  end.

Definition finalize_constrained (store : ArtifactStore) (record : ReplayRecord)
    (diagnostics : Diagnostics) (persist : bool)
  : outcome ConstrainedOutput * ArtifactStore :=
  if persist then
    match persistReplayResult store (record_value record) with
    | (Throw msg, store') => (Throw msg, store')
    | (Ret (sha, _), store') =>
        (Ret (mkConstrainedOutput record diagnostics (Some sha)), store')
    end
  else (Ret (mkConstrainedOutput record diagnostics None), store).

Definition policyPath (chain : ResolvedTraceChain) : list value :=
  js_sort (fun a b => localeCompare (stableJson a) (stableJson b))
    (map (fun x => policySignature (la_envelope x)) (rc_policy_decision chain)).

(** The element-wise comparison loop over two policy paths of equal
    length. *)
Fixpoint paths_differ (basePath candPath : list value) : bool :=
  match basePath, candPath with
  | b :: bs, c :: cs =>
      if negb (String.eqb (stableJson b) (stableJson c)) then true
      else paths_differ bs cs
  | _, _ => false
  end.

(** [constrainedReplay(store, args)]; [clock_iso] is [isoTime(args.clock)]. *)
Definition constrainedReplay (store : ArtifactStore)
    (baseline_trace_id candidate_trace_id : string) (replay_policy : value)
    (persist_result : bool) (clock_iso : string)
  : outcome ConstrainedOutput * ArtifactStore :=
  let baseline := resolveTraceChain store baseline_trace_id false in
  let candidate := resolveTraceChain store candidate_trace_id false in
  let record := mkReplayRecord "constrained" candidate_trace_id [] "fail"
                  clock_iso (Some baseline_trace_id) None in
  let diagnostics := mkDiagnostics [] None None in
  match baseline, candidate with
  | Some baseline, Some candidate =>
      let record :=
        with_hashes record
          (map la_envelope_hash (rc_ordered baseline)
           ++ map la_envelope_hash (rc_ordered candidate)) in
      (* 1) Both traces must satisfy invariant replay. *)
      match invariantReplay store baseline_trace_id false false "1970-01-01T00:00:00.000Z" with
      | (Throw msg, _) => (Throw msg, store)
      | (Ret invBase, _) =>
      if negb (String.eqb (rp_result (ro_record invBase)) "pass") then
        finalize_constrained store
          (mkReplayRecord (rp_replay_type record) (rp_target_trace_id record)
             (rp_input_envelope_hashes record) (rp_result record)
             (rp_generated_at record) (rp_reference_trace_id record)
             (rp_failure_class (ro_record invBase)))
          diagnostics persist_result
      else
      match invariantReplay store candidate_trace_id false false "1970-01-01T00:00:00.000Z" with
      | (Throw msg, _) => (Throw msg, store)
      | (Ret invCand, _) =>
      if negb (String.eqb (rp_result (ro_record invCand)) "pass") then
        finalize_constrained store
          (mkReplayRecord (rp_replay_type record) (rp_target_trace_id record)
             (rp_input_envelope_hashes record) (rp_result record)
             (rp_generated_at record) (rp_reference_trace_id record)
             (rp_failure_class (ro_record invCand)))
          diagnostics persist_result
      else
      (* 2) Policy-path equivalence. *)
      let basePath := policyPath baseline in
      let candPath := policyPath candidate in
      let diagnostics := mkDiagnostics [] (Some basePath) (Some candPath) in
      if negb (List.length basePath =? List.length candPath)%nat then
        finalize_constrained store
          (with_failure record ReplayFailure.POLICY_PATH_MISMATCH)
          diagnostics persist_result
      else if paths_differ basePath candPath then
        finalize_constrained store
          (with_failure record ReplayFailure.POLICY_PATH_MISMATCH)
          diagnostics persist_result
      else
      (* 3) Evidence identity and allowed variance enforcement. *)
      let baseEvidenceById := evidenceById store (rc_evidence baseline) in
      let candEvidenceById := evidenceById store (rc_evidence candidate) in
      let baseIds := js_sort String.compare (map_keys baseEvidenceById) in
      let candIds := js_sort String.compare (map_keys candEvidenceById) in
      if negb (String.eqb (stableJson (JArr (map JStr baseIds)))
                          (stableJson (JArr (map JStr candIds)))) then
        finalize_constrained store
          (with_failure record ReplayFailure.POLICY_PATH_MISMATCH)
          diagnostics persist_result
      else
      match variance_loop replay_policy baseEvidenceById candEvidenceById baseIds [] with
      | (Some failure_class, allowed) =>
          finalize_constrained store (with_failure record failure_class)
            (mkDiagnostics allowed (Some basePath) (Some candPath)) persist_result
      | (None, allowed) =>
          finalize_constrained store (with_result record "pass")
            (mkDiagnostics allowed (Some basePath) (Some candPath)) persist_result
      end
      end end
  | _, _ =>
      finalize_constrained store
        (with_failure record ReplayFailure.CHAIN_NOT_FOUND)
        diagnostics persist_result
  end.

(* ---------------------------------------------------------------- *)
(** *** Histories of calls *)

(** The store after a sequence of [commit_action] calls, each given as
    (record type, declared hash, envelope). *)
Definition commit_all (store : ArtifactStore)
    (calls : list (string * string * value)) : ArtifactStore :=
  fold_left
    (fun s c => snd (commit_action s (fst (fst c)) (snd (fst c)) (snd c)))
    calls store.

(** A call that can change a ledger: a commit at the gate, or the emission
    of a replay result by either persistence path. *)
Inductive LedgerCall : Type :=
| call_commit (record_type declared_envelope_hash : string) (envelope : value)
| call_persist (result : value)
| call_persist_ledger (result : value).

Definition apply_call (ledger : Ledger) (c : LedgerCall) : Ledger :=
  match c with
  | call_commit rt declared envelope =>
      mkLedger (snd (commit_action ledger rt declared envelope))
        (replay_results ledger)
  | call_persist result =>
      mkLedger (snd (persistReplayResult ledger result)) (replay_results ledger)
  | call_persist_ledger result =>
      snd (persistReplayResult_ledger ledger result)
  end.

Definition run_calls (ledger : Ledger) (calls : list LedgerCall) : Ledger :=
  fold_left apply_call calls ledger.

(* ---------------------------------------------------------------- *)
(** *** Vocabulary of the properties *)


(** The artifact belongs to trace [trace_id]: its trace identifier is that
    non-empty string. *)
Definition has_trace_id (trace_id : string) (x : LedgerEnvelopeArtifact) : bool :=
  match getTraceId (la_envelope x) with
  | JStr tid => negb (String.length tid =? 0)%nat && String.eqb tid trace_id
  | _ => false
  end.

(** The view of every stored artifact, accepted ones first. *)
Definition ledger_artifacts (store : ArtifactStore) (include_rejected_attempts : bool)
  : list LedgerEnvelopeArtifact :=
  map accepted_artifact (accepted store)
  ++ (if include_rejected_attempts
      then map rejected_artifact (rejected_attempts store)
      else []).

Definition trace_artifacts (store : ArtifactStore) (trace_id : string)
    (include_rejected_attempts : bool) : list LedgerEnvelopeArtifact :=
  filter (has_trace_id trace_id) (ledger_artifacts store include_rejected_attempts).










(** [isoTime(new Date(0))], the clock of a replay run that is given none. *)
Definition epoch_iso : string := "1970-01-01T00:00:00.000Z".


Definition chain_of (store : ArtifactStore) (trace_id : string) : ResolvedTraceChain :=
  match resolveTraceChain store trace_id false with
  | Some chain => chain
  | None => mkResolvedTraceChain trace_id [] [] [] []
  end.





(** The pair of artifacts matched under one evidence identity, if both sides
    have one. *)
Definition matched_pair (baseEvidenceById candEvidenceById : JsMap LedgerEnvelopeArtifact)
    (id : string) : list (LedgerEnvelopeArtifact * LedgerEnvelopeArtifact) :=
  match map_get id baseEvidenceById, map_get id candEvidenceById with
  | Some b, Some c => [(b, c)]
  | _, _ => []
  end.


(** What the variance loop tests on a matched pair: [!respEqual] and
    [allow]. *)
Definition response_differs (p : LedgerEnvelopeArtifact * LedgerEnvelopeArtifact) : bool :=
  negb (blobrefEquals (get (la_envelope (fst p)) "response")
                      (get (la_envelope (snd p)) "response")).

Definition approved (replay_policy : value)
    (p : LedgerEnvelopeArtifact * LedgerEnvelopeArtifact) : bool :=
  variance_allowed replay_policy (la_record_type (fst p)).












(** The diagnostics entry of an approved difference. *)
Definition allowed_difference (p : LedgerEnvelopeArtifact * LedgerEnvelopeArtifact)
  : AllowedDifference :=
  mkAllowedDifference (la_record_type (fst p)) (la_envelope_hash (fst p))
    (la_envelope_hash (snd p))
    (la_record_type (fst p) ++ ".response BlobRef allowed to vary")%string.

(** An envelope entry stored under [h] is the record whose canonical form
    hashes to [h]. *)
Definition addressed_by_content (h envelope_hash : string) (envelope : value)
    (canonical_json : string) : Prop :=
  envelope_hash = h
  /\ canonicalizeEnvelope envelope = Ret canonical_json
  /\ sha256 canonical_json = h.

Definition bucket (store : ArtifactStore) : JsMap OtherArtifact :=
  match other_artifacts store with
  | Some m => m
  | None => []
  end.

(** Every namespace of the ledger is a map from hash to one entry, and each
    entry is stored under the hash of its own canonical form. *)
Definition content_addressed (ledger : Ledger) : Prop :=
  (NoDup (map_keys (accepted ledger))
   /\ forall h a, In (h, a) (accepted ledger) ->
        addressed_by_content h (sa_envelope_hash a) (sa_envelope a) (sa_canonical_json a))
  /\ (NoDup (map_keys (rejected_attempts ledger))
      /\ forall h a, In (h, a) (rejected_attempts ledger) ->
           addressed_by_content h (ra_envelope_hash a) (ra_envelope a)
             (ra_canonical_json a))
  /\ (NoDup (map_keys (bucket ledger))
      /\ forall h a, In (h, a) (bucket ledger) ->
           addressed_by_content h (oa_artifact_sha256 a) (oa_artifact a)
             (oa_canonical_json a))
  /\ (NoDup (map_keys (replay_results ledger))
      /\ forall h a, In (h, a) (replay_results ledger) ->
           addressed_by_content h (rr_artifact_hash a) (rr_artifact a)
             (rr_canonical_json a)).


(** No two records submitted in [calls] that differ as JSON data have the
    same envelope hash. *)
Definition collision_free (calls : list (string * string * value)) : bool :=
  forallb
    (fun c1 =>
       forallb
         (fun c2 =>
            match hashEnvelope (snd c1), hashEnvelope (snd c2) with
            | Ret h1, Ret h2 =>
                implb (String.eqb h1 h2) (json_eqb (snd c1) (snd c2))
            | _, _ => true
            end)
         calls)
    calls.

(** The accepted namespace holds a record whose [trace.trace_id] is
    [trace_id]. *)
Definition has_accepted_record (store : ArtifactStore) (trace_id : string) : bool :=
  existsb
    (fun entry => strict_eq (getTraceId (sa_envelope (snd entry))) (JStr trace_id))
    (accepted store).
(* ================================================================ *)
(** ** More of the sources *)

(** *** Canonical values *)

(** No [undefined] anywhere in the value, and every number a safe integer. *)
Fixpoint canonicalizable (v : value) : bool :=
  match v with
  | JUndefined => false
  | JNull | JBool _ | JStr _ => true
  | JNum n => Number_isSafeInteger n
  | JArr xs => forallb canonicalizable xs
  | JObj fs => forallb (fun kv => canonicalizable (snd kv)) fs
  end.

(** Equality of JSON data as canonicalization sees it: the same shape, the
    same strings and booleans, numbers of the same integer value (the two
    zeros are one integer), arrays equal item by item, objects with the same
    keys and equal values under each key. *)
Inductive same_data : value -> value -> Prop :=
| sd_null : same_data JNull JNull
| sd_bool b : same_data (JBool b) (JBool b)
| sd_num x y z :
    integer_value x = Some z -> integer_value y = Some z ->
    same_data (JNum x) (JNum y)
| sd_str s : same_data (JStr s) (JStr s)
| sd_arr xs ys : Forall2 same_data xs ys -> same_data (JArr xs) (JArr ys)
| sd_obj fa fb :
    (forall k, assoc k fa = None <-> assoc k fb = None) ->
    (forall k x y, assoc k fa = Some x -> assoc k fb = Some y -> same_data x y) ->
    same_data (JObj fa) (JObj fb).

(** *** What invariant replay checks *)

(** What the second loop of the replay engines asks of an artifact of trace
    [trace_id]: the hash a policy decision gives as its authorization
    context is that of an accepted artifact of the trace; the two hashes a
    model or tool call gives as its authorization context and its policy
    decision are those of accepted artifacts of the trace, and the
    [decision.result] of the second is "allow". The loop looks the hashes up
    in the accepted namespace and reads the envelopes it finds; under which
    record type they are stored is not asked. *)
Definition prerequisites_hold (store : ArtifactStore) (trace_id : string)
    (x : LedgerEnvelopeArtifact) : Prop :=
  (la_record_type x = "policy_decision" ->
   exists auth,
     getAccepted store (get (la_envelope x) "auth_context_envelope_sha256") = Some auth
     /\ traceIdOf (sa_envelope auth) = JStr trace_id)
  /\ (la_record_type x = "model_call" \/ la_record_type x = "tool_call" ->
      exists auth pd,
        getAccepted store (get (la_envelope x) "auth_context_envelope_sha256") = Some auth
        /\ getAccepted store (get (la_envelope x) "policy_decision_envelope_sha256")
           = Some pd
        /\ traceIdOf (sa_envelope auth) = JStr trace_id
        /\ traceIdOf (sa_envelope pd) = JStr trace_id
        /\ get (get (sa_envelope pd) "decision") "result" = JStr "allow").

(** The verdict of the two loops over a resolved chain. *)
Definition chain_verdict (store : ArtifactStore) (chain : ResolvedTraceChain)
  : outcome (option string) :=
  match integrity_loop (rc_ordered chain) with
  | Throw msg => Throw msg
  | Ret (Some failure_class) => Ret (Some failure_class)
  | Ret None => Ret (governance_loop store (rc_ordered chain))
  end.

(** *** replay/ledger.js: reading a replay result back *)

(** replay/ledger.js: [getReplayResult(artifact_hash)] *)
Definition getReplayResult (ledger : Ledger) (artifact_hash : string)
  : option ReplayResultEntry :=
  map_get artifact_hash (replay_results ledger).

(** *** replay/forensic-replay.js: forensic replay over a store *)

(** First loop of [forensicReplay(store, trace_id, opts)]: schema, canonical
    bytes and hash integrity of each artifact, stopping at the first
    failure. *)
Fixpoint forensic_integrity_loop (chain : list LedgerEnvelopeArtifact)
  : outcome (option string) :=
  match chain with
  | [] => Ret None
  | art :: rest =>
      let v := validateEnvelope (la_envelope art) in
      if negb (v_ok v) then Ret (Some ReplayFailure.SCHEMA_REJECT)
      else
        canonical <- canonicalizeEnvelope (la_envelope art) ;;
        if negb (String.eqb canonical (la_canonical_json art))
        then Ret (Some ReplayFailure.HASH_MISMATCH)
        else
          h <- hashEnvelope (la_envelope art) ;;
          if negb (String.eqb h (la_envelope_hash art))
          then Ret (Some ReplayFailure.HASH_MISMATCH)
          else forensic_integrity_loop rest
  end.

(** [forensicReplay(store, trace_id, opts)] of replay/forensic-replay.js;
    [clock_iso] is [isoTime(opts.clock)]. Its second loop (prerequisites,
    trace continuity, authorization) is the second loop of invariant
    replay, statement for statement. *)
Definition store_forensicReplay (store : ArtifactStore) (trace_id : string)
    (include_rejected_attempts persist_result : bool) (clock_iso : string)
  : outcome ReplayOutput * ArtifactStore :=
  let chain := resolveTraceChain store trace_id include_rejected_attempts in
  let record := mkReplayRecord "forensic" trace_id [] "fail" clock_iso None None in
  match chain with
  | None =>
      finalize store (with_failure record ReplayFailure.CHAIN_NOT_FOUND)
        persist_result
  | Some chain =>
      let record := with_hashes record (map la_envelope_hash (rc_ordered chain)) in
      match forensic_integrity_loop (rc_ordered chain) with
      | Throw msg => (Throw msg, store)
      | Ret (Some failure_class) =>
          finalize store (with_failure record failure_class) persist_result
      | Ret None =>
          match governance_loop store (rc_ordered chain) with
          | Some failure_class =>
              finalize store (with_failure record failure_class) persist_result
          | None => finalize store (with_result record "pass") persist_result
          end
      end
  end.

(** *** replay/invariant.js: invariant replay over a ledger *)

(** [firstFailure(ref, failure_class, failure_kind, extra)] *)
Definition firstFailure (ref : LedgerEnvelopeArtifact)
    (failure_class failure_kind : string) (extra : list (string * value)) : value :=
  JObj ([("classification", JStr failure_class);
         ("failure_kind", JStr failure_kind);
         ("at", JObj [("status", status_value ref);
                      ("record_type", JStr (la_record_type ref));
                      ("envelope_hash", JStr (la_envelope_hash ref))])]
        ++ extra).

(** The loop of the envelope-level invariants: the first failure as
    (class, kind, details), or [None]. *)
Fixpoint envelope_invariants (trace_id : string) (refs : list LedgerEnvelopeArtifact)
  : outcome (option (string * string * value)) :=
  match refs with
  | [] => Ret None
  | ref :: rest =>
      let v := validateEnvelope (la_envelope ref) in
      if negb (v_ok v) then
        Ret (Some (FailureClass.SCHEMA_REJECT, "replay.schema_reject",
                   firstFailure ref FailureClass.SCHEMA_REJECT "replay.schema_reject"
                     [("schema_errors", JArr (v_errors v))]))
      else
      (* All artifacts in a trace replay must have the requested trace_id. *)
      if negb (strict_eq (traceIdOf (la_envelope ref)) (JStr trace_id)) then
        Ret (Some (FailureClass.TRACE_VIOLATION, "replay.trace_id_mismatch",
                   firstFailure ref FailureClass.TRACE_VIOLATION
                     "replay.trace_id_mismatch" []))
      else
      recomputed <- hashEnvelope (la_envelope ref) ;;
      if negb (String.eqb recomputed (la_envelope_hash ref)) then
        Ret (Some (FailureClass.HASH_MISMATCH, "replay.hash_integrity_mismatch",
                   firstFailure ref FailureClass.HASH_MISMATCH
                     "replay.hash_integrity_mismatch"
                     [("expected_envelope_hash", JStr (la_envelope_hash ref));
                      ("recomputed_envelope_hash", JStr recomputed)]))
      else envelope_invariants trace_id rest
  end.

(** The body of the loop of the chain-level invariants for one artifact:
    the block for policy decisions, then the block for model and tool
    calls. Every envelope reached here passed [validateEnvelope], so it is
    an object. *)
Definition chain_invariants_of (ledger : Ledger) (trace_id : string)
    (ref : LedgerEnvelopeArtifact) : option (string * string * value) :=
  let e := la_envelope ref in
  let policy_block :=
    if String.eqb (la_record_type ref) "policy_decision" then
      let authHash := get e "auth_context_envelope_sha256" in
      match getAccepted ledger authHash with
      | None =>
          Some (FailureClass.MISSING_PREREQ, "missing_prereq.auth_context",
                firstFailure ref FailureClass.MISSING_PREREQ
                  "missing_prereq.auth_context" [("missing", authHash)])
      | Some auth =>
          if negb (strict_eq (traceIdOf (sa_envelope auth)) (JStr trace_id)) then
            Some (FailureClass.TRACE_VIOLATION, "trace_violation.trace_id_mismatch",
                  firstFailure ref FailureClass.TRACE_VIOLATION
                    "trace_violation.trace_id_mismatch" [])
          else None
      end
    else None in
  match policy_block with
  | Some failure => Some failure
  | None =>
      if String.eqb (la_record_type ref) "model_call"
         || String.eqb (la_record_type ref) "tool_call" then
        let authHash := get e "auth_context_envelope_sha256" in
        let policyHash := get e "policy_decision_envelope_sha256" in
        match getAccepted ledger authHash with
        | None =>
            Some (FailureClass.MISSING_PREREQ, "missing_prereq.auth_context",
                  firstFailure ref FailureClass.MISSING_PREREQ
                    "missing_prereq.auth_context" [("missing", authHash)])
        | Some auth =>
            match getAccepted ledger policyHash with
            | None =>
                Some (FailureClass.MISSING_PREREQ, "missing_prereq.policy_decision",
                      firstFailure ref FailureClass.MISSING_PREREQ
                        "missing_prereq.policy_decision" [("missing", policyHash)])
            | Some policy =>
                if negb (strict_eq (traceIdOf (sa_envelope auth)) (JStr trace_id))
                   || negb (strict_eq (traceIdOf (sa_envelope policy)) (JStr trace_id))
                then
                  Some (FailureClass.TRACE_VIOLATION,
                        "trace_violation.trace_id_mismatch",
                        firstFailure ref FailureClass.TRACE_VIOLATION
                          "trace_violation.trace_id_mismatch" [])
                else
                  let decision := get (get (sa_envelope policy) "decision") "result" in
                  if negb (strict_eq decision (JStr "allow")) then
                    Some (FailureClass.UNAUTHORIZED_EXECUTION,
                          "unauthorized_execution.policy_denied",
                          firstFailure ref FailureClass.UNAUTHORIZED_EXECUTION
                            "unauthorized_execution.policy_denied" [])
                  else None
            end
        end
      else None
  end.

Fixpoint chain_invariants (ledger : Ledger) (trace_id : string)
    (refs : list LedgerEnvelopeArtifact) : option (string * string * value) :=
  match refs with
  | [] => None
  | ref :: rest =>
      match chain_invariants_of ledger trace_id ref with
      | Some failure => Some failure
      | None => chain_invariants ledger trace_id rest
      end
  end.

(** [invariantReplay({ledger, trace_id, emit_result})] of
    replay/invariant.js; [now_ms] is what [Date.now()] returns. The index
    is the one forensic replay over a ledger uses. *)
Definition ledger_invariantReplay (ledger : Ledger) (trace_id : string)
    (emit_result : bool) (now_ms : number) : outcome ForensicOutput * Ledger :=
  let (resolved_accepted, resolved_rejected) := ReplayIndex_resolve ledger trace_id in
  match resolved_accepted with
  | [] =>
      emit ledger emit_result false
        (buildReplayResult "invariant" trace_id [] "fail"
           (Some "REPLAY_NOT_FOUND") (Some "replay.not_found") now_ms (JObj []))
  | _ =>
      let hashes := map la_envelope_hash resolved_accepted in
      match envelope_invariants trace_id resolved_accepted with
      | Throw msg => (Throw msg, ledger)
      | Ret (Some (failure_class, failure_kind, details)) =>
          emit ledger emit_result false
            (buildReplayResult "invariant" trace_id hashes "fail"
               (Some failure_class) (Some failure_kind) now_ms details)
      | Ret None =>
          match chain_invariants ledger trace_id resolved_accepted with
          | Some (failure_class, failure_kind, details) =>
              emit ledger emit_result false
                (buildReplayResult "invariant" trace_id hashes "fail"
                   (Some failure_class) (Some failure_kind) now_ms details)
          | None =>
              emit ledger emit_result true
                (buildReplayResult "invariant" trace_id hashes "pass"
                   None None now_ms
                   (JObj [("accepted_count",
                            JNum (number_of_Z (Z.of_nat (List.length resolved_accepted))));
                          ("rejected_attempts_observed",
                            JNum (number_of_Z
                                    (Z.of_nat (List.length resolved_rejected))))]))
          end
      end
  end.

(** The shape shared by the results of the two replay engines over a
    ledger. *)
Definition ledger_result_shape (replay_type trace_id : string) (now_ms : number)
    (hashes : list string) (emit_result : bool) (out : ForensicOutput) : Prop :=
  let r := fo_replay_result out in
  lr_replay_type r = replay_type
  /\ lr_target_trace_id r = trace_id
  /\ lr_generated_at_ms r = now_ms
  /\ lr_input_envelope_hashes r = hashes
  /\ (fo_ok out = true <-> lr_result r = "pass")
  /\ (lr_result r = "pass" /\ lr_failure_class r = None /\ lr_failure_kind r = None
      \/ lr_result r = "fail"
         /\ exists c k, lr_failure_class r = Some c /\ lr_failure_kind r = Some k)
  /\ (hashes = [] -> lr_failure_class r = Some "REPLAY_NOT_FOUND")
  /\ (fo_result_artifact out = None <-> emit_result = false).

(* ================================================================ *)
(** *** Facts about the model *)

(** ** Association lists and maps *)

Lemma assoc_In {V : Type} (k : string) (l : list (string * V)) (v : V) :
  assoc k l = Some v -> In (k, v) l.
Proof.
  induction l as [|[k' v'] l IH]; simpl; [discriminate|].
  destruct (String.eqb_spec k k') as [->|Hne].
  - intros [= ->]. now left.
  - intros H. right. now apply IH.
Qed.

Lemma assoc_None_iff {V : Type} (k : string) (l : list (string * V)) :
  assoc k l = None <-> ~ In k (map fst l).
Proof.
  induction l as [|[k' v'] l IH]; simpl.
  - split; [intros _ []|reflexivity].
  - destruct (String.eqb_spec k k') as [->|Hne].
    + split; [discriminate|]. intros H. exfalso. apply H. now left.
    + rewrite IH. split.
      * intros H [E|E]; [now apply Hne|now apply H].
      * intros H E. apply H. now right.
Qed.

Lemma assoc_NoDup_In {V : Type} (k : string) (v : V) (l : list (string * V)) :
  NoDup (map fst l) -> In (k, v) l -> assoc k l = Some v.
Proof.
  induction l as [|[k' v'] l IH]; simpl; [intros _ []|].
  intros Hnd [E|E].
  - injection E as -> ->. now rewrite String.eqb_refl.
  - inversion Hnd as [|? ? Hnot Hnd']; subst.
    destruct (String.eqb_spec k k') as [->|Hne].
    + exfalso. apply Hnot. change k' with (fst (k', v)). now apply in_map.
    + now apply IH.
Qed.

Lemma assoc_map_snd {V W : Type} (f : V -> W) (k : string) (l : list (string * V)) :
  assoc k (map (fun kv => (fst kv, f (snd kv))) l) = option_map f (assoc k l).
Proof.
  induction l as [|[k' v'] l IH]; simpl; [reflexivity|].
  now destruct (String.eqb k k').
Qed.

Lemma map_get_set_same {V : Type} (k : string) (v : V) (m : JsMap V) :
  map_get k (map_set k v m) = Some v.
Proof.
  unfold map_get. induction m as [|[k' v'] m IH]; simpl.
  - now rewrite String.eqb_refl.
  - destruct (String.eqb_spec k k') as [->|Hne]; simpl.
    + now rewrite String.eqb_refl.
    + destruct (String.eqb_spec k k'); [contradiction|exact IH].
Qed.

Lemma map_get_set_other {V : Type} (k k' : string) (v : V) (m : JsMap V) :
  k' <> k -> map_get k' (map_set k v m) = map_get k' m.
Proof.
  unfold map_get. intros Hne. induction m as [|[k0 v0] m IH]; simpl.
  - destruct (String.eqb_spec k' k); [contradiction|reflexivity].
  - destruct (String.eqb_spec k k0) as [->|Hne0]; simpl.
    + destruct (String.eqb_spec k' k0); [contradiction|reflexivity].
    + destruct (String.eqb k' k0); [reflexivity|exact IH].
Qed.

Lemma map_set_keys_In {V : Type} (k k' : string) (v : V) (m : JsMap V) :
  In k' (map_keys (map_set k v m)) <-> k' = k \/ In k' (map_keys m).
Proof.
  clear sha256 ajv_validate localeCompare Number_toString same_object.
  unfold map_keys. induction m as [|[k0 v0] m IH]; simpl.
  - intuition.
  - destruct (String.eqb_spec k k0) as [->|Hne]; simpl.
    + intuition.
    + rewrite IH. intuition.
Qed.

Lemma map_set_NoDup {V : Type} (k : string) (v : V) (m : JsMap V) :
  NoDup (map_keys m) -> NoDup (map_keys (map_set k v m)).
Proof.
  unfold map_keys. induction m as [|[k0 v0] m IH]; simpl; intros Hnd.
  - constructor; [intros []|constructor].
  - inversion Hnd as [|? ? Hnot Hnd']; subst.
    destruct (String.eqb_spec k k0) as [->|Hne]; simpl.
    + now constructor.
    + constructor; [|now apply IH].
      intros Hin. apply (map_set_keys_In k k0 v m) in Hin.
      destruct Hin as [E|Hin]; [now apply Hne|now apply Hnot].
Qed.

Lemma map_get_In {V : Type} (k : string) (v : V) (m : JsMap V) :
  map_get k m = Some v -> In (k, v) m.
Proof. apply assoc_In. Qed.

(** ** Sorting *)

Section SortFacts.
Context {A : Type}.
Variable cmp : A -> A -> comparison.

Definition cmp_le (x y : A) : Prop := cmp x y <> Gt.

Lemma sort_insert_perm (x : A) (l : list A) :
  Permutation (x :: l) (sort_insert cmp x l).
Proof.
  induction l as [|y l IH]; simpl; [reflexivity|].
  destruct (cmp x y); try reflexivity.
  rewrite perm_swap. now constructor.
Qed.

Lemma js_sort_perm (l : list A) : Permutation l (js_sort cmp l).
Proof.
  induction l as [|x l IH]; simpl; [constructor|].
  rewrite <- sort_insert_perm. now constructor.
Qed.

Variable P : A -> Prop.
Hypothesis cmp_total : forall x y, P x -> P y -> cmp x y = Gt -> cmp_le y x.
Hypothesis cmp_trans :
  forall x y z, P x -> P y -> P z -> cmp_le x y -> cmp_le y z -> cmp_le x z.

Lemma sort_insert_sorted (x : A) (l : list A) :
  P x -> Forall P l -> StronglySorted cmp_le l ->
  StronglySorted cmp_le (sort_insert cmp x l).
Proof.
  intros Px Pl Hs. induction Hs as [|y l Hs IH Hy]; simpl.
  - constructor; constructor.
  - inversion Pl as [|? ? Py Pl']; subst.
    assert (Hcons : StronglySorted cmp_le (y :: l)) by now constructor.
    destruct (cmp x y) eqn:E.
    + constructor; [exact Hcons|]. constructor.
      * unfold cmp_le. now rewrite E.
      * rewrite Forall_forall in *. intros z Hz.
        apply (cmp_trans x y z); auto.
        unfold cmp_le. now rewrite E.
    + constructor; [exact Hcons|]. constructor.
      * unfold cmp_le. now rewrite E.
      * rewrite Forall_forall in *. intros z Hz.
        apply (cmp_trans x y z); auto.
        unfold cmp_le. now rewrite E.
    + constructor; [now apply IH|].
      rewrite Forall_forall. intros z Hz.
      apply (Permutation_in z (Permutation_sym (sort_insert_perm x l))) in Hz.
      destruct Hz as [<-|Hz].
      * now apply cmp_total.
      * rewrite Forall_forall in Hy. now apply Hy.
Qed.

Lemma js_sort_sorted (l : list A) :
  Forall P l -> StronglySorted cmp_le (js_sort cmp l).
Proof.
  induction l as [|x l IH]; simpl; intros Pl; [constructor|].
  inversion Pl as [|? ? Px Pl']; subst.
  apply sort_insert_sorted; auto.
  rewrite Forall_forall in *. intros z Hz. apply Pl'.
  now apply (Permutation_in z (Permutation_sym (js_sort_perm l))).
Qed.

Hypothesis cmp_antisym : forall x y, P x -> P y -> cmp_le x y -> cmp_le y x -> x = y.

Lemma sorted_permutation_unique (l1 l2 : list A) :
  Forall P l1 ->
  StronglySorted cmp_le l1 -> StronglySorted cmp_le l2 ->
  Permutation l1 l2 -> l1 = l2.
Proof.
  revert l2. induction l1 as [|a l1 IH]; intros l2 Pl S1 S2 Hp.
  - now apply Permutation_nil in Hp.
  - destruct l2 as [|b l2].
    + apply Permutation_sym, Permutation_nil in Hp. discriminate.
    + inversion S1 as [|? ? S1' Ha]; subst.
      inversion S2 as [|? ? S2' Hb]; subst.
      inversion Pl as [|? ? Pa Pl1]; subst.
      assert (Pl2 : Forall P (b :: l2)).
      { rewrite Forall_forall in *. intros z Hz. apply Pl.
        now apply (Permutation_in z (Permutation_sym Hp)). }
      inversion Pl2 as [|? ? Pb Pl2']; subst.
      assert (E : a = b).
      { assert (Hin1 : In a (b :: l2)) by (apply (Permutation_in a Hp); now left).
        assert (Hin2 : In b (a :: l1))
          by (apply (Permutation_in b (Permutation_sym Hp)); now left).
        destruct Hin1 as [E|Hin1]; [now symmetry|].
        destruct Hin2 as [E|Hin2]; [exact E|].
        rewrite Forall_forall in Ha, Hb.
        apply cmp_antisym; auto. }
      subst b. f_equal. apply IH; auto.
      now apply Permutation_cons_inv in Hp.
Qed.

Lemma js_sort_permutation (l1 l2 : list A) :
  Forall P l1 -> Permutation l1 l2 -> js_sort cmp l1 = js_sort cmp l2.
Proof.
  intros Pl Hp.
  assert (Pl2 : Forall P l2).
  { rewrite Forall_forall in *. intros z Hz. apply Pl.
    now apply (Permutation_in z (Permutation_sym Hp)). }
  apply sorted_permutation_unique.
  - rewrite Forall_forall in *. intros z Hz. apply Pl.
    now apply (Permutation_in z (Permutation_sym (js_sort_perm l1))).
  - now apply js_sort_sorted.
  - now apply js_sort_sorted.
  - rewrite <- (js_sort_perm l1), <- (js_sort_perm l2). exact Hp.
Qed.
End SortFacts.

(** ** Code-unit order on strings *)

Lemma ascii_compare_trans (a b c : ascii) (r : comparison) :
  Ascii.compare a b = r -> Ascii.compare b c = r -> Ascii.compare a c = r.
Proof.
  unfold Ascii.compare. destruct r; intros H1 H2.
  - apply N.compare_eq_iff in H1, H2. apply N.compare_eq_iff. congruence.
  - rewrite N.compare_lt_iff in *. lia.
  - rewrite N.compare_gt_iff in *. lia.
Qed.

Lemma string_compare_lt_trans (s1 s2 s3 : string) :
  String.compare s1 s2 = Lt -> String.compare s2 s3 = Lt -> String.compare s1 s3 = Lt.
Proof.
  revert s2 s3. induction s1 as [|a s1 IH]; intros [|b s2] [|c s3]; simpl;
    try discriminate; try reflexivity.
  destruct (Ascii.compare a b) eqn:Eab; try discriminate;
  destruct (Ascii.compare b c) eqn:Ebc; try discriminate; intros H1 H2.
  - rewrite (ascii_compare_trans a b c Eq Eab Ebc). now apply (IH s2).
  - apply Ascii.compare_eq_iff in Eab. subst. now rewrite Ebc.
  - apply Ascii.compare_eq_iff in Ebc. subst. now rewrite Eab.
  - now rewrite (ascii_compare_trans a b c Lt Eab Ebc).
Qed.

Lemma string_compare_refl (s : string) : String.compare s s = Eq.
Proof.
  induction s as [|a s IH]; simpl; [reflexivity|].
  unfold Ascii.compare. now rewrite N.compare_refl.
Qed.

Lemma string_le_total (x y : string) :
  String.compare x y = Gt -> cmp_le String.compare y x.
Proof.
  unfold cmp_le. rewrite (String.compare_antisym y x).
  intros ->. discriminate.
Qed.

Lemma string_le_trans (x y z : string) :
  cmp_le String.compare x y -> cmp_le String.compare y z ->
  cmp_le String.compare x z.
Proof.
  unfold cmp_le. intros H1 H2.
  destruct (String.compare x y) eqn:E1; [| |congruence].
  - apply String.compare_eq_iff in E1. now subst.
  - destruct (String.compare y z) eqn:E2; [| |congruence].
    + apply String.compare_eq_iff in E2. subst. now rewrite E1.
    + now rewrite (string_compare_lt_trans x y z E1 E2).
Qed.

Lemma string_le_antisym (x y : string) :
  cmp_le String.compare x y -> cmp_le String.compare y x -> x = y.
Proof.
  unfold cmp_le. rewrite (String.compare_antisym y x).
  destruct (String.compare x y) eqn:E; simpl; intros H1 H2.
  - now apply String.compare_eq_iff.
  - congruence.
  - congruence.
Qed.

Lemma sort_strings_permutation (l1 l2 : list string) :
  Permutation l1 l2 -> js_sort String.compare l1 = js_sort String.compare l2.
Proof.
  apply (js_sort_permutation String.compare (fun _ => True)).
  - intros x y _ _. apply string_le_total.
  - intros x y z _ _ _. apply string_le_trans.
  - intros x y _ _. apply string_le_antisym.
  - apply Forall_forall. intros; exact I.
Qed.

(** ** Numbers *)

Lemma cond_Zopp_mul (s : bool) (a b : Z) : cond_Zopp s a * b = cond_Zopp s (a * b).
Proof. destruct s; simpl; lia. Qed.

Lemma cond_Zopp_inj (s : bool) (a b : Z) : cond_Zopp s a = cond_Zopp s b -> a = b.
Proof. destruct s; simpl; lia. Qed.

Lemma integer_value_spec (v : number) (z : Z) :
  integer_value v = Some z <-> denotes_integer v z.
Proof.
  destruct v as [s|s| |s m e]; simpl.
  - split; [intros [= <-]; reflexivity|intros ->; reflexivity].
  - split; [discriminate|intros []].
  - split; [discriminate|intros []].
  - destruct (Z.leb_spec 0 e) as [He|He].
    + split.
      * intros [= <-]. left. now split.
      * intros [[_ ->]|[Hneg _]]; [reflexivity|lia].
    + assert (Hpow : 0 < 2 ^ (- e)) by (apply Z.pow_pos_nonneg; lia).
      destruct (Z.eqb_spec (Z.pos m mod 2 ^ (- e)) 0) as [Hmod|Hmod].
      * split.
        -- intros [= <-]. right. split; [exact He|].
           rewrite cond_Zopp_mul. f_equal.
           rewrite Z.mul_comm. symmetry. apply Z_div_exact_full_2; lia.
        -- intros [[Hpos _]|[_ Hz]]; [lia|]. f_equal.
           apply (cond_Zopp_inj s).
           assert (Hm : Z.pos m = cond_Zopp s z * 2 ^ (- e)).
           { rewrite cond_Zopp_mul, Hz. destruct s; simpl; lia. }
           rewrite Hm, Z.div_mul by lia.
           destruct s; simpl; lia.
      * split; [discriminate|].
        intros [[Hpos _]|[_ Hz]]; [lia|]. exfalso. apply Hmod.
        assert (Hm : Z.pos m = cond_Zopp s z * 2 ^ (- e)).
        { rewrite cond_Zopp_mul, Hz. destruct s; simpl; lia. }
        rewrite Hm. apply Z.mod_mul. lia.
Qed.

Lemma denotes_integer_finite (v : number) (z : Z) :
  denotes_integer v z -> Number_isFinite v = true.
Proof. destruct v; simpl; intuition. Qed.

Lemma jcsSerialize_number (n : number) (s : string) :
  jcsSerialize (JNum n) = Ret s <->
  exists z, denotes_integer n z /\ Z.abs z <= MAX_SAFE_INTEGER /\ s = decimal z.
Proof.
  simpl. unfold Number_isInteger, Number_isSafeInteger, String_of_number.
  split.
  - destruct (Number_isFinite n); simpl; [|discriminate].
    destruct (integer_value n) as [z|] eqn:Ez; simpl; [|discriminate].
    destruct (Z.leb_spec (Z.abs z) MAX_SAFE_INTEGER) as [Hs|Hs]; simpl; [|discriminate].
    apply integer_value_spec in Ez.
    destruct (is_negative_zero n) eqn:Enz.
    + intros [= <-]. exists z. repeat split; auto.
      destruct n as [[]| | |]; try discriminate. simpl in Ez. now subst.
    + intros [= <-]. now exists z.
  - intros (z & Hz & Hs & ->).
    rewrite (denotes_integer_finite n z Hz). simpl.
    apply integer_value_spec in Hz as Ez. rewrite Ez. simpl.
    destruct (Z.leb_spec (Z.abs z) MAX_SAFE_INTEGER) as [_|Hn]; [simpl|lia].
    destruct (is_negative_zero n) eqn:Enz; [|reflexivity].
    destruct n as [[]| | |]; try discriminate. simpl in Hz. now subst.
Qed.

(** ** Order independence of the canonical form *)

Lemma map_pointwise {A B : Type} (f : A -> B) (xs ys : list A) :
  List.length xs = List.length ys ->
  (forall i x y, nth_error xs i = Some x -> nth_error ys i = Some y -> f x = f y) ->
  map f xs = map f ys.
Proof.
  revert ys. induction xs as [|x xs IH]; intros [|y ys]; simpl; try discriminate.
  - reflexivity.
  - intros [= Hlen] H. f_equal.
    + now apply (H 0%nat).
    + apply IH; [exact Hlen|]. intros i. apply (H (S i)).
Qed.

Lemma same_keys_permutation (fa fb : list (string * value)) :
  NoDup (map fst fa) -> NoDup (map fst fb) ->
  (forall k, assoc k fa = None <-> assoc k fb = None) ->
  Permutation (Object_keys fa) (Object_keys fb).
Proof.
  intros Ha Hb Hdom. apply NoDup_Permutation; auto.
  intros k. unfold Object_keys. split; intros Hin.
  - destruct (in_dec string_dec k (map fst fb)) as [|Hn]; [assumption|].
    apply assoc_None_iff in Hn. apply Hdom in Hn.
    apply assoc_None_iff in Hn. contradiction.
  - destruct (in_dec string_dec k (map fst fa)) as [|Hn]; [assumption|].
    apply assoc_None_iff in Hn. apply Hdom in Hn.
    apply assoc_None_iff in Hn. contradiction.
Qed.

Lemma jcsSerialize_json_eq (a b : value) :
  json_eq a b -> well_formed a -> well_formed b ->
  jcsSerialize a = jcsSerialize b.
Proof.
  induction 1 as [| | | | |xs ys Hlen _ IH|fa fb Hdom _ IH];
    intros Ha Hb; try reflexivity.
  - inversion Ha as [| | | | |? Hxs|]; subst.
    inversion Hb as [| | | | |? Hys|]; subst.
    assert (E : map jcsSerialize xs = map jcsSerialize ys).
    { apply map_pointwise; [exact Hlen|].
      intros i x y Hx Hy. apply (IH i); auto.
      - apply Hxs. eapply nth_error_In; eauto.
      - apply Hys. eapply nth_error_In; eauto. }
    simpl. now rewrite E.
  - inversion Ha as [| | | | | |? Hnda Hfa]; subst.
    inversion Hb as [| | | | | |? Hndb Hfb]; subst.
    simpl.
    rewrite (sort_strings_permutation _ _ (same_keys_permutation fa fb Hnda Hndb Hdom)).
    assert (E : forall k,
               jcs_member (map (fun kv => (fst kv, jcsSerialize (snd kv))) fa) k
               = jcs_member (map (fun kv => (fst kv, jcsSerialize (snd kv))) fb) k).
    { intros k. unfold jcs_member. rewrite !(assoc_map_snd jcsSerialize).
      destruct (assoc k fa) as [x|] eqn:Ex; destruct (assoc k fb) as [y|] eqn:Ey; simpl.
      - rewrite (IH k x y Ex Ey); [reflexivity| |].
        + apply (Hfa k). now apply assoc_In.
        + apply (Hfb k). now apply assoc_In.
      - apply Hdom in Ey. congruence.
      - apply Hdom in Ex. congruence.
      - reflexivity. }
    now rewrite (map_ext _ _ E).
Qed.

(* ================================================================ *)
(** *** Induction on values and the executable checkers *)

Lemma value_induction (P : value -> Prop) :
  P JUndefined -> P JNull -> (forall b, P (JBool b)) -> (forall n, P (JNum n)) ->
  (forall s, P (JStr s)) ->
  (forall xs, Forall P xs -> P (JArr xs)) ->
  (forall fs, Forall (fun kv => P (snd kv)) fs -> P (JObj fs)) ->
  forall v, P v.
Proof.
  intros Hu Hn Hb Hnum Hs Ha Ho.
  fix IH 1. intros [| |b|n|s|xs|fs].
  - exact Hu.
  - exact Hn.
  - apply Hb.
  - apply Hnum.
  - apply Hs.
  - apply Ha. induction xs as [|x xs IHxs]; constructor; [apply IH|exact IHxs].
  - apply Ho. induction fs as [|[k x] fs IHfs]; constructor; [apply IH|exact IHfs].
Qed.

Lemma distinct_NoDup (l : list string) : distinct l = true -> NoDup l.
Proof.
  induction l as [|x l IH]; simpl; intros H; [constructor|].
  apply andb_prop in H as [Hx Hl]. constructor; [|now apply IH].
  intros Hin. apply negb_true_iff in Hx.
  assert (E : existsb (String.eqb x) l = true).
  { apply existsb_exists. exists x. split; [exact Hin|apply String.eqb_refl]. }
  congruence.
Qed.

Lemma well_formedb_sound (v : value) : well_formedb v = true -> well_formed v.
Proof.
  induction v as [| | | | |xs IH|fs IH] using value_induction;
    simpl; intros H; try constructor.
  - intros x Hx. rewrite Forall_forall in IH. apply IH; [exact Hx|].
    rewrite forallb_forall in H. now apply H.
  - apply andb_prop in H as [H _]. now apply distinct_NoDup.
  - apply andb_prop in H as [_ H]. intros k x Hin.
    rewrite Forall_forall in IH. apply (IH (k, x) Hin).
    rewrite forallb_forall in H. now apply (H (k, x)).
Qed.

Lemma number_same_eq (a b : number) : number_same a b = true -> a = b.
Proof.
  destruct a as [s|s| |s m e], b as [s'|s'| |s' m' e']; simpl; try discriminate.
  - intros H. apply Bool.eqb_prop in H. now subst.
  - intros H. apply Bool.eqb_prop in H. now subst.
  - reflexivity.
  - intros H. apply andb_prop in H as [H He]. apply andb_prop in H as [Hs Hm].
    apply Bool.eqb_prop in Hs. apply Pos.eqb_eq in Hm. apply Z.eqb_eq in He.
    now subst.
Qed.

Lemma json_eqb_sound (a : value) :
  forall b, json_eqb a b = true -> well_formed a -> json_eq a b.
Proof.
  induction a as [| |x|x|x|xs IH|fa IH] using value_induction;
    intros [| |y|y|y|ys|fb]; simpl; try discriminate; intros H Hwf.
  - constructor.
  - constructor.
  - apply Bool.eqb_prop in H. subst. constructor.
  - apply number_same_eq in H. subst. constructor.
  - apply String.eqb_eq in H. subst. constructor.
  - inversion Hwf as [| | | | |? Hxs|]; subst.
    assert (Hall : List.length xs = List.length ys /\
                   forall i x y, nth_error xs i = Some x -> nth_error ys i = Some y ->
                                 json_eq x y).
    { clear Hwf. revert ys H.
      induction xs as [|x xs IHxs]; intros [|y ys] H; try discriminate.
      - split; [reflexivity|]. intros [|i] x y; discriminate.
      - apply andb_prop in H as [Hxy Hrest].
        inversion IH as [|? ? IHx IHrest]; subst.
        destruct (IHxs IHrest (fun z Hz => Hxs z (or_intror Hz)) ys Hrest) as [Hlen Hnth].
        split; [simpl; now rewrite Hlen|].
        intros [|i] x' y'; simpl.
        + intros [= <-] [= <-]. apply IHx; [exact Hxy|]. apply Hxs. now left.
        + apply Hnth. }
    destruct Hall as [Hlen Hnth]. now constructor.
  - inversion Hwf as [| | | | | |? Hnd Hfa]; subst.
    apply andb_prop in H as [Hab Hba].
    rewrite forallb_forall in Hab, Hba.
    constructor.
    + intros k. split; intros Hnone.
      * destruct (assoc k fb) as [y|] eqn:Ey; [|reflexivity].
        apply assoc_In in Ey. specialize (Hba (k, y) Ey). simpl in Hba.
        now rewrite Hnone in Hba.
      * destruct (assoc k fa) as [x|] eqn:Ex; [|reflexivity].
        apply assoc_In in Ex. specialize (Hab (k, x) Ex). simpl in Hab.
        now rewrite Hnone in Hab.
    + intros k x y Ex Ey. apply assoc_In in Ex as Hin.
      specialize (Hab (k, x) Hin). simpl in Hab. rewrite Ey in Hab.
      rewrite Forall_forall in IH. apply (IH (k, x) Hin); [exact Hab|].
      now apply (Hfa k).
Qed.

Lemma json_eq_refl (v : value) : json_eq v v.
Proof.
  induction v as [| | | | |xs IH|fs IH] using value_induction; try constructor.
  - reflexivity.
  - intros i x y Hx Hy. assert (x = y) by congruence. subst y.
    rewrite Forall_forall in IH. apply IH. eapply nth_error_In; eauto.
  - intros k. reflexivity.
  - intros k x y Hx Hy. assert (x = y) by congruence. subst y.
    rewrite Forall_forall in IH. apply (IH (k, x)). now apply assoc_In.
Qed.

(* ================================================================ *)
(** *** The canonical codec *)

Lemma hashEnvelope_canonical (a b : value) :
  canonicalizeEnvelope a = canonicalizeEnvelope b -> hashEnvelope a = hashEnvelope b.
Proof. unfold hashEnvelope. now intros ->. Qed.

(** C4 (as amended): canonicalization of a number succeeds exactly when the
    number is a finite integer of magnitude at most 2^53 - 1 (the safe
    integers of the language); the output is then the decimal expansion of the
    integer. Non-finite, non-integer and larger numbers raise an exception.
    Negative zero is serialized as the single character 0. *)
Theorem canonical_number_safe_integers :
  (forall n : number,
      returns (jcsSerialize (JNum n)) <->
      exists z, denotes_integer n z /\ Z.abs z <= 2 ^ 53 - 1)
  /\ (forall (n : number) (z : Z),
         denotes_integer n z -> Z.abs z <= 2 ^ 53 - 1 ->
         jcsSerialize (JNum n) = Ret (decimal z))
  /\ jcsSerialize (JNum negative_zero) = Ret "0".
Proof.
  change (2 ^ 53 - 1) with MAX_SAFE_INTEGER.
  split; [|split].
  - intros n. split.
    + intros [s Hs]. apply jcsSerialize_number in Hs as (z & Hz & Hsafe & _).
      now exists z.
    + intros (z & Hz & Hsafe). exists (decimal z).
      apply jcsSerialize_number. now exists z.
  - intros n z Hz Hsafe. apply jcsSerialize_number. now exists z.
  - reflexivity.
Qed.

(** C5: two well-formed values that are equal as JSON data have the same
    canonical form, hence the same envelope hash. *)
Theorem canonicalization_order_independent (a b : value) :
  well_formed a -> well_formed b -> json_eq a b ->
  canonicalizeEnvelope a = canonicalizeEnvelope b
  /\ hashEnvelope a = hashEnvelope b.
Proof.
  intros Ha Hb Hab.
  assert (E : canonicalizeEnvelope a = canonicalizeEnvelope b)
    by (unfold canonicalizeEnvelope; now apply jcsSerialize_json_eq).
  split; [exact E|now apply hashEnvelope_canonical].
Qed.

(* ================================================================ *)
(** *** The commit gate *)

Lemma strict_eq_string (v : value) (s : string) :
  strict_eq v (JStr s) = true <-> v = JStr s.
Proof.
  destruct v; simpl; split; try discriminate.
  - intros H. apply String.eqb_eq in H. now subst.
  - intros [= ->]. apply String.eqb_refl.
Qed.

Lemma persisted_class (c : string) :
  includes PERSIST_REJECTED_ATTEMPT c = true ->
  includes NON_PERSISTENT_FAILURES c = false.
Proof.
  unfold includes, PERSIST_REJECTED_ATTEMPT, NON_PERSISTENT_FAILURES. simpl.
  rewrite !orb_false_r.
  intros H. repeat (apply orb_prop in H as [H|H]);
    apply String.eqb_eq in H; subst; reflexivity.
Qed.

Lemma persistRejectedAttemptIfRequired_persisted
    (store : ArtifactStore) (c k rt : string) (e : value) (canon h : string) :
  includes PERSIST_REJECTED_ATTEMPT c = true ->
  persistRejectedAttemptIfRequired store c k rt e canon h
  = putRejectedAttempt store (mkStoredRejectedAttempt h rt e canon c k).
Proof.
  intros H. unfold persistRejectedAttemptIfRequired.
  now rewrite (persisted_class c H), H.
Qed.


(** What a call of the gate does, by the step at which it stops. *)
Inductive gate_run (store : ArtifactStore) (rt declared : string) (e : value)
  : outcome CommitResult -> ArtifactStore -> Prop :=
| run_forbidden :
    includes RECORD_TYPES rt = false ->
    gate_run store rt declared e
      (Ret (Rejected FailureClass.RECORD_TYPE_FORBIDDEN recordTypeForbiddenKind None))
      store
| run_schema :
    includes RECORD_TYPES rt = true ->
    v_ok (validateEnvelope e) = false ->
    gate_run store rt declared e
      (Ret (Rejected FailureClass.SCHEMA_REJECT
              (classifySchemaErrorKind (v_errors (validateEnvelope e))) None))
      store
| run_kind_mismatch :
    includes RECORD_TYPES rt = true ->
    v_ok (validateEnvelope e) = true ->
    strict_eq (get e "record_type") (JStr rt) = false ->
    gate_run store rt declared e
      (Ret (Rejected FailureClass.SCHEMA_REJECT
              "schema_violation.record_type_mismatch" None))
      store
| run_throw msg :
    includes RECORD_TYPES rt = true ->
    v_ok (validateEnvelope e) = true ->
    get e "record_type" = JStr rt ->
    canonicalizeEnvelope e = Throw msg ->
    gate_run store rt declared e (Throw msg) store
| run_rejected canon h c k :
    includes RECORD_TYPES rt = true ->
    v_ok (validateEnvelope e) = true ->
    get e "record_type" = JStr rt ->
    canonicalizeEnvelope e = Ret canon ->
    hashEnvelope e = Ret h ->
    (c = FailureClass.HASH_MISMATCH /\ k = hashMismatchKind /\ declared <> h
     \/ declared = h /\ resolvePrereqs store rt e = Fail c k
     \/ declared = h /\ exists p,
          resolvePrereqs store rt e = Pass p
          /\ (enforceTraceContinuity rt e p = Fail c k
              \/ enforceTraceContinuity rt e p = Pass tt
                 /\ enforceAuthorization rt p = Fail c k)) ->
    gate_run store rt declared e
      (Ret (Rejected c k (Some (h, canon))))
      (persistRejectedAttemptIfRequired store c k rt e canon h)
| run_accepted canon h p :
    includes RECORD_TYPES rt = true ->
    v_ok (validateEnvelope e) = true ->
    get e "record_type" = JStr rt ->
    canonicalizeEnvelope e = Ret canon ->
    hashEnvelope e = Ret h ->
    declared = h ->
    resolvePrereqs store rt e = Pass p ->
    enforceTraceContinuity rt e p = Pass tt ->
    enforceAuthorization rt p = Pass tt ->
    gate_run store rt declared e
      (Ret (Accepted h canon))
      (putAccepted store (mkStoredArtifact h rt e canon)).

Lemma commit_action_run (store : ArtifactStore) (rt declared : string) (e : value) :
  gate_run store rt declared e
    (fst (commit_action store rt declared e))
    (snd (commit_action store rt declared e)).
Proof.
  unfold commit_action.
  destruct (includes RECORD_TYPES rt) eqn:Hrt; simpl; [|now constructor].
  destruct (v_ok (validateEnvelope e)) eqn:Hv; simpl; [|now constructor].
  destruct (strict_eq (get e "record_type") (JStr rt)) eqn:Hk; simpl;
    [|now constructor].
  apply strict_eq_string in Hk.
  destruct (canonicalizeEnvelope e) as [canon|msg] eqn:Hc; [|now apply run_throw].
  assert (Hh : hashEnvelope e = Ret (sha256 canon))
    by (unfold hashEnvelope; now rewrite Hc).
  rewrite Hh.
  destruct (String.eqb_spec declared (sha256 canon)) as [Hd|Hd]; simpl.
  2:{ unfold reject_after_hash. simpl. apply run_rejected; auto. }
  destruct (resolvePrereqs store rt e) as [p|c k] eqn:Hp.
  2:{ unfold reject_after_hash. simpl. apply run_rejected; auto. }
  destruct (enforceTraceContinuity rt e p) as [[]|c k] eqn:Ht.
  2:{ unfold reject_after_hash. simpl. apply run_rejected; auto.
      right. right. split; [exact Hd|]. exists p. auto. }
  destruct (enforceAuthorization rt p) as [[]|c k] eqn:Ha.
  2:{ unfold reject_after_hash. simpl. apply run_rejected; auto.
      right. right. split; [exact Hd|]. exists p. auto. }
  simpl. eapply run_accepted; eauto.
Qed.

Lemma resolvePrereqs_fail_class (store : ArtifactStore) (rt : string) (e : value)
    (c k : string) :
  resolvePrereqs store rt e = Fail c k ->
  c = FailureClass.MISSING_PREREQ \/ c = FailureClass.RECORD_TYPE_FORBIDDEN.
Proof.
  unfold resolvePrereqs.
  repeat match goal with
         | |- context [if ?b then _ else _] => destruct b
         | |- context [match getAccepted ?s ?h with _ => _ end] =>
             destruct (getAccepted s h)
         end; intros [= <- <-]; auto.
Qed.

Lemma enforceTraceContinuity_fail_class (rt : string) (e : value) (p : Prereqs)
    (c k : string) :
  enforceTraceContinuity rt e p = Fail c k ->
  c = FailureClass.TRACE_VIOLATION /\ k = traceViolationKind.
Proof.
  unfold enforceTraceContinuity.
  repeat match goal with
         | |- context [if ?b then _ else _] => destruct b
         | |- context [match ?v with JStr _ => _ | _ => _ end] => destruct v
         end; intros [= <- <-]; auto.
Qed.

Lemma enforceAuthorization_fail_class (rt : string) (p : Prereqs) (c k : string) :
  enforceAuthorization rt p = Fail c k ->
  c = FailureClass.UNAUTHORIZED_EXECUTION /\ k = unauthorizedKind.
Proof.
  unfold enforceAuthorization.
  repeat match goal with
         | |- context [if ?b then _ else _] => destruct b
         end; intros [= <- <-]; auto.
Qed.


(** C7: when the declared kind is an allowed record type and the record
    passes schema validation but carries another [record_type], the call is
    classified SCHEMA_REJECT and the store, every namespace of it, is left as
    it was. *)
Theorem payload_kind_agreement
    (store : ArtifactStore) (kind declared_hash : string) (record : value) :
  includes RECORD_TYPES kind = true ->
  v_ok (validateEnvelope record) = true ->
  get record "record_type" <> JStr kind ->
  commit_action store kind declared_hash record
  = (Ret (Rejected FailureClass.SCHEMA_REJECT
            "schema_violation.record_type_mismatch" None),
     store).
Proof.
  intros Hkind Hvalid Hneq. unfold commit_action.
  rewrite Hkind, Hvalid. simpl.
  destruct (strict_eq (get record "record_type") (JStr kind)) eqn:E; [|reflexivity].
  apply strict_eq_string in E. contradiction.
Qed.

(* ================================================================ *)
(** *** Replay engines and the envelope namespaces *)

(** [store'] is [store] with the sealed [result] inserted in the generic
    artifacts bucket, and nothing else changed. *)
Definition emitted_into (store store' : ArtifactStore) (result : value) : Prop :=
  exists sha canonical_json,
    sealReplayResult result = Ret (canonical_json, sha)
    /\ store' = mkArtifactStore (accepted store) (rejected_attempts store)
                  (Some (map_set sha
                           (mkOtherArtifact sha canonical_json result "replay_result")
                           (match other_artifacts store with
                            | Some m => m
                            | None => []
                            end))).

(** [ledger'] is [ledger] with the sealed [result] inserted in the
    replay-results namespace, and nothing else changed. *)
Definition emitted_into_ledger (ledger ledger' : Ledger) (result : value) : Prop :=
  exists artifact_hash canonical_json,
    canonicalizeReplayResult result = Ret canonical_json
    /\ hashReplayResult result = Ret artifact_hash
    /\ ledger' = mkLedger (ledger_store ledger)
                   (map_set artifact_hash
                      (mkReplayResultEntry artifact_hash canonical_json result)
                      (replay_results ledger)).

Lemma store_eta (s : ArtifactStore) :
  mkArtifactStore (accepted s) (rejected_attempts s) (other_artifacts s) = s.
Proof. now destruct s. Qed.

Lemma persistReplayResult_effect (store : ArtifactStore) (result : value) :
  match persistReplayResult store result with
  | (Ret (sha, canonical_json), store') =>
      sealReplayResult result = Ret (canonical_json, sha)
      /\ emitted_into store store' result
  | (Throw _, store') => store' = store
  end.
Proof.
  unfold persistReplayResult.
  destruct (sealReplayResult result) as [[canonical_json sha]|msg] eqn:E;
    [|reflexivity].
  split; [reflexivity|]. exists sha, canonical_json. now split.
Qed.

Lemma finalize_effect (store : ArtifactStore) (record : ReplayRecord) (persist : bool) :
  let out := fst (finalize store record persist) in
  let store' := snd (finalize store record persist) in
  (store' = store /\ (persist = false -> out = Ret (mkReplayOutput record None)))
  \/ (exists sha, out = Ret (mkReplayOutput record (Some sha))
                  /\ emitted_into store store' (record_value record)).
Proof.
  unfold finalize. destruct persist; simpl; [|left; now split].
  pose proof (persistReplayResult_effect store (record_value record)) as H.
  destruct (persistReplayResult store (record_value record)) as [[[sha c]|msg] s'];
    simpl.
  - right. exists sha. split; [reflexivity|apply H].
  - left. split; [exact H|discriminate].
Qed.

Lemma finalize_record (store : ArtifactStore) (record : ReplayRecord) (persist : bool)
    (o : ReplayOutput) (store' : ArtifactStore) :
  finalize store record persist = (Ret o, store') -> ro_record o = record.
Proof.
  unfold finalize. destruct persist.
  - destruct (persistReplayResult store (record_value record)) as [[[sha c]|msg] s'];
      [|discriminate].
    now intros [= <- _].
  - now intros [= <- _].
Qed.

Lemma finalize_constrained_effect (store : ArtifactStore) (record : ReplayRecord)
    (diagnostics : Diagnostics) (persist : bool) :
  let out := fst (finalize_constrained store record diagnostics persist) in
  let store' := snd (finalize_constrained store record diagnostics persist) in
  store' = store
  \/ (exists sha, out = Ret (mkConstrainedOutput record diagnostics (Some sha))
                  /\ emitted_into store store' (record_value record)).
Proof.
  unfold finalize_constrained. destruct persist; simpl; [|now left].
  pose proof (persistReplayResult_effect store (record_value record)) as H.
  destruct (persistReplayResult store (record_value record)) as [[[sha c]|msg] s'];
    simpl.
  - right. exists sha. split; [reflexivity|apply H].
  - now left.
Qed.

Lemma invariantReplay_effect (store : ArtifactStore) (trace_id : string)
    (include_rejected_attempts persist_result : bool) (clock_iso : string) :
  let run := invariantReplay store trace_id include_rejected_attempts
               persist_result clock_iso in
  snd run = store
  \/ (exists o, fst run = Ret o
                /\ emitted_into store (snd run) (record_value (ro_record o))).
Proof.
  unfold invariantReplay.
  assert (F : forall record,
             snd (finalize store record persist_result) = store
             \/ (exists o, fst (finalize store record persist_result) = Ret o
                           /\ emitted_into store
                                (snd (finalize store record persist_result))
                                (record_value (ro_record o)))).
  { intros record.
    destruct (finalize_effect store record persist_result) as [[H _]|[sha [H1 H2]]].
    - now left.
    - right. eexists. split; [exact H1|exact H2]. }
  destruct (resolveTraceChain store trace_id include_rejected_attempts) as [chain|];
    [|apply F].
  destruct (integrity_loop (rc_ordered chain)) as [[fc|]|msg]; simpl.
  - apply F.
  - destruct (governance_loop store (rc_ordered chain)); apply F.
  - now left.
Qed.


Lemma constrainedReplay_effect (store : ArtifactStore)
    (baseline_trace_id candidate_trace_id : string) (replay_policy : value)
    (persist_result : bool) (clock_iso : string) :
  let run := constrainedReplay store baseline_trace_id candidate_trace_id
               replay_policy persist_result clock_iso in
  snd run = store
  \/ (exists o, fst run = Ret o
                /\ emitted_into store (snd run) (record_value (co_record o))).
Proof.
  unfold constrainedReplay.
  assert (F : forall record diagnostics,
             snd (finalize_constrained store record diagnostics persist_result) = store
             \/ (exists o,
                    fst (finalize_constrained store record diagnostics persist_result)
                    = Ret o
                    /\ emitted_into store
                         (snd (finalize_constrained store record diagnostics
                                 persist_result))
                         (record_value (co_record o)))).
  { intros record diagnostics.
    destruct (finalize_constrained_effect store record diagnostics persist_result)
      as [H|[sha [H1 H2]]].
    - now left.
    - right. eexists. split; [exact H1|exact H2]. }
  destruct (resolveTraceChain store baseline_trace_id false) as [baseline|];
    [|apply F].
  destruct (resolveTraceChain store candidate_trace_id false) as [candidate|];
    [|apply F].
  destruct (invariantReplay store baseline_trace_id false false _)
    as [[invBase|msg] s1]; [|now left].
  destruct (negb (rp_result (ro_record invBase) =? "pass")%string); [apply F|].
  destruct (invariantReplay store candidate_trace_id false false _)
    as [[invCand|msg] s2]; [|now left].
  destruct (negb (rp_result (ro_record invCand) =? "pass")%string); [apply F|].
  destruct (negb (List.length (policyPath baseline)
                  =? List.length (policyPath candidate))%nat); [apply F|].
  destruct (paths_differ (policyPath baseline) (policyPath candidate)); [apply F|].
  match goal with
  | |- context [if ?b then _ else _] => destruct b; [apply F|]
  end.
  match goal with
  | |- context [variance_loop ?p ?b ?c ?i ?a] =>
      destruct (variance_loop p b c i a) as [[fc|] allowed]; apply F
  end.
Qed.

Lemma emit_effect (ledger : Ledger) (emit_result ok : bool)
    (replay_result : LedgerReplayResult) :
  let run := emit ledger emit_result ok replay_result in
  snd run = ledger
  \/ (exists o, fst run = Ret o
                /\ fo_replay_result o = replay_result
                /\ emitted_into_ledger ledger (snd run)
                     (ledger_result_value replay_result)).
Proof.
  unfold emit, persistReplayResult_ledger. destruct emit_result; [|now left].
  destruct (canonicalizeReplayResult (ledger_result_value replay_result))
    as [canonical_json|msg] eqn:Ec; [|now left].
  destruct (hashReplayResult (ledger_result_value replay_result))
    as [artifact_hash|msg] eqn:Eh; [|now left].
  right. eexists. split; [reflexivity|]. split; [reflexivity|].
  exists artifact_hash, canonical_json. now repeat split.
Qed.

Lemma forensicReplay_effect (ledger : Ledger) (trace_id : string)
    (emit_result : bool) (now_ms : number) :
  let run := forensicReplay ledger trace_id emit_result now_ms in
  snd run = ledger
  \/ (exists o, fst run = Ret o
                /\ emitted_into_ledger ledger (snd run)
                     (ledger_result_value (fo_replay_result o))).
Proof.
  unfold forensicReplay.
  assert (F : forall ok replay_result,
             snd (emit ledger emit_result ok replay_result) = ledger
             \/ (exists o, fst (emit ledger emit_result ok replay_result) = Ret o
                           /\ emitted_into_ledger ledger
                                (snd (emit ledger emit_result ok replay_result))
                                (ledger_result_value (fo_replay_result o)))).
  { intros ok replay_result.
    destruct (emit_effect ledger emit_result ok replay_result)
      as [H|[o (H1 & H2 & H3)]].
    - now left.
    - right. exists o. split; [exact H1|now rewrite H2]. }
  destruct (ReplayIndex_resolve ledger trace_id) as [resolved_accepted resolved_rejected].
  destruct resolved_accepted as [|ref refs]; [apply F|].
  destruct (forensic_loop new_ArtifactStore (ref :: refs))
    as [[[[fc fk] details]|]|msg]; try apply F.
  now left.
Qed.

(** C10: a replay engine (invariant, forensic, constrained) leaves the
    accepted and rejected-attempts namespaces of the ledger it runs over as
    they were. The store after a run is the store before it, or the store
    before it with the emitted result record inserted in the replay-result
    namespace; the forensic re-ingestion writes to a store of its own. *)
Theorem replay_preserves_envelope_namespaces :
  (forall store trace_id include_rejected_attempts persist_result clock_iso,
      let run := invariantReplay store trace_id include_rejected_attempts
                   persist_result clock_iso in
      accepted (snd run) = accepted store
      /\ rejected_attempts (snd run) = rejected_attempts store
      /\ (snd run = store
          \/ exists o, fst run = Ret o
                       /\ emitted_into store (snd run) (record_value (ro_record o))))
  /\ (forall ledger trace_id emit_result now_ms,
         let run := forensicReplay ledger trace_id emit_result now_ms in
         ledger_store (snd run) = ledger_store ledger
         /\ (snd run = ledger
             \/ exists o, fst run = Ret o
                          /\ emitted_into_ledger ledger (snd run)
                               (ledger_result_value (fo_replay_result o))))
  /\ (forall store baseline_trace_id candidate_trace_id replay_policy
             persist_result clock_iso,
         let run := constrainedReplay store baseline_trace_id candidate_trace_id
                      replay_policy persist_result clock_iso in
         accepted (snd run) = accepted store
         /\ rejected_attempts (snd run) = rejected_attempts store
         /\ (snd run = store
             \/ exists o, fst run = Ret o
                          /\ emitted_into store (snd run)
                               (record_value (co_record o)))).
Proof.
  split; [|split].
  - intros store trace_id incl persist clock run.
    pose proof (invariantReplay_effect store trace_id incl persist clock) as H.
    fold run in H. destruct H as [H|[o [Ho He]]].
    + rewrite H. repeat split. now left.
    + pose proof He as (sha & canon & _ & Hs). rewrite Hs at 1 2. simpl.
      repeat split. right. now exists o.
  - intros ledger trace_id emit_result now_ms run.
    pose proof (forensicReplay_effect ledger trace_id emit_result now_ms) as H.
    fold run in H. destruct H as [H|[o [Ho He]]].
    + rewrite H. split; [reflexivity|now left].
    + pose proof He as (h & canon & _ & _ & Hs). rewrite Hs at 1. simpl.
      split; [reflexivity|]. right. now exists o.
  - intros store b c policy persist clock run.
    pose proof (constrainedReplay_effect store b c policy persist clock) as H.
    fold run in H. destruct H as [H|[o [Ho He]]].
    + rewrite H. repeat split. now left.
    + pose proof He as (sha & canon & _ & Hs). rewrite Hs at 1 2. simpl.
      repeat split. right. now exists o.
Qed.

(* ================================================================ *)
(** *** The trace index and the resolver *)












Lemma index_lookup (trace_id : string) (l : list LedgerEnvelopeArtifact) :
  forall idx,
    map_get trace_id (fold_left index_add l idx)
    = match filter (has_trace_id trace_id) l with
      | [] => map_get trace_id idx
      | items =>
          Some (match map_get trace_id idx with
                | Some arr => arr
                | None => []
                end ++ items)
      end.
Proof.
  induction l as [|x l IH]; intros idx; simpl; [reflexivity|].
  rewrite IH. unfold index_add, has_trace_id.
  destruct (getTraceId (la_envelope x)) as [| | | |tid| |]; try reflexivity.
  destruct (String.length tid =? 0)%nat; simpl; [reflexivity|].
  destruct (String.eqb_spec tid trace_id) as [->|Hne].
  - rewrite map_get_set_same.
    destruct (filter _ l); [reflexivity|]. now rewrite <- app_assoc.
  - rewrite map_get_set_other by congruence. reflexivity.
Qed.

Lemma buildTraceIndex_lookup (store : ArtifactStore) (trace_id : string)
    (include_rejected_attempts : bool) :
  map_get trace_id (buildTraceIndex store include_rejected_attempts)
  = match trace_artifacts store trace_id include_rejected_attempts with
    | [] => None
    | items => Some items
    end.
Proof.
  unfold buildTraceIndex, trace_artifacts, ledger_artifacts.
  destruct include_rejected_attempts.
  - rewrite <- fold_left_app. now rewrite index_lookup.
  - rewrite app_nil_r. now rewrite index_lookup.
Qed.

Lemma resolveTraceChain_ordered (store : ArtifactStore) (trace_id : string)
    (include_rejected_attempts : bool) :
  resolveTraceChain store trace_id include_rejected_attempts
  = match trace_artifacts store trace_id include_rejected_attempts with
    | [] => None
    | items =>
        let ordered := js_sort compareArtifacts items in
        Some (mkResolvedTraceChain trace_id ordered
                (filter (fun x => String.eqb (la_record_type x) "auth_context") ordered)
                (filter (fun x => String.eqb (la_record_type x) "policy_decision") ordered)
                (filter is_evidence ordered))
    end.
Proof.
  unfold resolveTraceChain. rewrite buildTraceIndex_lookup.
  now destruct (trace_artifacts store trace_id include_rejected_attempts).
Qed.


(* ================================================================ *)
(** *** Sealing a replay record never throws *)

Lemma sequence_all_ret {A : Type} (l : list (outcome A)) :
  Forall returns l -> returns (sequence l).
Proof.
  induction 1 as [|x l [a ->] _ [r IH]]; simpl.
  - now exists [].
  - rewrite IH. simpl. now eexists.
Qed.

Lemma jcsSerialize_object_returns (fs : list (string * value)) :
  (forall k v, In (k, v) fs -> returns (jcsSerialize v)) ->
  returns (jcsSerialize (JObj fs)).
Proof.
  intros H. simpl.
  assert (Hs : returns (sequence
                 (map (jcs_member (map (fun kv => (fst kv, jcsSerialize (snd kv))) fs))
                      (js_sort String.compare (Object_keys fs))))).
  { apply sequence_all_ret. apply Forall_forall. intros r Hr.
    apply in_map_iff in Hr as (k & <- & Hk).
    apply (Permutation_in k (Permutation_sym (js_sort_perm String.compare _))) in Hk.
    unfold jcs_member. rewrite (assoc_map_snd jcsSerialize).
    destruct (assoc k fs) as [v|] eqn:Ev.
    - simpl. apply assoc_In in Ev. destruct (H k v Ev) as [s ->]. simpl. now eexists.
    - apply assoc_None_iff in Ev. contradiction. }
  destruct Hs as [parts ->]. simpl. now eexists.
Qed.

Lemma jcsSerialize_strings_returns (l : list string) :
  returns (jcsSerialize (JArr (map JStr l))).
Proof.
  simpl.
  assert (Hs : returns (sequence (map jcsSerialize (map JStr l)))).
  { apply sequence_all_ret. apply Forall_forall. intros r Hr.
    apply in_map_iff in Hr as (v & <- & Hv).
    apply in_map_iff in Hv as (s & <- & _). simpl. now eexists. }
  destruct Hs as [parts ->]. simpl. now eexists.
Qed.

Lemma record_value_canonical (r : ReplayRecord) :
  returns (jcsSerialize (record_value r)).
Proof.
  unfold record_value. apply jcsSerialize_object_returns. intros k v Hin.
  repeat (apply in_app_or in Hin as [Hin|Hin]);
    try (simpl in Hin;
         repeat (destruct Hin as [Hin|Hin];
                 [injection Hin as <- <-;
                  first [apply jcsSerialize_strings_returns
                        |simpl; now eexists]|]);
         now destruct Hin);
    unfold optional_field in Hin;
    match type of Hin with
    | In _ (match ?o with _ => _ end) => destruct o; simpl in Hin
    end;
    try (destruct Hin as [Hin|[]]; injection Hin as <- <-; simpl; now eexists);
    now destruct Hin.
Qed.

Lemma persistReplayResult_record (store : ArtifactStore) (r : ReplayRecord) :
  exists sha canonical_json store',
    persistReplayResult store (record_value r) = (Ret (sha, canonical_json), store').
Proof.
  unfold persistReplayResult, sealReplayResult, hashEnvelope, canonicalizeEnvelope.
  destruct (record_value_canonical r) as [c ->]. simpl. now do 3 eexists.
Qed.

Lemma finalize_returns (store : ArtifactStore) (record : ReplayRecord) (persist : bool) :
  exists o, fst (finalize store record persist) = Ret o /\ ro_record o = record.
Proof.
  unfold finalize. destruct persist.
  - destruct (persistReplayResult_record store record) as (sha & c & s' & ->).
    simpl. now eexists.
  - simpl. now eexists.
Qed.

Lemma finalize_constrained_returns (store : ArtifactStore) (record : ReplayRecord)
    (diagnostics : Diagnostics) (persist : bool) :
  exists o, fst (finalize_constrained store record diagnostics persist) = Ret o
            /\ co_record o = record /\ co_diagnostics o = diagnostics.
Proof.
  unfold finalize_constrained. destruct persist.
  - destruct (persistReplayResult_record store record) as (sha & c & s' & ->).
    simpl. now eexists.
  - simpl. now eexists.
Qed.

(* ================================================================ *)
(** *** Constrained replay: variance enforcement *)

Lemma variance_loop_spec (replay_policy : value)
    (baseEvidenceById candEvidenceById : JsMap LedgerEnvelopeArtifact)
    (ids : list string) :
  forall allowed,
    (forallb (approved replay_policy)
       (filter response_differs
          (flat_map (matched_pair baseEvidenceById candEvidenceById) ids)) = true ->
     variance_loop replay_policy baseEvidenceById candEvidenceById ids allowed
     = (None,
        allowed ++
        map allowed_difference
          (filter response_differs
             (flat_map (matched_pair baseEvidenceById candEvidenceById) ids))))
    /\ (forallb (approved replay_policy)
          (filter response_differs
             (flat_map (matched_pair baseEvidenceById candEvidenceById) ids)) = false ->
        exists pushed,
          variance_loop replay_policy baseEvidenceById candEvidenceById ids allowed
          = (Some ReplayFailure.VARIANCE_VIOLATION, pushed)).
Proof.
  induction ids as [|id ids IH]; intros allowed.
  - simpl. split; [intros _; now rewrite app_nil_r|discriminate].
  - cbn [flat_map variance_loop]. rewrite filter_app. unfold matched_pair at 1 3 5.
    destruct (map_get id baseEvidenceById) as [b|]; [|apply IH].
    destruct (map_get id candEvidenceById) as [c|]; [|apply IH].
    cbn [filter].
    change (negb (blobrefEquals (get (la_envelope b) "response")
                                (get (la_envelope c) "response")))
      with (response_differs (b, c)).
    destruct (response_differs (b, c)); [|apply IH].
    cbn [app forallb map].
    change (variance_allowed replay_policy (la_record_type b))
      with (approved replay_policy (b, c)).
    destruct (approved replay_policy (b, c)); cbn [negb andb].
    + destruct (IH (allowed ++ [allowed_difference (b, c)])) as [IH1 IH2].
      split.
      * intros H. unfold allowed_difference at 1 in IH1. cbn [fst snd] in IH1.
        rewrite (IH1 H). now rewrite <- app_assoc.
      * intros H. destruct (IH2 H) as [pushed Hp]. exists pushed.
        unfold allowed_difference at 1 in Hp. cbn [fst snd] in Hp. exact Hp.
    + split; [discriminate|]. intros _. now eexists.
Qed.


(* ================================================================ *)
(** *** The namespaces of a reachable ledger *)

Lemma map_set_In_inv {V : Type} (k : string) (v : V) (m : JsMap V) (k' : string) (v' : V) :
  In (k', v') (map_set k v m) -> (k', v') = (k, v) \/ In (k', v') m.
Proof.
  induction m as [|[k0 v0] m IH]; simpl.
  - intros [E|[]]. now left.
  - destruct (String.eqb k k0); simpl.
    + intros [E|H]; [now left|right; now right].
    + intros [E|H]; [right; now left|].
      destruct (IH H) as [E|Hin]; [now left|right; now right].
Qed.

Lemma map_set_key_In {V : Type} (k : string) (v : V) (m : JsMap V) :
  In k (map_keys (map_set k v m)).
Proof. apply map_set_keys_In. now left. Qed.

Lemma hash_of_canonical (e : value) (canon h : string) :
  canonicalizeEnvelope e = Ret canon -> hashEnvelope e = Ret h -> sha256 canon = h.
Proof. unfold hashEnvelope. intros ->. simpl. now intros [= ->]. Qed.

Lemma persistRejectedAttemptIfRequired_cases
    (store : ArtifactStore) (c k rt : string) (e : value) (canon h : string) :
  persistRejectedAttemptIfRequired store c k rt e canon h = store
  \/ persistRejectedAttemptIfRequired store c k rt e canon h
     = putRejectedAttempt store (mkStoredRejectedAttempt h rt e canon c k).
Proof.
  unfold persistRejectedAttemptIfRequired.
  destruct (includes NON_PERSISTENT_FAILURES c); [now left|].
  destruct (includes PERSIST_REJECTED_ATTEMPT c); [now right|now left].
Qed.

Lemma content_addressed_call (ledger : Ledger) (call : LedgerCall) :
  content_addressed ledger -> content_addressed (apply_call ledger call).
Proof.
  intros H. pose proof H as (Ha & Hr & Hb & Hl).
  destruct call as [rt declared e|result|result]; simpl.
  - pose proof (commit_action_run ledger rt declared e) as Hg.
    destruct (commit_action ledger rt declared e) as [o s']. simpl in *.
    inversion Hg as [ | | | |canon h c k Hrt Hv Hk Hc Hh Hwhy Eo Es|
                     canon h p Hrt Hv Hk Hc Hh Hd Hp Ht Hz Eo Es]; subst;
      try exact H.
    + destruct (persistRejectedAttemptIfRequired_cases ledger c k rt e canon h)
        as [-> | ->]; [exact H|].
      split; [exact Ha|]. split; [|exact (conj Hb Hl)].
      simpl. split; [apply map_set_NoDup, Hr|].
      intros h' a' Hin. apply map_set_In_inv in Hin as [E|Hin]; [|now apply Hr].
      injection E as -> ->. repeat split; auto. now apply (hash_of_canonical e).
    + split; [|exact (conj Hr (conj Hb Hl))].
      simpl. split; [apply map_set_NoDup, Ha|].
      intros h' a' Hin. apply map_set_In_inv in Hin as [E|Hin]; [|now apply Ha].
      injection E as -> ->. repeat split; auto. now apply (hash_of_canonical e).
  - unfold persistReplayResult, sealReplayResult.
    destruct (canonicalizeEnvelope result) as [canon|msg] eqn:Ec; simpl;
      [|exact H].
    destruct (hashEnvelope result) as [h|msg] eqn:Eh; simpl; [|exact H].
    split; [exact Ha|]. split; [exact Hr|]. split; [|exact Hl].
    unfold bucket at 1 2. simpl. fold (bucket ledger).
    split; [apply map_set_NoDup, Hb|].
    intros h' a' Hin. apply map_set_In_inv in Hin as [E|Hin]; [|now apply Hb].
    injection E as -> ->. repeat split; auto. now apply (hash_of_canonical result).
  - unfold persistReplayResult_ledger, canonicalizeReplayResult, hashReplayResult.
    destruct (canonicalizeEnvelope result) as [canon|msg] eqn:Ec; simpl;
      [|exact H].
    destruct (hashEnvelope result) as [h|msg] eqn:Eh; simpl; [|exact H].
    split; [exact Ha|]. split; [exact Hr|]. split; [exact Hb|].
    split; [apply map_set_NoDup, Hl|].
    intros h' a' Hin. apply map_set_In_inv in Hin as [E|Hin]; [|now apply Hl].
    injection E as -> ->. repeat split; auto. now apply (hash_of_canonical result).
Qed.

Lemma content_addressed_run (calls : list LedgerCall) :
  forall ledger, content_addressed ledger -> content_addressed (run_calls ledger calls).
Proof.
  unfold run_calls. induction calls as [|c calls IH]; intros ledger H; simpl.
  - exact H.
  - apply IH. now apply content_addressed_call.
Qed.

(** A hash that was rejected stays a key of the rejected-attempts
    namespace when the same record is accepted later. *)
Lemma accepted_after_rejection (store store' : ArtifactStore)
    (rt declared : string) (e : value) (h canon : string) :
  In h (map_keys (rejected_attempts store)) ->
  commit_action store rt declared e = (Ret (Accepted h canon), store') ->
  In h (map_keys (accepted store')) /\ In h (map_keys (rejected_attempts store')).
Proof.
  intros Hin Hrun.
  pose proof (commit_action_run store rt declared e) as Hg.
  rewrite Hrun in Hg. simpl in Hg.
  inversion Hg; subst. simpl. split; [apply map_set_key_In|exact Hin].
Qed.

(** C3 (as amended): in every ledger reachable from the empty ledger by
    commits and replay-result emissions, each namespace maps a hash to at
    most one entry, and every entry is stored under the hash of its own
    canonical form. The namespaces are not exclusive of one another: a hash
    that was rejected and is accepted on resubmission is a key of both
    the accepted and the rejected-attempts namespace. *)
Theorem reachable_ledger_content_addressed (calls : list LedgerCall) :
  content_addressed (run_calls new_Ledger calls).
Proof.
  apply content_addressed_run.
  unfold content_addressed, new_Ledger, new_ArtifactStore, bucket. simpl.
  repeat split; try apply NoDup_nil; contradiction.
Qed.

(* ================================================================ *)
(** *** From the gate's checks to the replay engine's checks *)

(** What a referring record reads of a prerequisite envelope: its trace
    identifier and its decision result, as strict comparisons see them. *)
Definition same_prereq_view (e e' : value) : Prop :=
  (forall x, strict_eq (traceIdOf e) x = strict_eq (traceIdOf e') x)
  /\ (forall x, strict_eq (get (get e "decision") "result") x
                = strict_eq (get (get e' "decision") "result") x).

(** Every accepted artifact of [sim] is present in [store] under the same
    hash, with the same view of its envelope. *)
Definition sees (sim store : ArtifactStore) : Prop :=
  forall h a, map_get h (accepted sim) = Some a ->
    exists a', map_get h (accepted store) = Some a'
               /\ same_prereq_view (sa_envelope a) (sa_envelope a').

Lemma same_prereq_view_refl (e : value) : same_prereq_view e e.
Proof. now split. Qed.

Lemma sees_refl (store : ArtifactStore) : sees store store.
Proof. intros h a H. exists a. split; [exact H|apply same_prereq_view_refl]. Qed.

Lemma getAccepted_sees (sim store : ArtifactStore) (h : value) (a : StoredArtifact) :
  sees sim store -> getAccepted sim h = Some a ->
  exists a', getAccepted store h = Some a'
             /\ same_prereq_view (sa_envelope a) (sa_envelope a').
Proof.
  intros Hs. destruct h; simpl; try discriminate. apply Hs.
Qed.

Lemma governance_from_gate (sim store : ArtifactStore) (art : LedgerEnvelopeArtifact)
    (p : Prereqs) :
  sees sim store ->
  resolvePrereqs sim (la_record_type art) (la_envelope art) = Pass p ->
  enforceTraceContinuity (la_record_type art) (la_envelope art) p = Pass tt ->
  enforceAuthorization (la_record_type art) p = Pass tt ->
  governance_check store art = None.
Proof.
  intros Hs. unfold resolvePrereqs, enforceTraceContinuity, enforceAuthorization,
    governance_check, requireAccepted, traceIdOf.
  set (rt := la_record_type art). set (env := la_envelope art).
  destruct (String.eqb rt "auth_context"); [reflexivity|].
  destruct (String.eqb rt "policy_decision").
  - destruct (getAccepted sim (get env "auth_context_envelope_sha256")) as [auth|] eqn:Ea;
      [|discriminate].
    destruct (getAccepted_sees _ _ _ _ Hs Ea) as (auth' & -> & Hview & _).
    intros [= <-]. simpl.
    destruct (get (get env "trace") "trace_id") eqn:Et; try discriminate.
    unfold traceIdOf in Hview. rewrite <- Hview.
    destruct (strict_eq _ _); [reflexivity|discriminate].
  - destruct (String.eqb rt "model_call" || String.eqb rt "tool_call") eqn:Ert;
      [|reflexivity].
    destruct (getAccepted sim (get env "auth_context_envelope_sha256")) as [auth|] eqn:Ea;
      [|discriminate].
    destruct (getAccepted sim (get env "policy_decision_envelope_sha256")) as [pd|] eqn:Epd;
      [|discriminate].
    destruct (getAccepted_sees _ _ _ _ Hs Ea) as (auth' & -> & Hva & _).
    destruct (getAccepted_sees _ _ _ _ Hs Epd) as (pd' & -> & Hvp & Hdp).
    intros [= <-]. simpl.
    destruct (get (get env "trace") "trace_id") eqn:Et; try discriminate.
    unfold traceIdOf in Hva, Hvp. rewrite <- Hva, <- Hvp.
    destruct (negb (strict_eq _ _) || negb (strict_eq _ _)); [discriminate|].
    intros _.
    assert (Hmt : negb (String.eqb rt "model_call") && negb (String.eqb rt "tool_call")
                  = false).
    { destruct (String.eqb rt "model_call"), (String.eqb rt "tool_call");
        simpl in *; congruence. }
    rewrite Hmt, <- Hdp.
    destruct (strict_eq _ _); [reflexivity|discriminate].
Qed.

Lemma integrity_loop_passes (chain : list LedgerEnvelopeArtifact) :
  (forall x, In x chain ->
             schemaAndHashCheck (la_envelope x) (la_envelope_hash x) = Ret None) ->
  integrity_loop chain = Ret None.
Proof.
  induction chain as [|x chain IH]; intros H; simpl; [reflexivity|].
  rewrite (H x (or_introl eq_refl)). simpl. apply IH. intros y Hy. apply H. now right.
Qed.

Lemma governance_loop_passes (store : ArtifactStore) (chain : list LedgerEnvelopeArtifact) :
  (forall x, In x chain -> governance_check store x = None) ->
  governance_loop store chain = None.
Proof.
  induction chain as [|x chain IH]; intros H; simpl; [reflexivity|].
  rewrite (H x (or_introl eq_refl)). apply IH. intros y Hy. apply H. now right.
Qed.

Lemma schemaAndHashCheck_passes (e : value) (h : string) :
  v_ok (validateEnvelope e) = true -> hashEnvelope e = Ret h ->
  schemaAndHashCheck e h = Ret None.
Proof.
  intros Hv Hh. unfold schemaAndHashCheck. rewrite Hv, Hh. simpl.
  now rewrite String.eqb_refl.
Qed.

(** Invariant replay passes on a trace that has artifacts, all of which
    pass the two loops. *)
Lemma invariantReplay_passes (store : ArtifactStore) (trace_id : string)
    (persist_result : bool) (clock_iso : string) :
  trace_artifacts store trace_id false <> [] ->
  (forall x, In x (trace_artifacts store trace_id false) ->
             schemaAndHashCheck (la_envelope x) (la_envelope_hash x) = Ret None
             /\ governance_check store x = None) ->
  exists o,
    fst (invariantReplay store trace_id false persist_result clock_iso) = Ret o
    /\ rp_result (ro_record o) = "pass".
Proof.
  intros Hne Hall. unfold invariantReplay.
  rewrite resolveTraceChain_ordered.
  destruct (trace_artifacts store trace_id false) as [|i0 items] eqn:Ei;
    [contradiction|].
  cbv zeta. cbn [rc_ordered].
  assert (Hin : forall x, In x (js_sort compareArtifacts (i0 :: items)) ->
                          In x (i0 :: items)).
  { intros x Hx.
    now apply (Permutation_in x (Permutation_sym (js_sort_perm compareArtifacts _))). }
  rewrite integrity_loop_passes by (intros x Hx; now apply Hall, Hin).
  rewrite governance_loop_passes by (intros x Hx; now apply Hall, Hin).
  match goal with
  | |- context [finalize ?s ?r ?p] =>
      destruct (finalize_returns s r p) as (o & Ho & Hr)
  end.
  exists o. split; [exact Ho|now rewrite Hr].
Qed.

Lemma In_trace_artifacts (store : ArtifactStore) (trace_id : string)
    (x : LedgerEnvelopeArtifact) :
  In x (trace_artifacts store trace_id false) <->
  (exists h a, In (h, a) (accepted store) /\ x = accepted_artifact (h, a))
  /\ has_trace_id trace_id x = true.
Proof.
  unfold trace_artifacts, ledger_artifacts. rewrite app_nil_r, filter_In, in_map_iff.
  split.
  - intros [([h a] & <- & Hin) Ht]. split; [|exact Ht]. now exists h, a.
  - intros [(h & a & Hin & ->) Ht]. split; [|exact Ht]. now exists (h, a).
Qed.

Lemma has_trace_id_of_trace (trace_id : string) (x : LedgerEnvelopeArtifact) :
  has_trace_id trace_id x = true -> of_trace trace_id x = true.
Proof.
  unfold has_trace_id, of_trace.
  destruct (getTraceId (la_envelope x)); try discriminate.
  intros H. apply andb_prop in H as [_ H]. exact H.
Qed.

Lemma of_trace_has_trace_id (trace_id : string) (x : LedgerEnvelopeArtifact) :
  trace_id <> EmptyString -> of_trace trace_id x = true ->
  has_trace_id trace_id x = true.
Proof.
  unfold has_trace_id, of_trace. intros Hne H.
  apply strict_eq_string in H. rewrite H. rewrite String.eqb_refl.
  destruct trace_id; [contradiction|reflexivity].
Qed.

(* ================================================================ *)
(** *** Forensic replay against invariant replay *)

Lemma sees_putAccepted (sim store : ArtifactStore) (a a' : StoredArtifact) :
  sees sim store ->
  map_get (sa_envelope_hash a) (accepted store) = Some a' ->
  same_prereq_view (sa_envelope a) (sa_envelope a') ->
  sees (putAccepted sim a) store.
Proof.
  intros Hs Hget Hview h x. unfold putAccepted. simpl.
  destruct (String.eqb_spec h (sa_envelope_hash a)) as [->|Hne].
  - rewrite map_get_set_same. intros [= <-]. now exists a'.
  - rewrite map_get_set_other by exact Hne. apply Hs.
Qed.

(** Re-ingestion succeeds on every artifact of the chain only if every
    artifact passes the checks of invariant replay against the ledger. *)
Lemma forensic_loop_sound (store : ArtifactStore) :
  NoDup (map_keys (accepted store)) ->
  forall (refs : list LedgerEnvelopeArtifact) (sim : ArtifactStore),
  sees sim store ->
  (forall ref, In ref refs ->
     exists h a, In (h, a) (accepted store) /\ ref = accepted_artifact (h, a)) ->
  forensic_loop sim refs = Ret None ->
  forall ref, In ref refs ->
    schemaAndHashCheck (la_envelope ref) (la_envelope_hash ref) = Ret None
    /\ governance_check store ref = None.
Proof.
  intros Hnd. induction refs as [|r rest IH]; intros sim Hs Hsrc Hloop ref Hin;
    [destruct Hin|].
  cbn [forensic_loop] in Hloop. cbv zeta in Hloop.
  destruct (v_ok (validateEnvelope (la_envelope r))) eqn:Hv; simpl in Hloop;
    [|discriminate].
  destruct (canonicalizeEnvelope (la_envelope r)) as [canon|] eqn:Hc; simpl in Hloop;
    [|discriminate].
  destruct (String.eqb canon (la_canonical_json r)); simpl in Hloop; [|discriminate].
  destruct (hashEnvelope (la_envelope r)) as [h|] eqn:Hh; simpl in Hloop;
    [|discriminate].
  destruct (String.eqb_spec h (la_envelope_hash r)) as [E|]; simpl in Hloop;
    [|discriminate].
  pose proof (commit_action_run sim (la_record_type r) (la_envelope_hash r)
                (la_envelope r)) as Hrun.
  destruct (commit_action sim (la_record_type r) (la_envelope_hash r) (la_envelope r))
    as [[[h' canon'|c k comp]|msg] sim'] eqn:Hcommit; simpl in Hrun;
    try discriminate.
  destruct (String.eqb canon' (la_canonical_json r)); simpl in Hloop; [|discriminate].
  inversion Hrun as [| | | | |canon0 h0 p _ _ _ _ Hh0 Hd Hp Ht Ha]; subst h0 canon0.
  assert (Hr : governance_check store r = None)
    by (exact (governance_from_gate sim store r p Hs Hp Ht Ha)).
  destruct Hin as [<-|Hin].
  - split; [|exact Hr]. apply schemaAndHashCheck_passes; [exact Hv|].
    now rewrite Hh, E.
  - apply (IH sim'); try assumption.
    + subst sim'. destruct (Hsrc r (or_introl eq_refl)) as (hs & a & Hina & Er).
      apply (sees_putAccepted sim store _ a Hs).
      * simpl. apply assoc_NoDup_In; [exact Hnd|].
        rewrite <- Hd, Er. exact Hina.
      * simpl. rewrite Er. apply same_prereq_view_refl.
    + intros x Hx. apply Hsrc. now right.
Qed.

Lemma forensicReplay_pass_loop (ledger : Ledger) (trace_id : string)
    (emit_result : bool) (now_ms : number) (out : ForensicOutput) :
  fst (forensicReplay ledger trace_id emit_result now_ms) = Ret out ->
  lr_result (fo_replay_result out) = "pass" ->
  fst (ReplayIndex_resolve ledger trace_id) <> []
  /\ forensic_loop new_ArtifactStore (fst (ReplayIndex_resolve ledger trace_id))
     = Ret None.
Proof.
  unfold forensicReplay.
  destruct (ReplayIndex_resolve ledger trace_id) as [acc rej]. cbn [fst].
  assert (Hemit : forall ok r,
            fst (emit ledger emit_result ok r) = Ret out -> fo_replay_result out = r).
  { intros ok r. unfold emit. destruct emit_result.
    - destruct (persistReplayResult_ledger ledger (ledger_result_value r))
        as [[entry|msg] l']; simpl; [now intros [= <-]|discriminate].
    - simpl. now intros [= <-]. }
  destruct acc as [|a0 acc'].
  - intros H Hp. apply Hemit in H. rewrite H in Hp. discriminate.
  - cbv zeta.
    destruct (forensic_loop new_ArtifactStore (a0 :: acc')) as [[[[c k] d]|]|msg];
      intros H Hp.
    + apply Hemit in H. rewrite H in Hp. discriminate.
    + split; [discriminate|reflexivity].
    + discriminate.
Qed.

(** C6. A pass verdict of forensic replay on a trace entails a pass verdict
    of invariant replay on the same trace: on a ledger whose accepted
    namespace is a map (no hash bound twice) and for a non-empty trace
    identifier, whenever forensic replay returns with result "pass",
    invariant replay over the ledger's store returns with result "pass". *)
Theorem forensic_pass_entails_invariant_pass
    (ledger : Ledger) (trace_id : string) (emit_result : bool) (now_ms : number)
    (persist_result : bool) (clock_iso : string) (out : ForensicOutput) :
  distinct (map_keys (accepted ledger)) = true ->
  trace_id <> EmptyString ->
  fst (forensicReplay ledger trace_id emit_result now_ms) = Ret out ->
  lr_result (fo_replay_result out) = "pass" ->
  exists o,
    fst (invariantReplay ledger trace_id false persist_result clock_iso) = Ret o
    /\ rp_result (ro_record o) = "pass".
Proof.
  intros Hd Hne Hrun Hpass.
  apply distinct_NoDup in Hd.
  destruct (forensicReplay_pass_loop _ _ _ _ _ Hrun Hpass) as [Hrefs Hloop].
  unfold ReplayIndex_resolve in Hrefs, Hloop. cbn [fst] in Hrefs, Hloop.
  set (items := filter (of_trace trace_id) (map accepted_artifact (accepted ledger)))
    in *.
  assert (Hperm : Permutation items (js_sort chain_order items))
    by apply js_sort_perm.
  assert (Hsrc : forall ref, In ref (js_sort chain_order items) ->
            exists h a, In (h, a) (accepted ledger) /\ ref = accepted_artifact (h, a)).
  { intros ref Hin. apply (Permutation_in _ (Permutation_sym Hperm)) in Hin.
    apply filter_In in Hin as [Hin _]. apply in_map_iff in Hin as ([h a] & <- & Hin).
    now exists h, a. }
  assert (Hmem : forall x, In x (trace_artifacts ledger trace_id false) ->
                           In x (js_sort chain_order items)).
  { intros x Hx. apply (Permutation_in _ Hperm). apply In_trace_artifacts in Hx
      as [(h & a & Hin & ->) Ht]. apply filter_In. split.
    - apply in_map_iff. now exists (h, a).
    - now apply has_trace_id_of_trace. }
  apply invariantReplay_passes.
  - destruct (js_sort chain_order items) as [|r rs] eqn:Es; [contradiction|].
    assert (Hr : In r items).
    { apply (Permutation_in _ (Permutation_sym Hperm)). now left. }
    apply filter_In in Hr as [Hr Hof]. apply in_map_iff in Hr as ([h a] & Er & Hin).
    intros Hnil.
    assert (Hx : In r (trace_artifacts ledger trace_id false)).
    { apply In_trace_artifacts. split; [exists h, a; now split|].
      now apply of_trace_has_trace_id. }
    rewrite Hnil in Hx. destruct Hx.
  - intros x Hx.
    exact (forensic_loop_sound ledger Hd _ new_ArtifactStore
             ltac:(intros h a; discriminate) Hsrc Hloop x (Hmem x Hx)).
Qed.

(* ================================================================ *)
(** *** Stores built by the gate replay clean *)

Lemma json_eqb_get (a b : value) (k : string) :
  json_eqb a b = true -> json_eqb (get a k) (get b k) = true.
Proof.
  destruct a as [| | | | | |fa], b as [| | | | | |fb]; simpl;
    try discriminate; try reflexivity.
  intros H. apply andb_prop in H as [Ha Hb].
  rewrite forallb_forall in Ha, Hb.
  destruct (assoc k fa) as [x|] eqn:Ea.
  - specialize (Ha (k, x) (assoc_In _ _ _ Ea)). simpl in Ha.
    destruct (assoc k fb); [exact Ha|discriminate].
  - destruct (assoc k fb) as [y|] eqn:Eb; [|reflexivity].
    specialize (Hb (k, y) (assoc_In _ _ _ Eb)). simpl in Hb.
    rewrite Ea in Hb. discriminate.
Qed.

Lemma json_eqb_strict_eq (a b x : value) :
  json_eqb a b = true -> strict_eq a x = strict_eq b x.
Proof.
  destruct a, b; simpl; try discriminate; intros H; try reflexivity.
  - apply Bool.eqb_prop in H. now subst.
  - apply number_same_eq in H. now subst.
  - apply String.eqb_eq in H. now subst.
Qed.

Lemma json_eqb_same_prereq_view (e e' : value) :
  json_eqb e e' = true -> same_prereq_view e e'.
Proof.
  intros H. split; intros x; apply json_eqb_strict_eq; unfold traceIdOf;
    now repeat apply json_eqb_get.
Qed.

Lemma sees_trans (s1 s2 s3 : ArtifactStore) : sees s1 s2 -> sees s2 s3 -> sees s1 s3.
Proof.
  intros H12 H23 h a Ha.
  destruct (H12 h a Ha) as (a2 & Ha2 & [Vt Vd]).
  destruct (H23 h a2 Ha2) as (a3 & Ha3 & [Vt' Vd']).
  exists a3. split; [exact Ha3|].
  split; intros x; [now rewrite Vt, Vt'|now rewrite Vd, Vd'].
Qed.

Lemma sees_same_accepted (s1 s2 : ArtifactStore) :
  accepted s2 = accepted s1 -> sees s1 s2.
Proof.
  intros E h a Ha. exists a. rewrite E. split; [exact Ha|apply same_prereq_view_refl].
Qed.

Lemma collision_free_spec (calls : list (string * string * value))
    (c1 c2 : string * string * value) (h : string) :
  collision_free calls = true -> In c1 calls -> In c2 calls ->
  hashEnvelope (snd c1) = Ret h -> hashEnvelope (snd c2) = Ret h ->
  json_eqb (snd c1) (snd c2) = true.
Proof.
  unfold collision_free. intros H H1 H2 E1 E2.
  rewrite forallb_forall in H. specialize (H c1 H1).
  rewrite forallb_forall in H. specialize (H c2 H2).
  rewrite E1, E2, String.eqb_refl in H. exact H.
Qed.

(** Every accepted artifact of [store] was submitted in [calls], is stored
    under its own envelope hash, validates, and passed the gate's
    prerequisite, continuity and authorization steps against a store whose
    accepted artifacts [store] still holds. *)
Definition gate_checked (calls : list (string * string * value))
    (store : ArtifactStore) : Prop :=
  NoDup (map_keys (accepted store))
  /\ forall h a, In (h, a) (accepted store) ->
       v_ok (validateEnvelope (sa_envelope a)) = true
       /\ hashEnvelope (sa_envelope a) = Ret h
       /\ (exists c, In c calls /\ snd c = sa_envelope a)
       /\ exists sim p,
            sees sim store
            /\ resolvePrereqs sim (sa_record_type a) (sa_envelope a) = Pass p
            /\ enforceTraceContinuity (sa_record_type a) (sa_envelope a) p = Pass tt
            /\ enforceAuthorization (sa_record_type a) p = Pass tt.

Lemma gate_checked_same_accepted (calls : list (string * string * value))
    (s s' : ArtifactStore) :
  accepted s' = accepted s -> gate_checked calls s -> gate_checked calls s'.
Proof.
  intros E [Hnd H]. split; rewrite E; [exact Hnd|].
  intros h a Hin. destruct (H h a Hin) as (Hv & Hh & Hc & sim & p & Hs & Hrest).
  repeat split; try assumption. exists sim, p. split; [|exact Hrest].
  apply (sees_trans _ s); [exact Hs|now apply sees_same_accepted].
Qed.

Lemma gate_checked_commit (calls : list (string * string * value))
    (store : ArtifactStore) (rt declared : string) (e : value) :
  collision_free calls = true ->
  In (rt, declared, e) calls ->
  gate_checked calls store ->
  gate_checked calls (snd (commit_action store rt declared e)).
Proof.
  intros Hcf Hcall Hinv.
  pose proof (commit_action_run store rt declared e) as Hrun.
  destruct (commit_action store rt declared e) as [r store']. cbn [fst snd] in *.
  destruct Hrun as [| | | |canon h c k _ _ _ _ _ _
                    |canon h p _ Hv _ Hc Hh Hd Hp Ht Ha]; try exact Hinv.
  - apply (gate_checked_same_accepted calls store); [|exact Hinv].
    destruct (persistRejectedAttemptIfRequired_cases store c k rt e canon h)
      as [->| ->]; reflexivity.
  - destruct Hinv as [Hnd Hall].
    set (new := mkStoredArtifact h rt e canon).
    assert (Hsee : sees store (putAccepted store new)).
    { intros k a Hk. unfold putAccepted. simpl.
      destruct (String.eqb_spec k h) as [->|Hne].
      - rewrite map_get_set_same. exists new. split; [reflexivity|].
        destruct (Hall h a (map_get_In _ _ _ Hk)) as (_ & Hha & (c0 & Hc0 & Ec0) & _).
        apply json_eqb_same_prereq_view. simpl. rewrite <- Ec0.
        apply (collision_free_spec calls c0 (rt, declared, e) h Hcf Hc0 Hcall).
        + now rewrite Ec0.
        + exact Hh.
      - rewrite map_get_set_other by exact Hne. exists a.
        split; [exact Hk|apply same_prereq_view_refl]. }
    split.
    + unfold putAccepted. simpl. now apply map_set_NoDup.
    + intros h' a' Hin. unfold putAccepted in Hin. simpl in Hin.
      apply map_set_In_inv in Hin as [E|Hin].
      * injection E as -> ->. simpl. repeat split; try assumption.
        -- now exists (rt, declared, e).
        -- exists store, p. now repeat split.
      * destruct (Hall h' a' Hin) as (Hv' & Hh' & Hc' & sim & p' & Hs & Hrest).
        repeat split; try assumption. exists sim, p'. split; [|exact Hrest].
        now apply (sees_trans _ store).
Qed.

Lemma gate_checked_commit_all (all : list (string * string * value)) :
  collision_free all = true ->
  forall (calls : list (string * string * value)) (store : ArtifactStore),
  (forall c, In c calls -> In c all) ->
  gate_checked all store ->
  gate_checked all (commit_all store calls).
Proof.
  intros Hcf. induction calls as [|[[rt d] e] calls IH]; intros store Hsub Hinv;
    [exact Hinv|].
  unfold commit_all. cbn [fold_left fst snd].
  apply IH; [intros c Hc; apply Hsub; now right|].
  apply gate_checked_commit; [exact Hcf|apply Hsub; now left|exact Hinv].
Qed.

Lemma gate_checked_new (all : list (string * string * value)) :
  gate_checked all new_ArtifactStore.
Proof. split; [constructor|intros h a []]. Qed.

(** C2. Gate soundness with respect to invariant replay: on a store built
    from the empty store by [commit_action] calls alone, in which no two
    submitted records that differ as JSON data have the same envelope
    hash, invariant replay of a non-empty trace identifier carried by an
    accepted record returns a result record whose result is "pass". *)
Theorem gate_built_store_replays_pass
    (calls : list (string * string * value)) (trace_id : string)
    (persist_result : bool) (clock_iso : string) :
  collision_free calls = true ->
  trace_id <> EmptyString ->
  has_accepted_record (commit_all new_ArtifactStore calls) trace_id = true ->
  exists o,
    fst (invariantReplay (commit_all new_ArtifactStore calls) trace_id false
           persist_result clock_iso) = Ret o
    /\ rp_result (ro_record o) = "pass".
Proof.
  intros Hcf Hne Hhas.
  destruct (gate_checked_commit_all calls Hcf calls new_ArtifactStore
              (fun c H => H) (gate_checked_new calls)) as [Hnd Hall].
  set (store := commit_all new_ArtifactStore calls) in *.
  apply invariantReplay_passes.
  - unfold has_accepted_record in Hhas. apply existsb_exists in Hhas
      as ([h a] & Hin & Ht). simpl in Ht.
    intros Hnil.
    assert (Hx : In (accepted_artifact (h, a)) (trace_artifacts store trace_id false)).
    { apply In_trace_artifacts. split; [now exists h, a|].
      apply of_trace_has_trace_id; [exact Hne|exact Ht]. }
    rewrite Hnil in Hx. destruct Hx.
  - intros x Hx. apply In_trace_artifacts in Hx as [(h & a & Hin & ->) _].
    destruct (Hall h a Hin) as (Hv & Hh & _ & sim & p & Hs & Hp & Ht & Ha).
    split.
    + now apply schemaAndHashCheck_passes.
    + exact (governance_from_gate sim store (accepted_artifact (h, a)) p Hs Hp Ht Ha).
Qed.

(* ================================================================ *)
(** *** More on the gate: what a commit does to the store *)

Lemma map_set_same_value {V : Type} (k : string) (v : V) (m : JsMap V) :
  map_get k m = Some v -> map_set k v m = m.
Proof.
  unfold map_get. induction m as [|[k' v'] m IH]; simpl; [discriminate|].
  destruct (String.eqb_spec k k') as [->|Hne].
  - now intros [= ->].
  - intros H. now rewrite IH.
Qed.

Lemma map_get_keys_In {V : Type} (k : string) (m : JsMap V) :
  In k (map_keys m) <-> exists v, map_get k m = Some v.
Proof.
  unfold map_get, map_keys. induction m as [|[k' v'] m IH]; simpl.
  - split; [intros []|intros [v H]; discriminate].
  - destruct (String.eqb_spec k k') as [->|Hne].
    + split; [intros _; now exists v'|intros _; now left].
    + rewrite <- IH. split; [intros [E|H]; [congruence|exact H]|intros H; now right].
Qed.

Lemma getAccepted_putAccepted_other (store : ArtifactStore) (a : StoredArtifact)
    (h : value) :
  h <> JStr (sa_envelope_hash a) ->
  getAccepted (putAccepted store a) h = getAccepted store h.
Proof.
  intros Hne. destruct h; simpl; try reflexivity.
  apply map_get_set_other. congruence.
Qed.

Lemma RECORD_TYPES_cases (record_type : string) :
  includes RECORD_TYPES record_type = true ->
  record_type = "auth_context" \/ record_type = "policy_decision"
  \/ record_type = "model_call" \/ record_type = "tool_call".
Proof.
  unfold includes, RECORD_TYPES. cbn [existsb].
  rewrite !orb_true_iff, !String.eqb_eq. intros [H|[H|[H|[H|H]]]]; auto.
  discriminate.
Qed.

Lemma resolvePrereqs_fail_kind (store : ArtifactStore) (record_type : string)
    (envelope : value) (c k : string) :
  includes RECORD_TYPES record_type = true ->
  resolvePrereqs store record_type envelope = Fail c k ->
  c = FailureClass.MISSING_PREREQ
  /\ (k = "missing_prereq.auth_context" \/ k = "missing_prereq.policy_decision").
Proof.
  intros Hrt. unfold resolvePrereqs.
  destruct (RECORD_TYPES_cases _ Hrt) as [ -> | [ -> | [ -> | -> ] ] ]; simpl;
    repeat match goal with
           | |- context [match getAccepted ?s ?x with _ => _ end] =>
               destruct (getAccepted s x)
           end; try discriminate; intros [= <- <-]; auto.
Qed.

(** X1: an accepted commit binds the record to its hash. The returned hash is
    the declared one and is the digest of the returned canonical JSON, which is
    the canonical form of the record; the record is of the declared, allowed
    kind and validates; afterwards a lookup of the hash in the accepted
    namespace yields the stored artifact (hash, kind, record, canonical JSON),
    and the other namespaces are as before. *)
Theorem commit_accepted_is_stored
    (store store' : ArtifactStore) (record_type declared_envelope_hash : string)
    (envelope : value) (envelope_hash canonical_json : string) :
  commit_action store record_type declared_envelope_hash envelope
  = (Ret (Accepted envelope_hash canonical_json), store') ->
  envelope_hash = declared_envelope_hash
  /\ canonicalizeEnvelope envelope = Ret canonical_json
  /\ envelope_hash = sha256 canonical_json
  /\ includes RECORD_TYPES record_type = true
  /\ v_ok (validateEnvelope envelope) = true
  /\ get envelope "record_type" = JStr record_type
  /\ getAccepted store' (JStr envelope_hash)
     = Some (mkStoredArtifact envelope_hash record_type envelope canonical_json)
  /\ rejected_attempts store' = rejected_attempts store
  /\ other_artifacts store' = other_artifacts store.
Proof.
  intros Hrun.
  pose proof (commit_action_run store record_type declared_envelope_hash envelope) as Hg.
  rewrite Hrun in Hg. cbn [fst snd] in Hg.
  inversion Hg as [| | | | |canon h p Hrt Hv Hk Hc Hh Hd Hp Ht Ha Eo Es].
  subst. repeat split; try assumption; try reflexivity.
  - now rewrite (hash_of_canonical _ _ _ Hc Hh).
  - simpl. apply map_get_set_same.
Qed.

(** X2: a commit is append-only and touches at most the key of the computed
    envelope hash. Whatever the outcome, every entry of the accepted and of
    the rejected-attempts namespace stays as it was unless its key is the
    computed hash of the submitted record; no key disappears; a key that
    appears is the computed hash; the bucket of other artifacts is as
    before. *)
Theorem commit_touches_only_computed_hash
    (store : ArtifactStore) (record_type declared_envelope_hash : string)
    (envelope : value) :
  let store' := snd (commit_action store record_type declared_envelope_hash envelope) in
  (forall k a, map_get k (accepted store) = Some a ->
     map_get k (accepted store') = Some a \/ hashEnvelope envelope = Ret k)
  /\ (forall k a, map_get k (rejected_attempts store) = Some a ->
        map_get k (rejected_attempts store') = Some a \/ hashEnvelope envelope = Ret k)
  /\ (forall k, In k (map_keys (accepted store)) -> In k (map_keys (accepted store')))
  /\ (forall k, In k (map_keys (rejected_attempts store)) ->
        In k (map_keys (rejected_attempts store')))
  /\ (forall k, In k (map_keys (accepted store')) ->
        In k (map_keys (accepted store)) \/ hashEnvelope envelope = Ret k)
  /\ (forall k, In k (map_keys (rejected_attempts store')) ->
        In k (map_keys (rejected_attempts store)) \/ hashEnvelope envelope = Ret k)
  /\ other_artifacts store' = other_artifacts store.
Proof.
  intros store'. subst store'.
  pose proof (commit_action_run store record_type declared_envelope_hash envelope) as Hg.
  destruct (commit_action store record_type declared_envelope_hash envelope)
    as [r store']. cbn [fst snd] in *.
  assert (Hsame : forall s : ArtifactStore,
            accepted s = accepted store ->
            rejected_attempts s = rejected_attempts store
            \/ (exists h a, hashEnvelope envelope = Ret h
                  /\ rejected_attempts s = map_set h a (rejected_attempts store)) ->
            other_artifacts s = other_artifacts store ->
            (forall k a, map_get k (accepted store) = Some a ->
               map_get k (accepted s) = Some a \/ hashEnvelope envelope = Ret k)
            /\ (forall k a, map_get k (rejected_attempts store) = Some a ->
                  map_get k (rejected_attempts s) = Some a
                  \/ hashEnvelope envelope = Ret k)
            /\ (forall k, In k (map_keys (accepted store)) ->
                  In k (map_keys (accepted s)))
            /\ (forall k, In k (map_keys (rejected_attempts store)) ->
                  In k (map_keys (rejected_attempts s)))
            /\ (forall k, In k (map_keys (accepted s)) ->
                  In k (map_keys (accepted store)) \/ hashEnvelope envelope = Ret k)
            /\ (forall k, In k (map_keys (rejected_attempts s)) ->
                  In k (map_keys (rejected_attempts store))
                  \/ hashEnvelope envelope = Ret k)
            /\ other_artifacts s = other_artifacts store).
  { intros s Ea Er Eo. rewrite Ea.
    destruct Er as [Er|(h & a & Hh & Er)]; rewrite Er.
    - repeat split; auto.
    - repeat split; auto.
      + intros k x Hk. destruct (String.eqb_spec k h) as [->|Hne]; [now right|].
        left. now rewrite map_get_set_other.
      + intros k Hk. apply map_set_keys_In. now right.
      + intros k Hk. apply map_set_keys_In in Hk as [->|Hk]; [now right|now left]. }
  destruct Hg as [| | | |canon h c k _ _ _ _ Hh _
                  |canon h p _ _ _ _ Hh _ _ _ _];
    try (apply Hsame; auto; fail).
  - destruct (persistRejectedAttemptIfRequired_cases store c k record_type envelope
                canon h) as [-> | ->]; [apply Hsame; auto|].
    apply Hsame; [reflexivity| |reflexivity].
    right. simpl. eauto.
  - unfold putAccepted. cbn [accepted rejected_attempts other_artifacts sa_envelope_hash].
    repeat split; auto.
    + intros k x Hk. destruct (String.eqb_spec k h) as [->|Hne]; [now right|].
      left. now rewrite map_get_set_other.
    + intros k Hk. apply map_set_keys_In. now right.
    + intros k Hk. apply map_set_keys_In in Hk as [->|Hk]; [now right|now left].
Qed.

(** X3: resubmission of an accepted record is idempotent. When a record is
    accepted under a hash that the accepted namespace did not hold before,
    committing the same record again with the same declared hash is accepted
    again, with the same hash and canonical JSON, and leaves the store exactly
    as the first commit left it. *)
Theorem commit_accepted_idempotent
    (store store' : ArtifactStore) (record_type declared_envelope_hash : string)
    (envelope : value) (envelope_hash canonical_json : string) :
  map_get envelope_hash (accepted store) = None ->
  commit_action store record_type declared_envelope_hash envelope
  = (Ret (Accepted envelope_hash canonical_json), store') ->
  commit_action store' record_type declared_envelope_hash envelope
  = (Ret (Accepted envelope_hash canonical_json), store').
Proof.
  intros Hfresh Hrun.
  pose proof (commit_action_run store record_type declared_envelope_hash envelope) as Hg.
  rewrite Hrun in Hg. cbn [fst snd] in Hg.
  inversion Hg as [| | | | |canon h p Hrt Hv Hk Hc Hh Hd Hp Ht Ha Eo Es].
  subst canon h store'. clear Hg Hrun.
  set (new := mkStoredArtifact envelope_hash record_type envelope canonical_json).
  assert (Hother : forall x a, getAccepted store x = Some a ->
                               getAccepted (putAccepted store new) x = Some a).
  { intros x a Hx. rewrite getAccepted_putAccepted_other; [exact Hx|].
    intros ->. simpl in Hx. congruence. }
  assert (Hp' : resolvePrereqs (putAccepted store new) record_type envelope = Pass p).
  { revert Hp. unfold resolvePrereqs.
    destruct (String.eqb record_type "auth_context"); [auto|].
    destruct (String.eqb record_type "policy_decision").
    - destruct (getAccepted store (get envelope "auth_context_envelope_sha256"))
        as [auth|] eqn:Ea; [|discriminate].
      now rewrite (Hother _ _ Ea).
    - destruct (String.eqb record_type "model_call" || String.eqb record_type "tool_call");
        [|auto].
      destruct (getAccepted store (get envelope "auth_context_envelope_sha256"))
        as [auth|] eqn:Ea; [|discriminate].
      destruct (getAccepted store (get envelope "policy_decision_envelope_sha256"))
        as [pd|] eqn:Epd; [|discriminate].
      now rewrite (Hother _ _ Ea), (Hother _ _ Epd). }
  unfold commit_action.
  rewrite Hrt, Hv, Hk. cbn [negb]. simpl strict_eq. rewrite String.eqb_refl. cbn [negb].
  rewrite Hc, Hh, Hd, String.eqb_refl. cbn [negb].
  rewrite Hp', Ht, Ha.
  f_equal. unfold putAccepted. cbn [accepted rejected_attempts other_artifacts].
  f_equal. apply map_set_same_value. apply map_get_set_same.
Qed.

(** X4: nothing is accepted without the artifacts it names. The hash an
    accepted policy decision gives as [auth_context_envelope_sha256] is that
    of an accepted artifact with the trace identifier of the decision; the
    hashes an accepted model call or tool call gives as
    [auth_context_envelope_sha256] and [policy_decision_envelope_sha256] are
    those of two accepted artifacts with the trace identifier of the call,
    and the [decision.result] of the second is "allow". *)
Theorem accepted_record_has_prerequisites
    (store store' : ArtifactStore) (record_type declared_envelope_hash : string)
    (envelope : value) (envelope_hash canonical_json : string) :
  commit_action store record_type declared_envelope_hash envelope
  = (Ret (Accepted envelope_hash canonical_json), store') ->
  (record_type = "policy_decision" ->
   exists auth trace_id,
     getAccepted store (get envelope "auth_context_envelope_sha256") = Some auth
     /\ traceIdOf envelope = JStr trace_id
     /\ traceIdOf (sa_envelope auth) = JStr trace_id)
  /\ (record_type = "model_call" \/ record_type = "tool_call" ->
      exists auth pd trace_id,
        getAccepted store (get envelope "auth_context_envelope_sha256") = Some auth
        /\ getAccepted store (get envelope "policy_decision_envelope_sha256") = Some pd
        /\ traceIdOf envelope = JStr trace_id
        /\ traceIdOf (sa_envelope auth) = JStr trace_id
        /\ traceIdOf (sa_envelope pd) = JStr trace_id
        /\ get (get (sa_envelope pd) "decision") "result" = JStr "allow").
Proof.
  intros Hrun.
  pose proof (commit_action_run store record_type declared_envelope_hash envelope) as Hg.
  rewrite Hrun in Hg. cbn [fst snd] in Hg.
  inversion Hg as [| | | | |canon h p Hrt Hv Hk Hc Hh Hd Hp Ht Ha Eo Es].
  clear Hg Hrun. unfold traceIdOf.
  split.
  - intros ->. revert Hp Ht. unfold resolvePrereqs, enforceTraceContinuity. simpl.
    destruct (getAccepted store (get envelope "auth_context_envelope_sha256"))
      as [auth|]; [|discriminate].
    intros [= <-]. simpl.
    destruct (get (get envelope "trace") "trace_id") as [| | | |t| |] eqn:Et;
      try discriminate.
    destruct (strict_eq _ (JStr t)) eqn:E; [|discriminate]. intros _.
    apply strict_eq_string in E. now exists auth, t.
  - intros Hrt'. 
    assert (Hev : String.eqb record_type "auth_context" = false
                  /\ String.eqb record_type "policy_decision" = false
                  /\ (String.eqb record_type "model_call"
                      || String.eqb record_type "tool_call") = true
                  /\ negb (String.eqb record_type "model_call")
                     && negb (String.eqb record_type "tool_call") = false)
      by (destruct Hrt' as [-> | ->]; repeat split; reflexivity).
    destruct Hev as (E1 & E2 & E3 & E4).
    revert Hp Ht Ha. unfold resolvePrereqs, enforceTraceContinuity, enforceAuthorization.
    rewrite E1, E2, E3, E4.
    destruct (getAccepted store (get envelope "auth_context_envelope_sha256"))
      as [auth|]; [|discriminate].
    destruct (getAccepted store (get envelope "policy_decision_envelope_sha256"))
      as [pd|]; [|discriminate].
    intros [= <-]. simpl.
    destruct (get (get envelope "trace") "trace_id") as [| | | |t| |] eqn:Et;
      try discriminate.
    destruct (strict_eq _ (JStr t)) eqn:Ea; [|discriminate].
    destruct (strict_eq (get (get (sa_envelope pd) "trace") "trace_id") (JStr t)) eqn:Ep;
      [|discriminate].
    intros _.
    destruct (strict_eq _ (JStr "allow")) eqn:Ed; [|discriminate]. intros _.
    apply strict_eq_string in Ea, Ep, Ed.
    now exists auth, pd, t.
Qed.

(** X5: the gate's checks are ordered. For a call that returns: the
    classification is RECORD_TYPE_FORBIDDEN exactly when the declared kind
    is not an allowed record type (the fallback of prerequisite resolution
    is never reached); it is SCHEMA_REJECT exactly when the kind is allowed
    and the record fails validation or carries another [record_type]; it is
    HASH_MISMATCH exactly when kind and record pass those steps and the
    declared hash differs from the computed one, whether or not the
    prerequisites are there. *)
Theorem commit_classification_by_first_failure
    (store : ArtifactStore) (record_type declared_envelope_hash : string)
    (envelope : value) (r : CommitResult) :
  fst (commit_action store record_type declared_envelope_hash envelope) = Ret r ->
  (commit_classification r = FailureClass.RECORD_TYPE_FORBIDDEN
   <-> includes RECORD_TYPES record_type = false)
  /\ (commit_classification r = FailureClass.SCHEMA_REJECT
      <-> includes RECORD_TYPES record_type = true
          /\ (v_ok (validateEnvelope envelope) = false
              \/ get envelope "record_type" <> JStr record_type))
  /\ (commit_classification r = FailureClass.HASH_MISMATCH
      <-> includes RECORD_TYPES record_type = true
          /\ v_ok (validateEnvelope envelope) = true
          /\ get envelope "record_type" = JStr record_type
          /\ exists computed, hashEnvelope envelope = Ret computed
                              /\ computed <> declared_envelope_hash).
Proof.
  intros Hrun.
  pose proof (commit_action_run store record_type declared_envelope_hash envelope) as Hg.
  rewrite Hrun in Hg.
  remember (snd (commit_action store record_type declared_envelope_hash envelope))
    as store' eqn:Es. clear Es Hrun.
  inversion Hg as [Hrt Eo Es|Hrt Hv Eo Es|Hrt Hv Hk Eo Es| 
                   |canon h c k Hrt Hv Hk Hc Hh Hwhy Eo Es
                   |canon h p Hrt Hv Hk Hc Hh Hd Hp Ht Ha Eo Es];
    subst; cbn [commit_classification].
  - repeat split; try discriminate; try (intros; assumption);
      intros (H & _); congruence.
  - repeat split; try discriminate; auto.
    + intros H; congruence.
    + intros (_ & H & _); congruence.
  - assert (Hne : get envelope "record_type" <> JStr record_type).
    { intros E. rewrite E in Hk. simpl in Hk. rewrite String.eqb_refl in Hk.
      discriminate. }
    repeat split; try discriminate; auto.
    + intros H; congruence.
    + intros (_ & _ & H & _); contradiction.
  - assert (Hcls : c = FailureClass.HASH_MISMATCH /\ declared_envelope_hash <> h
                   \/ c <> FailureClass.HASH_MISMATCH /\ declared_envelope_hash = h
                      /\ c <> FailureClass.SCHEMA_REJECT
                      /\ c <> FailureClass.RECORD_TYPE_FORBIDDEN).
    { destruct Hwhy as [(-> & _ & Hne)|[(Hd & Hf)|(Hd & p & Hp & Hf)]].
      - now left.
      - right.
        assert (Hc' : c = FailureClass.MISSING_PREREQ)
          by exact (proj1 (resolvePrereqs_fail_kind _ _ _ _ _ Hrt Hf)).
        subst c. repeat split; try discriminate. exact Hd.
      - right. destruct Hf as [Hf|[_ Hf]].
        + apply enforceTraceContinuity_fail_class in Hf as [-> _].
          repeat split; try discriminate. exact Hd.
        + apply enforceAuthorization_fail_class in Hf as [-> _].
          repeat split; try discriminate. exact Hd. }
    destruct Hcls as [[-> Hne]|(Hn1 & Hd & Hn2 & Hn3)].
    + repeat split; try discriminate; try congruence.
      * intros (_ & [H|H]); congruence.
      * exists h. split; [exact Hh|congruence].
    + repeat split; try congruence.
      * intros (_ & [H|H]); congruence.
      * intros (_ & _ & _ & computed & Hc2 & Hne). congruence.
  - repeat split; try discriminate; try congruence.
    + intros (_ & [H|H]); congruence.
    + intros (_ & _ & _ & computed & Hc2 & Hne). congruence.
Qed.

Lemma classifySchemaErrorKind_prefix (ajvErrors : list value) :
  String.prefix "schema_violation" (classifySchemaErrorKind ajvErrors) = true.
Proof.
  unfold classifySchemaErrorKind.
  destruct ajvErrors as [|e0 rest]; [reflexivity|]. cbv zeta.
  repeat match goal with
         | |- context [if ?b then _ else _] => destruct b
         | |- context [match as_string ?v with _ => _ end] => destruct (as_string v)
         end; reflexivity.
Qed.

(** X6: every rejection carries the error kind of its class. For a call
    that returns a rejection, the pair (classification, error kind) is
    RECORD_TYPE_FORBIDDEN with record_type_forbidden, or SCHEMA_REJECT with a
    kind that starts with schema_violation, or HASH_MISMATCH with
    hash_mismatch.envelope_hash, or MISSING_PREREQ with
    missing_prereq.auth_context or missing_prereq.policy_decision, or
    TRACE_VIOLATION with trace_violation.trace_id_mismatch, or
    UNAUTHORIZED_EXECUTION with unauthorized.policy_denied; the computed hash
    and canonical JSON are reported exactly for the last four. *)
Theorem rejection_error_kinds
    (store : ArtifactStore) (record_type declared_envelope_hash : string)
    (envelope : value) (classification error_kind : string)
    (computed : option (string * string)) :
  fst (commit_action store record_type declared_envelope_hash envelope)
  = Ret (Rejected classification error_kind computed) ->
  (classification = FailureClass.RECORD_TYPE_FORBIDDEN
   /\ error_kind = "record_type_forbidden" /\ computed = None)
  \/ (classification = FailureClass.SCHEMA_REJECT
      /\ String.prefix "schema_violation" error_kind = true /\ computed = None)
  \/ (exists h canon,
        computed = Some (h, canon)
        /\ canonicalizeEnvelope envelope = Ret canon
        /\ hashEnvelope envelope = Ret h
        /\ (classification = FailureClass.HASH_MISMATCH
            /\ error_kind = "hash_mismatch.envelope_hash"
            \/ classification = FailureClass.MISSING_PREREQ
               /\ (error_kind = "missing_prereq.auth_context"
                   \/ error_kind = "missing_prereq.policy_decision")
            \/ classification = FailureClass.TRACE_VIOLATION
               /\ error_kind = "trace_violation.trace_id_mismatch"
            \/ classification = FailureClass.UNAUTHORIZED_EXECUTION
               /\ error_kind = "unauthorized.policy_denied")).
Proof.
  intros Hrun.
  pose proof (commit_action_run store record_type declared_envelope_hash envelope) as Hg.
  rewrite Hrun in Hg.
  remember (snd (commit_action store record_type declared_envelope_hash envelope))
    as store' eqn:Es. clear Es Hrun.
  inversion Hg as [Hrt Eo Es|Hrt Hv Eo Es|Hrt Hv Hk Eo Es| 
                   |canon h c k Hrt Hv Hk Hc Hh Hwhy Eo Es|]; subst.
  - left. now repeat split.
  - right. left. repeat split. apply classifySchemaErrorKind_prefix.
  - right. left. now repeat split.
  - right. right. exists h, canon. repeat split; try assumption.
    destruct Hwhy as [(-> & -> & _)|[(Hd & Hf)|(Hd & p & Hp & Hf)]].
    + now left.
    + right. left. exact (resolvePrereqs_fail_kind _ _ _ _ _ Hrt Hf).
    + right. right. destruct Hf as [Hf|[_ Hf]].
      * apply enforceTraceContinuity_fail_class in Hf as [-> ->]. now left.
      * apply enforceAuthorization_fail_class in Hf as [-> ->]. now right.
Qed.

(** X7: the gate raises an exception only out of canonicalization. A call
    throws exactly when the kind is allowed, the record validates and
    carries that kind, and canonicalization of the record throws; the
    exception is the one of canonicalization and the store is untouched. So
    a record that validates but holds a number outside the canonical range
    is not reported as SCHEMA_REJECT: the call does not return. *)
Theorem commit_throws_iff_canonicalization_throws
    (store : ArtifactStore) (record_type declared_envelope_hash : string)
    (envelope : value) (msg : string) :
  (fst (commit_action store record_type declared_envelope_hash envelope) = Throw msg
   <-> includes RECORD_TYPES record_type = true
       /\ v_ok (validateEnvelope envelope) = true
       /\ get envelope "record_type" = JStr record_type
       /\ canonicalizeEnvelope envelope = Throw msg)
  /\ (fst (commit_action store record_type declared_envelope_hash envelope) = Throw msg ->
      snd (commit_action store record_type declared_envelope_hash envelope) = store).
Proof.
  pose proof (commit_action_run store record_type declared_envelope_hash envelope) as Hg.
  destruct (commit_action store record_type declared_envelope_hash envelope)
    as [r store']. cbn [fst snd] in *.
  destruct Hg as [Hrt|Hrt Hv|Hrt Hv Hk|m Hrt Hv Hk Hc
                  |canon h c k Hrt Hv Hk Hc Hh Hwhy
                  |canon h p Hrt Hv Hk Hc Hh Hd Hp Ht Ha].
  - split; [split; [discriminate|intros (H & _); congruence]|discriminate].
  - split; [split; [discriminate|intros (_ & H & _); congruence]|discriminate].
  - split; [split; [discriminate|]|discriminate].
    intros (_ & _ & H & _). rewrite H in Hk. simpl in Hk.
    rewrite String.eqb_refl in Hk. discriminate.
  - split; [split|reflexivity].
    + intros [= <-]. now repeat split.
    + intros (_ & _ & _ & H). congruence.
  - split; [split; [discriminate|intros (_ & _ & _ & H); congruence]|discriminate].
  - split; [split; [discriminate|intros (_ & _ & _ & H); congruence]|discriminate].
Qed.

(* ================================================================ *)
(** *** More on the canonical codec *)

Lemma sequence_returns_iff {A : Type} (l : list (outcome A)) :
  returns (sequence l) <-> Forall returns l.
Proof.
  split; [|apply sequence_all_ret].
  induction l as [|x l IH]; simpl; [constructor|].
  destruct x as [a|msg]; simpl; [|intros [r Hr]; discriminate].
  destruct (sequence l) as [r|msg] eqn:Es; simpl; [|intros [r' Hr]; discriminate].
  intros _. constructor; [now exists a|]. apply IH. now exists r.
Qed.

Lemma bind_returns_iff {A B : Type} (x : outcome A) (f : A -> B) :
  returns (a <- x ;; Ret (f a)) <-> returns x.
Proof.
  destruct x as [a|msg]; simpl.
  - split; intros _; eexists; reflexivity.
  - split; intros [r Hr]; discriminate.
Qed.

Lemma jcsSerialize_number_returns (n : number) :
  returns (jcsSerialize (JNum n)) <-> Number_isSafeInteger n = true.
Proof.
  simpl. unfold Number_isInteger, Number_isSafeInteger.
  destruct (Number_isFinite n) eqn:Ef; simpl.
  - destruct (integer_value n) as [z|]; simpl.
    + destruct (Z.abs z <=? MAX_SAFE_INTEGER); simpl.
      * split; [reflexivity|]. intros _. destruct (is_negative_zero n); eexists; reflexivity.
      * split; [intros [r Hr]; discriminate|discriminate].
    + split; [intros [r Hr]; discriminate|discriminate].
  - destruct n; try discriminate; simpl; split;
      try discriminate; intros [r Hr]; discriminate.
Qed.

(** X8: canonicalization succeeds exactly on the values that hold no
    [undefined] and no number other than a safe integer, at any depth
    (inside arrays and as property values alike); on every other value it
    raises an exception. *)
Theorem canonicalization_succeeds_iff (v : value) :
  well_formed v ->
  (returns (canonicalizeEnvelope v) <-> canonicalizable v = true).
Proof.
  unfold canonicalizeEnvelope.
  induction v as [| |b|n|s|xs IH|fs IH] using value_induction; intros Hwf.
  - simpl. split; [intros [r Hr]; discriminate|discriminate].
  - simpl. split; [reflexivity|intros _; eexists; reflexivity].
  - simpl. split; [reflexivity|intros _; eexists; reflexivity].
  - apply jcsSerialize_number_returns.
  - simpl. split; [reflexivity|intros _; eexists; reflexivity].
  - inversion Hwf as [| | | | |xs' Hx|]; subst.
    cbn [jcsSerialize canonicalizable].
    rewrite (bind_returns_iff (sequence (map jcsSerialize xs))
               (fun parts => ("[" ++ String.concat "," parts ++ "]")%string)).
    rewrite sequence_returns_iff, Forall_map, forallb_forall, Forall_forall.
    rewrite Forall_forall in IH.
    split; intros H x Hin; apply (IH x Hin (Hx x Hin)); now apply H.
  - inversion Hwf as [| | | | | |fs' Hnd Hx]; subst.
    cbn [jcsSerialize canonicalizable]. cbv zeta.
    rewrite (bind_returns_iff
               (sequence (map (jcs_member (map (fun kv => (fst kv, jcsSerialize (snd kv))) fs))
                              (js_sort String.compare (Object_keys fs))))
               (fun parts => ("{" ++ String.concat "," parts ++ "}")%string)).
    rewrite sequence_returns_iff, Forall_map, forallb_forall, Forall_forall.
    rewrite Forall_forall in IH.
    assert (Hmem : forall k x, In (k, x) fs ->
              (returns (jcs_member (map (fun kv => (fst kv, jcsSerialize (snd kv))) fs) k)
               <-> returns (jcsSerialize x))).
    { intros k x Hin. unfold jcs_member. rewrite (assoc_map_snd jcsSerialize).
      rewrite (assoc_NoDup_In k x fs Hnd Hin). simpl.
      apply (bind_returns_iff (jcsSerialize x)
               (fun s => (JSON_stringify_string k ++ ":" ++ s)%string)). }
    split.
    + intros H [k x] Hin. simpl. apply (IH (k, x) Hin (Hx k x Hin)).
      apply (Hmem k x Hin). apply H.
      apply (Permutation_in k (js_sort_perm String.compare _)).
      unfold Object_keys. change k with (fst (k, x)). now apply in_map.
    + intros H k Hk.
      apply (Permutation_in k (Permutation_sym (js_sort_perm String.compare _))) in Hk.
      unfold Object_keys in Hk. apply in_map_iff in Hk as ([k' x] & <- & Hin). simpl.
      apply (Hmem k' x Hin). apply (IH (k', x) Hin (Hx k' x Hin)).
      exact (H (k', x) Hin).
Qed.


(* ================================================================ *)
(** *** The canonical form determines the data *)

Lemma string_app_assoc (a b c : string) : ((a ++ b) ++ c = a ++ (b ++ c))%string.
Proof. induction a as [|x a IH]; simpl; [reflexivity|now rewrite IH]. Qed.

Lemma string_app_cancel (a x y : string) : (a ++ x = a ++ y)%string -> x = y.
Proof. induction a as [|c a IH]; simpl; [auto|]. intros [= H]. auto. Qed.

(** Decimal digits, and what may follow a value in a canonical form: the
    end of the text or a character that is not a digit. *)
Definition is_digit (c : ascii) : bool :=
  ((48 <=? N_of_ascii c) && (N_of_ascii c <=? 57))%N.

Fixpoint all_digits (s : string) : bool :=
  match s with
  | EmptyString => true
  | String c s' => is_digit c && all_digits s'
  end.

Definition delimited (r : string) : Prop :=
  match r with
  | EmptyString => True
  | String c _ => is_digit c = false
  end.

Lemma digits_unique_split (d1 d2 r1 r2 : string) :
  all_digits d1 = true -> all_digits d2 = true -> delimited r1 -> delimited r2 ->
  (d1 ++ r1 = d2 ++ r2)%string -> d1 = d2 /\ r1 = r2.
Proof.
  revert d2. induction d1 as [|c d1 IH]; intros [|c' d2]; simpl.
  - auto.
  - intros _ H2 H1 _ ->. apply andb_true_iff in H2 as [H2 _]. simpl in H1. congruence.
  - intros H1 _ _ H2 <-. apply andb_true_iff in H1 as [H1 _]. simpl in H2. congruence.
  - intros H1 H2 D1 D2 [= <- E].
    apply andb_true_iff in H1 as [_ H1]. apply andb_true_iff in H2 as [_ H2].
    destruct (IH d2 H1 H2 D1 D2 E) as [-> ->]. auto.
Qed.

Lemma string_of_uint_digits (d : Decimal.uint) :
  all_digits (NilEmpty.string_of_uint d) = true.
Proof. induction d; simpl; auto. Qed.

Lemma decimal_shape (z : Z) :
  exists (negative : bool) (c : ascii) (ds : string),
    decimal z = ((if negative then "-" else EmptyString) ++ String c ds)%string
    /\ all_digits (String c ds) = true.
Proof.
  assert (H : forall d, d <> Decimal.Nil ->
            exists c ds, NilZero.string_of_uint d = String c ds
                         /\ all_digits (String c ds) = true).
  { intros d Hd. pose proof (string_of_uint_digits d) as Hall.
    destruct d; try contradiction; simpl in *; eauto. }
  unfold decimal. destruct z as [|p|p]; simpl.
  - exists false, "0"%char, EmptyString. now split.
  - destruct (H _ (DecimalPos.Unsigned.to_uint_nonnil p)) as (c & ds & E & Hd).
    exists false, c, ds. now rewrite E.
  - destruct (H _ (DecimalPos.Unsigned.to_uint_nonnil p)) as (c & ds & E & Hd).
    exists true, c, ds. now rewrite E.
Qed.

Lemma decimal_inj (z1 z2 : Z) : decimal z1 = decimal z2 -> z1 = z2.
Proof.
  unfold decimal. intros E. apply to_int_inj.
  assert (Hn : forall z, Z.to_int z <> Decimal.Pos Decimal.Nil
                         /\ Z.to_int z <> Decimal.Neg Decimal.Nil).
  { intros [|p|p]; simpl; split; try discriminate;
      intros [= H]; exact (DecimalPos.Unsigned.to_uint_nonnil p H). }
  destruct (Hn z1) as [A1 B1], (Hn z2) as [A2 B2].
  pose proof (NilZero.isi _ A1 B1) as I1. pose proof (NilZero.isi _ A2 B2) as I2.
  rewrite E in I1. congruence.
Qed.

Lemma decimal_unique_split (z1 z2 : Z) (r1 r2 : string) :
  delimited r1 -> delimited r2 ->
  (decimal z1 ++ r1 = decimal z2 ++ r2)%string -> z1 = z2 /\ r1 = r2.
Proof.
  intros D1 D2 E.
  destruct (decimal_shape z1) as (n1 & c1 & ds1 & E1 & H1).
  destruct (decimal_shape z2) as (n2 & c2 & ds2 & E2 & H2).
  assert (Hminus : forall c ds, all_digits (String c ds) = true -> c <> "-"%char).
  { intros c ds H ->. discriminate. }
  rewrite E1, E2 in E.
  assert (Hsame : n1 = n2 /\ (String c1 ds1 ++ r1 = String c2 ds2 ++ r2)%string).
  { destruct n1, n2; simpl in E.
    - injection E as E. split; [reflexivity|]. simpl. now f_equal.
    - injection E as E _. exfalso. now apply (Hminus c2 ds2 H2).
    - injection E as E _. exfalso. now apply (Hminus c1 ds1 H1).
    - now split. }
  destruct Hsame as [-> E'].
  destruct (digits_unique_split _ _ _ _ H1 H2 D1 D2 E') as [Ed ->].
  split; [|reflexivity]. apply decimal_inj. rewrite E1, E2. now rewrite Ed.
Qed.

(** String literals. *)
Definition all_ascii : list ascii := map ascii_of_nat (seq 0 256).

Lemma all_ascii_complete (c : ascii) : In c all_ascii.
Proof.
  unfold all_ascii. rewrite <- (ascii_nat_embedding c). apply in_map.
  apply in_seq. pose proof (nat_ascii_bounded c). lia.
Qed.

Fixpoint comparable (s1 s2 : string) : bool :=
  match s1, s2 with
  | String a s1', String b s2' => Ascii.eqb a b && comparable s1' s2'
  | _, _ => true
  end.

Lemma app_eq_comparable (s1 s2 x y : string) :
  (s1 ++ x = s2 ++ y)%string -> comparable s1 s2 = true.
Proof.
  revert s2. induction s1 as [|a s1 IH]; intros [|b s2]; simpl; auto.
  intros [= -> E]. rewrite Ascii.eqb_refl. simpl. eauto.
Qed.

Lemma escape_char_head (c : ascii) :
  exists h t, escape_char c = String h t /\ h <> dquote.
Proof.
  assert (H : forallb (fun c => match escape_char c with
                                | String h _ => negb (Ascii.eqb h dquote)
                                | EmptyString => false
                                end) all_ascii = true) by (vm_compute; reflexivity).
  rewrite forallb_forall in H. specialize (H c (all_ascii_complete c)).
  destruct (escape_char c) as [|h t]; [discriminate|].
  exists h, t. split; [reflexivity|].
  intros ->. rewrite Ascii.eqb_refl in H. discriminate.
Qed.

Lemma escape_char_unique_split (c1 c2 : ascii) (x y : string) :
  (escape_char c1 ++ x = escape_char c2 ++ y)%string -> c1 = c2 /\ x = y.
Proof.
  intros E.
  assert (H : forallb (fun a => forallb (fun b =>
                implb (comparable (escape_char a) (escape_char b)) (Ascii.eqb a b))
                all_ascii) all_ascii = true) by (vm_compute; reflexivity).
  rewrite forallb_forall in H. specialize (H c1 (all_ascii_complete c1)).
  rewrite forallb_forall in H. specialize (H c2 (all_ascii_complete c2)).
  rewrite (app_eq_comparable _ _ _ _ E) in H. simpl in H.
  apply Ascii.eqb_eq in H. subst c2. split; [reflexivity|].
  exact (string_app_cancel _ _ _ E).
Qed.

Lemma stringify_unique_split (s1 s2 r1 r2 : string) :
  (JSON_stringify_string s1 ++ r1 = JSON_stringify_string s2 ++ r2)%string ->
  s1 = s2 /\ r1 = r2.
Proof.
  unfold JSON_stringify_string. simpl. intros [= E].
  rewrite !string_app_assoc in E. simpl in E.
  revert s2 E. induction s1 as [|c1 s1 IH]; intros [|c2 s2]; simpl.
  - intros [= ->]. auto.
  - rewrite string_app_assoc.
    destruct (escape_char_head c2) as (h & t & -> & Hh). simpl.
    intros [= E _]. now elim Hh.
  - rewrite string_app_assoc.
    destruct (escape_char_head c1) as (h & t & -> & Hh). simpl.
    intros [= E _]. now elim Hh.
  - rewrite !string_app_assoc. intros E.
    apply escape_char_unique_split in E as [-> E].
    destruct (IH _ E) as [-> ->]. auto.
Qed.

(** The first character of a canonical form tells the kind of the value. *)
Definition starts (v : value) (c : ascii) : Prop :=
  match v with
  | JUndefined => False
  | JNull => c = "n"%char
  | JBool true => c = "t"%char
  | JBool false => c = "f"%char
  | JNum _ => is_digit c = true \/ c = "-"%char
  | JStr _ => c = dquote
  | JArr _ => c = "["%char
  | JObj _ => c = "{"%char
  end.

Lemma jcsSerialize_head (v : value) (s : string) :
  jcsSerialize v = Ret s -> exists c s', s = String c s' /\ starts v c.
Proof.
  destruct v as [| |b|n|t|xs|fs].
  - discriminate.
  - intros [= <-]. do 2 eexists. split; reflexivity.
  - destruct b; intros [= <-]; do 2 eexists; split; reflexivity.
  - intros H. apply jcsSerialize_number in H as (z & _ & _ & ->).
    destruct (decimal_shape z) as (neg & c & ds & -> & Hd).
    simpl in Hd. apply andb_true_iff in Hd as [Hd _].
    destruct neg; simpl; do 2 eexists; (split; [reflexivity|]);
      [now right|now left].
  - intros [= <-]. unfold JSON_stringify_string. do 2 eexists. split; reflexivity.
  - simpl. destruct (sequence (map jcsSerialize xs)); simpl; [|discriminate].
    intros [= <-]. do 2 eexists. split; reflexivity.
  - simpl. destruct (sequence _); simpl; [|discriminate].
    intros [= <-]. do 2 eexists. split; reflexivity.
Qed.

Lemma starts_not_closing (v : value) (c : ascii) :
  starts v c -> c <> "]"%char /\ c <> "}"%char /\ c <> ","%char.
Proof.
  destruct v as [| |[]|n|t|xs|fs]; simpl; try contradiction;
    try (intros ->; repeat split; discriminate).
  intros [H| ->]; repeat split; try discriminate; intros ->; discriminate.
Qed.

(** A sequence of items, each followed by a comma or by the closing
    character: when each item can be split off in one way only, so can the
    sequence. *)
Section Items.
Context {A B : Type}.
Variable close : ascii.
Variable R : A -> B -> Prop.
Variable fa : A -> outcome string.
Variable fb : B -> outcome string.
Hypothesis close_not_digit : is_digit close = false.
Hypothesis close_not_comma : close <> ","%char.
Hypothesis head_a : forall x s, fa x = Ret s -> exists c s', s = String c s' /\ c <> close.
Hypothesis head_b : forall y s, fb y = Ret s -> exists c s', s = String c s' /\ c <> close.

Definition item_unique (x : A) : Prop :=
  forall y sa sb ra rb,
    fa x = Ret sa -> fb y = Ret sb -> (sa ++ ra = sb ++ rb)%string ->
    delimited ra -> delimited rb -> ra = rb /\ R x y.

Fixpoint following (ps : list string) (r : string) : string :=
  match ps with
  | [] => String close r
  | p :: ps' => String "," (p ++ following ps' r)%string
  end.

Lemma following_delimited (ps : list string) (r : string) : delimited (following ps r).
Proof. destruct ps; simpl; [exact close_not_digit|reflexivity]. Qed.

Lemma concat_following (ps : list string) (r : string) :
  (String.concat "," ps ++ String close r)%string
  = match ps with
    | [] => String close r
    | p :: ps' => (p ++ following ps' r)%string
    end.
Proof.
  induction ps as [|p ps IH]; [reflexivity|].
  destruct ps as [|q ps]; [reflexivity|].
  change (String.concat "," (p :: q :: ps))
    with (p ++ "," ++ String.concat "," (q :: ps))%string.
  rewrite !string_app_assoc, IH. reflexivity.
Qed.

Lemma sequence_cons_ret {X : Type} (x : outcome X) (l : list (outcome X)) (ps : list X) :
  sequence (x :: l) = Ret ps ->
  exists p ps', ps = p :: ps' /\ x = Ret p /\ sequence l = Ret ps'.
Proof.
  simpl. destruct x as [p|]; simpl; [|discriminate].
  destruct (sequence l) as [ps'|]; simpl; [|discriminate].
  intros [= <-]. eauto.
Qed.

Lemma following_unique (xs : list A) :
  Forall item_unique xs ->
  forall ys pa pb ra rb,
    sequence (map fa xs) = Ret pa -> sequence (map fb ys) = Ret pb ->
    following pa ra = following pb rb ->
    Forall2 R xs ys /\ ra = rb.
Proof.
  induction 1 as [|x xs Hx Hxs IH]; intros [|y ys] pa pb ra rb Ha Hb E.
  - injection Ha as <-. injection Hb as <-. simpl in E. injection E as E. auto.
  - injection Ha as <-. apply sequence_cons_ret in Hb as (p & ps & -> & _ & _).
    simpl in E. injection E as E _. contradiction.
  - injection Hb as <-. apply sequence_cons_ret in Ha as (p & ps & -> & _ & _).
    simpl in E. injection E as E _. symmetry in E. contradiction.
  - apply sequence_cons_ret in Ha as (p & ps & -> & Hp & Hps).
    apply sequence_cons_ret in Hb as (q & qs & -> & Hq & Hqs).
    simpl in E. injection E as E.
    destruct (Hx y p q _ _ Hp Hq E (following_delimited _ _) (following_delimited _ _))
      as [E' Hr].
    destruct (IH ys ps qs ra rb Hps Hqs E') as [Hrest ->]. auto.
Qed.

Lemma items_unique (xs : list A) (ys : list B) (pa pb : list string) (ra rb : string) :
  Forall item_unique xs ->
  sequence (map fa xs) = Ret pa -> sequence (map fb ys) = Ret pb ->
  (String.concat "," pa ++ String close ra
   = String.concat "," pb ++ String close rb)%string ->
  Forall2 R xs ys /\ ra = rb.
Proof.
  intros Hall Ha Hb. rewrite !concat_following.
  destruct xs as [|x xs], ys as [|y ys].
  - injection Ha as <-. injection Hb as <-. intros [= ->]. auto.
  - injection Ha as <-. apply sequence_cons_ret in Hb as (q & qs & -> & Hq & _).
    destruct (head_b _ _ Hq) as (c & s' & -> & Hc). simpl. intros [= E _].
    now elim Hc.
  - injection Hb as <-. apply sequence_cons_ret in Ha as (p & ps & -> & Hp & _).
    destruct (head_a _ _ Hp) as (c & s' & -> & Hc). simpl. intros [= E _].
    now elim Hc.
  - apply sequence_cons_ret in Ha as (p & ps & -> & Hp & Hps).
    apply sequence_cons_ret in Hb as (q & qs & -> & Hq & Hqs).
    intros E. inversion Hall as [|? ? Hx Hxs]; subst.
    destruct (Hx y p q _ _ Hp Hq E (following_delimited _ _) (following_delimited _ _))
      as [E' Hr].
    destruct (following_unique xs Hxs ys ps qs ra rb Hps Hqs E') as [Hrest ->]. auto.
Qed.
End Items.

Lemma Forall2_In_left {A B : Type} (R : A -> B -> Prop) (l : list A) (l' : list B)
    (a : A) :
  Forall2 R l l' -> In a l -> exists b, In b l' /\ R a b.
Proof.
  induction 1 as [|x y l l' Hxy _ IH]; simpl; [intros []|].
  intros [->|H]; [eauto|]. destruct (IH H) as (b & Hb & Hr). eauto.
Qed.

Lemma Forall2_eq_left {A B : Type} (R : A -> B -> Prop) (g : B -> A)
    (l : list A) (l' : list B) :
  Forall2 (fun a b => a = g b /\ R a b) l l' -> l = map g l'.
Proof. induction 1 as [|x y l l' [-> _] _ IH]; simpl; congruence. Qed.

Lemma jcs_member_ret (fs : list (string * value)) (k s : string) :
  jcs_member (map (fun kv => (fst kv, jcsSerialize (snd kv))) fs) k = Ret s ->
  exists x sx, assoc k fs = Some x /\ jcsSerialize x = Ret sx
               /\ s = (JSON_stringify_string k ++ ":" ++ sx)%string.
Proof.
  unfold jcs_member.
  assert (E : assoc k (map (fun kv => (fst kv, jcsSerialize (snd kv))) fs)
              = option_map jcsSerialize (assoc k fs)).
  { induction fs as [|[k' x] fs IH]; simpl; [reflexivity|].
    destruct (String.eqb k k'); [reflexivity|exact IH]. }
  rewrite E. destruct (assoc k fs) as [x|]; simpl; [|discriminate].
  destruct (jcsSerialize x) as [sx|] eqn:Ex; simpl; [|discriminate].
  intros [= <-]. exists x, sx. now repeat split.
Qed.

(** The canonical form of a value, followed by the end of the text or by a
    character that is not a digit, can be read back in one way only. *)
Lemma jcsSerialize_unique_split (a : value) :
  forall b sa sb ra rb,
    jcsSerialize a = Ret sa -> jcsSerialize b = Ret sb ->
    (sa ++ ra = sb ++ rb)%string -> delimited ra -> delimited rb ->
    ra = rb /\ same_data a b.
Proof.
  clear sha256 ajv_validate localeCompare Number_toString same_object.
  induction a as [| |x|n|s|xs IH|fs IH] using value_induction;
    intros b sa sb ra rb Ha Hb E Da Db.
  1: discriminate.
  all: pose proof (jcsSerialize_head _ _ Ha) as (ca & ta & Eca & Sa);
    pose proof (jcsSerialize_head _ _ Hb) as (cb & tb & Ecb & Sb);
    assert (Ec : ca = cb) by (subst sa sb; simpl in E; congruence);
    subst cb;
    destruct b as [| |y|m|t|ys|gs];
    try (exfalso; simpl in Sa, Sb;
         repeat match goal with
                | b : bool |- _ => destruct b
                end;
         intuition (subst; discriminate)).
  - injection Ha as <-. injection Hb as <-. simpl in E. injection E as ->.
    split; [reflexivity|constructor].
  - assert (x = y) as <-.
    { destruct x, y; simpl in Sa, Sb; subst; try reflexivity; discriminate. }
    rewrite Ha in Hb. injection Hb as <-.
    split; [exact (string_app_cancel _ _ _ E)|constructor].
  - apply jcsSerialize_number in Ha as (z1 & H1 & _ & ->).
    apply jcsSerialize_number in Hb as (z2 & H2 & _ & ->).
    apply decimal_unique_split in E as [<- ->]; [|assumption..].
    split; [reflexivity|].
    apply integer_value_spec in H1, H2. econstructor; eassumption.
  - injection Ha as <-. injection Hb as <-.
    apply stringify_unique_split in E as [-> ->]. split; [reflexivity|constructor].
  - simpl in Ha, Hb.
    destruct (sequence (map jcsSerialize xs)) as [pa|] eqn:Epa; simpl in Ha;
      [|discriminate].
    destruct (sequence (map jcsSerialize ys)) as [pb|] eqn:Epb; simpl in Hb;
      [|discriminate].
    injection Ha as <-. injection Hb as <-.
    simpl in E. injection E as E. rewrite !string_app_assoc in E. simpl in E.
    assert (Hhead : forall v s, jcsSerialize v = Ret s ->
                      exists c s', s = String c s' /\ c <> "]"%char).
    { intros v s Hv. destruct (jcsSerialize_head _ _ Hv) as (c & s' & -> & Hc).
      exists c, s'. split; [reflexivity|]. now apply starts_not_closing in Hc. }
    destruct (items_unique "]"%char same_data jcsSerialize jcsSerialize eq_refl
                ltac:(discriminate) Hhead Hhead xs ys pa pb ra rb IH Epa Epb E)
      as [Hall ->].
    split; [reflexivity|now constructor].
  - simpl in Ha, Hb.
    set (sera := map (fun kv => (fst kv, jcsSerialize (snd kv))) fs) in *.
    set (serb := map (fun kv => (fst kv, jcsSerialize (snd kv))) gs) in *.
    set (ka := js_sort String.compare (Object_keys fs)) in *.
    set (kb := js_sort String.compare (Object_keys gs)) in *.
    destruct (sequence (map (jcs_member sera) ka)) as [pa|] eqn:Epa; simpl in Ha;
      [|discriminate].
    destruct (sequence (map (jcs_member serb) kb)) as [pb|] eqn:Epb; simpl in Hb;
      [|discriminate].
    injection Ha as <-. injection Hb as <-.
    simpl in E. injection E as E. rewrite !string_app_assoc in E. simpl in E.
    set (R := fun k1 k2 : string =>
                k1 = k2 /\ exists v w, assoc k1 fs = Some v /\ assoc k1 gs = Some w
                                       /\ same_data v w).
    assert (Hhead : forall ser k s, ser = sera \/ ser = serb ->
                      jcs_member ser k = Ret s ->
                      exists c s', s = String c s' /\ c <> "}"%char).
    { intros ser k s [-> | ->] Hk;
        apply jcs_member_ret in Hk as (v & sv & _ & _ & ->);
        unfold JSON_stringify_string; simpl; do 2 eexists;
        (split; [reflexivity|discriminate]). }
    assert (Hitem : Forall (item_unique R (jcs_member sera) (jcs_member serb)) ka).
    { apply Forall_forall. intros k _ k' s1 s2 r1 r2 H1 H2 E12 D1 D2.
      apply jcs_member_ret in H1 as (v & sv & Hv & Hsv & ->).
      apply jcs_member_ret in H2 as (w & sw & Hw & Hsw & ->).
      rewrite !string_app_assoc in E12.
      apply stringify_unique_split in E12 as [<- E12].
      simpl in E12. injection E12 as E12.
      rewrite Forall_forall in IH.
      destruct (IH (k, v) (assoc_In _ _ _ Hv) w sv sw r1 r2 Hsv Hsw E12 D1 D2)
        as [-> Hvw].
      split; [reflexivity|]. split; [reflexivity|]. eauto. }
    destruct (items_unique "}"%char R (jcs_member sera) (jcs_member serb) eq_refl
                ltac:(discriminate) (fun k s => Hhead sera k s (or_introl eq_refl))
                (fun k s => Hhead serb k s (or_intror eq_refl))
                ka kb pa pb ra rb Hitem Epa Epb E)
      as [Hall ->].
    split; [reflexivity|].
    assert (Hk : ka = kb).
    { rewrite <- (map_id kb). apply (Forall2_eq_left R (fun k => k)).
      eapply Forall2_impl; [|exact Hall]. intros k1 k2 [-> H].
      split; [reflexivity|]. split; [reflexivity|exact H]. }
    assert (Hin : forall k, In k (map fst fs) <-> In k (map fst gs)).
    { intros k. unfold ka, kb, Object_keys in Hk.
      split; intros H.
      - apply (Permutation_in _ (Permutation_sym (js_sort_perm String.compare _))).
        rewrite <- Hk. now apply (Permutation_in _ (js_sort_perm String.compare _)).
      - apply (Permutation_in _ (Permutation_sym (js_sort_perm String.compare _))).
        rewrite Hk. now apply (Permutation_in _ (js_sort_perm String.compare _)). }
    constructor.
    + intros k. rewrite !assoc_None_iff. now rewrite Hin.
    + intros k v w Hv Hw.
      assert (Hka : In k ka).
      { apply (Permutation_in _ (js_sort_perm String.compare _)).
        apply assoc_In in Hv. now apply (in_map fst) in Hv. }
      destruct (Forall2_In_left _ _ _ _ Hall Hka)
        as (k' & _ & _ & v' & w' & Hv' & Hw' & H).
      congruence.
Qed.

(** X25: canonicalization is injective on JSON data. Two values with the
    same canonical JSON are the same data: the same shape, the same strings
    and booleans, numbers of the same integer value, arrays equal item by
    item, objects with the same keys and the same data under each key. The
    canonical form forgets the insertion order of keys and the sign of zero,
    and nothing else. *)
Theorem canonicalization_injective (a b : value) (canonical_json : string) :
  canonicalizeEnvelope a = Ret canonical_json ->
  canonicalizeEnvelope b = Ret canonical_json ->
  same_data a b.
Proof.
  unfold canonicalizeEnvelope. intros Ha Hb.
  refine (proj2 (jcsSerialize_unique_split a b canonical_json canonical_json
                   EmptyString EmptyString Ha Hb eq_refl _ _)); exact I.
Qed.
(* ================================================================ *)
(** *** More on the trace index *)

Lemma filter_none {A : Type} (f : A -> bool) (l : list A) :
  (forall x, In x l -> f x = false) -> filter f l = [].
Proof.
  induction l as [|x l IH]; intros H; simpl; [reflexivity|].
  rewrite (H x (or_introl eq_refl)). apply IH. intros y Hy. apply H. now right.
Qed.

Section SortByKey.
Context {A : Type}.
Variable cmp : A -> A -> comparison.
Variable key : A -> Z.
Hypothesis cmp_gt : forall x y, cmp x y = Gt -> key y <= key x.
Hypothesis cmp_not_gt : forall x y, cmp x y <> Gt -> key x <= key y.

Lemma sort_insert_by_key (x : A) (l : list A) :
  StronglySorted (fun a b => key a <= key b) l ->
  StronglySorted (fun a b => key a <= key b) (sort_insert cmp x l).
Proof.
  induction l as [|y l IH]; intros Hs; simpl.
  - constructor; [constructor|constructor].
  - inversion Hs as [|? ? Hl Hy]; subst.
    destruct (cmp x y) eqn:E.
    + constructor; [exact Hs|]. constructor.
      * apply cmp_not_gt. congruence.
      * rewrite Forall_forall in *. intros z Hz.
        transitivity (key y); [apply cmp_not_gt; congruence|now apply Hy].
    + constructor; [exact Hs|]. constructor.
      * apply cmp_not_gt. congruence.
      * rewrite Forall_forall in *. intros z Hz.
        transitivity (key y); [apply cmp_not_gt; congruence|now apply Hy].
    + constructor; [now apply IH|].
      rewrite Forall_forall in *. intros z Hz.
      apply (Permutation_in z (Permutation_sym (sort_insert_perm cmp x l))) in Hz.
      destruct Hz as [<-|Hz]; [now apply cmp_gt|now apply Hy].
Qed.

Lemma js_sort_by_key (l : list A) :
  StronglySorted (fun a b => key a <= key b) (js_sort cmp l).
Proof.
  induction l as [|x l IH]; simpl; [constructor|]. now apply sort_insert_by_key.
Qed.
End SortByKey.

Lemma sorted_three_classes {A : Type} (key : A -> Z) (l : list A) :
  StronglySorted (fun a b => key a <= key b) l ->
  (forall x, In x l -> key x = 0 \/ key x = 1 \/ key x = 2) ->
  l = filter (fun x => key x =? 0) l
      ++ filter (fun x => key x =? 1) l
      ++ filter (fun x => key x =? 2) l.
Proof.
  induction l as [|x l IH]; intros Hs Hk; [reflexivity|].
  inversion Hs as [|? ? Hl Hx]; subst. rewrite Forall_forall in Hx.
  assert (IHl := IH Hl (fun y Hy => Hk y (or_intror Hy))).
  destruct (Hk x (or_introl eq_refl)) as [E|[E|E]]; simpl; rewrite E; simpl.
  - now rewrite <- IHl.
  - assert (H0 : filter (fun y => key y =? 0) l = []).
    { apply filter_none. intros y Hy. specialize (Hx y Hy). apply Z.eqb_neq. lia. }
    rewrite H0 in *. simpl in *. now rewrite <- IHl.
  - assert (H0 : filter (fun y => key y =? 0) l = []).
    { apply filter_none. intros y Hy. specialize (Hx y Hy). apply Z.eqb_neq. lia. }
    assert (H1 : filter (fun y => key y =? 1) l = []).
    { apply filter_none. intros y Hy. specialize (Hx y Hy). apply Z.eqb_neq. lia. }
    rewrite H0, H1 in *. simpl in *. now rewrite <- IHl.
Qed.

Lemma compareArtifacts_rank_gt (a b : LedgerEnvelopeArtifact) :
  compareArtifacts a b = Gt ->
  recordRank (la_record_type b) <= recordRank (la_record_type a).
Proof.
  unfold compareArtifacts. cbv zeta.
  destruct (Z.eqb_spec (recordRank (la_record_type a)) (recordRank (la_record_type b)))
    as [E|E]; simpl; [lia|].
  intros H. apply Z.compare_gt_iff in H. lia.
Qed.

Lemma compareArtifacts_rank_not_gt (a b : LedgerEnvelopeArtifact) :
  compareArtifacts a b <> Gt ->
  recordRank (la_record_type a) <= recordRank (la_record_type b).
Proof.
  unfold compareArtifacts. cbv zeta.
  destruct (Z.eqb_spec (recordRank (la_record_type a)) (recordRank (la_record_type b)))
    as [E|E]; simpl; [lia|].
  intros H. destruct (Z.compare_spec (recordRank (la_record_type a))
                        (recordRank (la_record_type b))); try lia. congruence.
Qed.

Lemma has_trace_id_iff (trace_id : string) (x : LedgerEnvelopeArtifact) :
  has_trace_id trace_id x = true
  <-> trace_id <> EmptyString /\ getTraceId (la_envelope x) = JStr trace_id.
Proof.
  unfold has_trace_id.
  destruct (getTraceId (la_envelope x)) as [| | | |tid| |];
    try (split; [discriminate|intros [_ H]; discriminate]).
  rewrite andb_true_iff, negb_true_iff, Nat.eqb_neq, String.eqb_eq.
  split.
  - intros [Hlen ->]. split; [|reflexivity]. intros ->. now apply Hlen.
  - intros [Hne [= ->]]. split; [|reflexivity]. destruct trace_id; [contradiction|].
    discriminate.
Qed.

(** X9: the resolver finds no chain exactly when the trace has no artifact.
    It returns null if and only if the requested trace identifier is the empty
    string (artifacts with an empty [trace_id] are never indexed) or no
    accepted artifact, and with [include_rejected_attempts] no rejected
    attempt either, carries that string as its [trace.trace_id]. *)
Theorem resolveTraceChain_none_iff
    (store : ArtifactStore) (trace_id : string) (include_rejected_attempts : bool) :
  resolveTraceChain store trace_id include_rejected_attempts = None
  <-> trace_id = EmptyString
      \/ ((forall h a, In (h, a) (accepted store) ->
             getTraceId (sa_envelope a) <> JStr trace_id)
          /\ (include_rejected_attempts = true ->
              forall h a, In (h, a) (rejected_attempts store) ->
                getTraceId (ra_envelope a) <> JStr trace_id)).
Proof.
  rewrite resolveTraceChain_ordered.
  assert (Hnil : trace_artifacts store trace_id include_rejected_attempts = []
                 <-> forall x, In x (ledger_artifacts store include_rejected_attempts) ->
                               has_trace_id trace_id x = false).
  { unfold trace_artifacts. split.
    - intros H x Hx. destruct (has_trace_id trace_id x) eqn:E; [|reflexivity].
      assert (Hin : In x (filter (has_trace_id trace_id)
                            (ledger_artifacts store include_rejected_attempts)))
        by (apply filter_In; now split).
      rewrite H in Hin. destruct Hin.
    - apply filter_none. }
  transitivity (trace_artifacts store trace_id include_rejected_attempts = []).
  { destruct (trace_artifacts store trace_id include_rejected_attempts);
      [now split|split; discriminate]. }
  rewrite Hnil. unfold ledger_artifacts. split.
  - intros H. destruct (string_dec trace_id EmptyString) as [->|Hne]; [now left|].
    right. split.
    + intros h a Hin E.
      assert (Hx : has_trace_id trace_id (accepted_artifact (h, a)) = false).
      { apply H. apply in_or_app. left. apply in_map_iff. now exists (h, a). }
      assert (Ht : has_trace_id trace_id (accepted_artifact (h, a)) = true)
        by (apply has_trace_id_iff; now split).
      congruence.
    + intros -> h a Hin E.
      assert (Hx : has_trace_id trace_id (rejected_artifact (h, a)) = false).
      { apply H. apply in_or_app. right. apply in_map_iff. now exists (h, a). }
      assert (Ht : has_trace_id trace_id (rejected_artifact (h, a)) = true)
        by (apply has_trace_id_iff; now split).
      congruence.
  - intros H x Hx. destruct (has_trace_id trace_id x) eqn:E; [|reflexivity].
    apply has_trace_id_iff in E as [Hne Ht].
    destruct H as [->|[Ha Hr]]; [contradiction|].
    apply in_app_or in Hx as [Hx|Hx].
    + apply in_map_iff in Hx as ([h a] & <- & Hin). now destruct (Ha h a Hin).
    + destruct include_rejected_attempts; [|destruct Hx].
      apply in_map_iff in Hx as ([h a] & <- & Hin). now destruct (Hr eq_refl h a Hin).
Qed.

(** X10: the three views of a resolved chain concatenate to the chain. When
    every artifact of the chain is of an allowed record type, the ordered
    chain is the authorization contexts, followed by the policy decisions,
    followed by the model and tool calls, each group in chain order;
    whatever the time keys and the collation are. *)
Theorem resolved_views_concatenate
    (store : ArtifactStore) (trace_id : string) (include_rejected_attempts : bool)
    (chain : ResolvedTraceChain) :
  resolveTraceChain store trace_id include_rejected_attempts = Some chain ->
  forallb (fun x => includes RECORD_TYPES (la_record_type x)) (rc_ordered chain) = true ->
  rc_ordered chain
  = rc_auth_context chain ++ rc_policy_decision chain ++ rc_evidence chain.
Proof.
  rewrite resolveTraceChain_ordered.
  destruct (trace_artifacts store trace_id include_rejected_attempts)
    as [|i0 items'] eqn:Ei; [discriminate|].
  remember (i0 :: items') as items eqn:Eitems. clear Ei Eitems i0 items'.
  cbv zeta. intros [= <-]. cbn [rc_ordered rc_auth_context rc_policy_decision rc_evidence].
  intros Htypes. rewrite forallb_forall in Htypes.
  set (ordered := js_sort compareArtifacts items) in *.
  assert (Hs : StronglySorted
                 (fun a b => recordRank (la_record_type a) <= recordRank (la_record_type b))
                 ordered).
  { apply (js_sort_by_key compareArtifacts (fun x => recordRank (la_record_type x))).
    - apply compareArtifacts_rank_gt.
    - apply compareArtifacts_rank_not_gt. }
  assert (Hrank : forall x, In x ordered ->
            (recordRank (la_record_type x) =? 0) = String.eqb (la_record_type x) "auth_context"
            /\ (recordRank (la_record_type x) =? 1)
               = String.eqb (la_record_type x) "policy_decision"
            /\ (recordRank (la_record_type x) =? 2) = is_evidence x
            /\ (recordRank (la_record_type x) = 0 \/ recordRank (la_record_type x) = 1
                \/ recordRank (la_record_type x) = 2)).
  { intros x Hx. specialize (Htypes x Hx). unfold is_evidence.
    destruct (RECORD_TYPES_cases _ Htypes) as [ -> | [ -> | [ -> | -> ] ] ];
      repeat split; auto. }
  rewrite (filter_ext_in (fun x => String.eqb (la_record_type x) "auth_context")
             (fun x => recordRank (la_record_type x) =? 0) ordered)
    by (intros x Hx; symmetry; apply (Hrank x Hx)).
  rewrite (filter_ext_in (fun x => String.eqb (la_record_type x) "policy_decision")
             (fun x => recordRank (la_record_type x) =? 1) ordered)
    by (intros x Hx; symmetry; apply (Hrank x Hx)).
  rewrite (filter_ext_in is_evidence
             (fun x => recordRank (la_record_type x) =? 2) ordered)
    by (intros x Hx; symmetry; apply (Hrank x Hx)).
  apply (sorted_three_classes (fun x => recordRank (la_record_type x)) ordered Hs).
  intros x Hx. apply (Hrank x Hx).
Qed.

(* ================================================================ *)
(** *** More on invariant replay *)

Lemma governance_check_none_iff (store : ArtifactStore) (trace_id : string)
    (x : LedgerEnvelopeArtifact) :
  traceIdOf (la_envelope x) = JStr trace_id ->
  (governance_check store x = None <-> prerequisites_hold store trace_id x).
Proof.
  intros Ht. unfold governance_check, prerequisites_hold, requireAccepted. cbv zeta.
  rewrite Ht.
  destruct (String.eqb_spec (la_record_type x) "auth_context") as [E1|N1].
  { rewrite E1. split; [|reflexivity]. intros _.
    split; [discriminate|intros [H|H]; discriminate]. }
  destruct (String.eqb_spec (la_record_type x) "policy_decision") as [E2|N2].
  { rewrite E2.
    destruct (getAccepted store (get (la_envelope x) "auth_context_envelope_sha256"))
      as [auth|].
    - destruct (strict_eq (traceIdOf (sa_envelope auth)) (JStr trace_id)) eqn:Es; simpl.
      + apply strict_eq_string in Es. split; [|reflexivity]. intros _.
        split; [intros _; now exists auth|intros [H|H]; discriminate].
      + split; [discriminate|]. intros [H _]. destruct (H eq_refl) as (a & [= <-] & Ha).
        apply strict_eq_string in Ha. congruence.
    - split; [discriminate|]. intros [H _]. destruct (H eq_refl) as (a & Ha & _).
      discriminate. }
  destruct (String.eqb_spec (la_record_type x) "model_call") as [E3|N3];
    destruct (String.eqb_spec (la_record_type x) "tool_call") as [E4|N4];
    cbn [orb].
  4:{ split; [|reflexivity]. intros _.
      split; [intros H; contradiction|intros [H|H]; contradiction]. }
  all: destruct (getAccepted store (get (la_envelope x) "auth_context_envelope_sha256"))
         as [auth|];
    [|split; [discriminate|];
      intros [_ H]; destruct (H ltac:(auto)) as (a & p & Ha & _); discriminate].
  all: destruct (getAccepted store (get (la_envelope x) "policy_decision_envelope_sha256"))
         as [pd|];
    [|split; [discriminate|];
      intros [_ H]; destruct (H ltac:(auto)) as (a & p & _ & Hp & _); discriminate].
  all: destruct (strict_eq (traceIdOf (sa_envelope auth)) (JStr trace_id)) eqn:Ea;
    destruct (strict_eq (traceIdOf (sa_envelope pd)) (JStr trace_id)) eqn:Ep;
    destruct (strict_eq (get (get (sa_envelope pd) "decision") "result") (JStr "allow"))
      eqn:Ed; cbn [negb orb];
    try (split; [discriminate|];
         intros [_ H];
         destruct (H ltac:(auto)) as (a & p & [= <-] & [= <-] & Ha' & Hp' & Hd');
         apply strict_eq_string in Ha', Hp', Hd'; congruence).
  all: apply strict_eq_string in Ea, Ep, Ed;
    (split; [|reflexivity]); intros _;
    (split; [intros H; congruence|intros _; now exists auth, pd]).
Qed.

Lemma schemaAndHashCheck_none_iff (e : value) (h : string) :
  schemaAndHashCheck e h = Ret None
  <-> v_ok (validateEnvelope e) = true /\ hashEnvelope e = Ret h.
Proof.
  unfold schemaAndHashCheck. split.
  - destruct (v_ok (validateEnvelope e)); simpl; [|discriminate].
    destruct (hashEnvelope e) as [h'|msg]; simpl; [|discriminate].
    destruct (String.eqb_spec h' h) as [->|Hne]; simpl; [now split|discriminate].
  - intros [Hv Hh]. now apply schemaAndHashCheck_passes.
Qed.

Lemma schemaAndHashCheck_failure (e : value) (h c : string) :
  schemaAndHashCheck e h = Ret (Some c) ->
  c = ReplayFailure.SCHEMA_REJECT \/ c = ReplayFailure.HASH_MISMATCH.
Proof.
  unfold schemaAndHashCheck.
  destruct (v_ok (validateEnvelope e)); simpl; [|intros [= <-]; now left].
  destruct (hashEnvelope e) as [h'|msg]; simpl; [|discriminate].
  destruct (String.eqb h' h); simpl; [discriminate|intros [= <-]; now right].
Qed.

Lemma integrity_loop_none_iff (chain : list LedgerEnvelopeArtifact) :
  integrity_loop chain = Ret None
  <-> forall x, In x chain ->
        schemaAndHashCheck (la_envelope x) (la_envelope_hash x) = Ret None.
Proof.
  split; [|apply integrity_loop_passes].
  induction chain as [|a chain IH]; simpl; [intros _ x []|].
  destruct (schemaAndHashCheck (la_envelope a) (la_envelope_hash a))
    as [[c|]|msg] eqn:E; simpl; try discriminate.
  intros H x [<-|Hx]; [exact E|now apply IH].
Qed.

Lemma integrity_loop_failure (chain : list LedgerEnvelopeArtifact) (c : string) :
  integrity_loop chain = Ret (Some c) ->
  c = ReplayFailure.SCHEMA_REJECT \/ c = ReplayFailure.HASH_MISMATCH.
Proof.
  induction chain as [|a chain IH]; simpl; [discriminate|].
  destruct (schemaAndHashCheck (la_envelope a) (la_envelope_hash a))
    as [[c'|]|msg] eqn:E; simpl; try discriminate.
  - intros [= <-]. now apply schemaAndHashCheck_failure in E.
  - exact IH.
Qed.


Lemma governance_loop_none_iff (store : ArtifactStore)
    (chain : list LedgerEnvelopeArtifact) :
  governance_loop store chain = None
  <-> forall x, In x chain -> governance_check store x = None.
Proof.
  split; [|apply governance_loop_passes].
  induction chain as [|a chain IH]; simpl; [intros _ x []|].
  destruct (governance_check store a) eqn:E; [discriminate|].
  intros H x [<-|Hx]; [exact E|now apply IH].
Qed.

Lemma governance_check_failure (store : ArtifactStore) (x : LedgerEnvelopeArtifact)
    (c : string) :
  governance_check store x = Some c ->
  c = ReplayFailure.MISSING_PREREQ \/ c = ReplayFailure.TRACE_VIOLATION
  \/ c = ReplayFailure.UNAUTHORIZED_EXECUTION.
Proof.
  unfold governance_check. cbv zeta.
  repeat match goal with
         | |- context [if ?b then _ else _] => destruct b
         | |- context [match requireAccepted ?s ?h with _ => _ end] =>
             destruct (requireAccepted s h)
         end; try discriminate; intros [= <-]; auto.
Qed.

Lemma governance_loop_failure (store : ArtifactStore)
    (chain : list LedgerEnvelopeArtifact) (c : string) :
  governance_loop store chain = Some c ->
  c = ReplayFailure.MISSING_PREREQ \/ c = ReplayFailure.TRACE_VIOLATION
  \/ c = ReplayFailure.UNAUTHORIZED_EXECUTION.
Proof.
  induction chain as [|a chain IH]; simpl; [discriminate|].
  destruct (governance_check store a) eqn:E; [|exact IH].
  intros [= <-]. now apply governance_check_failure in E.
Qed.

Lemma resolved_chain_members (store : ArtifactStore) (trace_id : string)
    (include_rejected_attempts : bool) (chain : ResolvedTraceChain) :
  resolveTraceChain store trace_id include_rejected_attempts = Some chain ->
  rc_ordered chain <> []
  /\ forall x, In x (rc_ordered chain) <->
               In x (trace_artifacts store trace_id include_rejected_attempts).
Proof.
  rewrite resolveTraceChain_ordered.
  destruct (trace_artifacts store trace_id include_rejected_attempts)
    as [|i0 items'] eqn:Ei; [discriminate|].
  remember (i0 :: items') as items eqn:Eitems.
  cbv zeta. intros [= <-]. cbn [rc_ordered].
  pose proof (js_sort_perm compareArtifacts items) as Hp.
  split.
  - intros Hnil. rewrite Hnil in Hp. apply Permutation_sym, Permutation_nil in Hp.
    congruence.
  - intros x. split; intros H.
    + now apply (Permutation_in x (Permutation_sym Hp)).
    + now apply (Permutation_in x Hp).
Qed.

Lemma resolved_chain_trace_id (store : ArtifactStore) (trace_id : string)
    (include_rejected_attempts : bool) (chain : ResolvedTraceChain)
    (x : LedgerEnvelopeArtifact) :
  resolveTraceChain store trace_id include_rejected_attempts = Some chain ->
  In x (rc_ordered chain) ->
  traceIdOf (la_envelope x) = JStr trace_id.
Proof.
  intros Hc Hx. apply (resolved_chain_members _ _ _ _ Hc) in Hx.
  unfold trace_artifacts in Hx. apply filter_In in Hx as [_ Ht].
  now apply has_trace_id_iff in Ht.
Qed.

Lemma invariantReplay_run (store : ArtifactStore) (trace_id : string)
    (include_rejected_attempts persist_result : bool) (clock_iso : string)
    (o : ReplayOutput) :
  fst (invariantReplay store trace_id include_rejected_attempts persist_result
         clock_iso) = Ret o ->
  let record := mkReplayRecord "invariant" trace_id [] "fail" clock_iso None None in
  (ro_artifact_sha256 o = None <-> persist_result = false)
  /\ ((resolveTraceChain store trace_id include_rejected_attempts = None
       /\ ro_record o = with_failure record ReplayFailure.CHAIN_NOT_FOUND)
      \/ exists chain,
           resolveTraceChain store trace_id include_rejected_attempts = Some chain
           /\ ((exists c, chain_verdict store chain = Ret (Some c)
                          /\ ro_record o
                             = with_failure
                                 (with_hashes record
                                    (map la_envelope_hash (rc_ordered chain))) c)
               \/ (chain_verdict store chain = Ret None
                   /\ ro_record o
                      = with_result
                          (with_hashes record
                             (map la_envelope_hash (rc_ordered chain))) "pass"))).
Proof.
  assert (Hfin : forall s r,
            fst (finalize s r persist_result) = Ret o ->
            ro_record o = r /\ (ro_artifact_sha256 o = None <-> persist_result = false)).
  { intros s r. unfold finalize. destruct persist_result.
    - destruct (persistReplayResult s (record_value r)) as [[[sha c]|msg] s'];
        simpl; [|discriminate].
      intros [= <-]. simpl. split; [reflexivity|split; discriminate].
    - simpl. intros [= <-]. simpl. now split. }
  unfold invariantReplay. cbv zeta.
  destruct (resolveTraceChain store trace_id include_rejected_attempts) as [chain|].
  - destruct (integrity_loop (rc_ordered chain)) as [[c|]|msg] eqn:Ei;
      [| |discriminate].
    + intros H. apply Hfin in H as [Hr Hs]. split; [exact Hs|].
      right. exists chain. split; [reflexivity|]. left. exists c.
      unfold chain_verdict. rewrite Ei. split; [reflexivity|exact Hr].
    + destruct (governance_loop store (rc_ordered chain)) as [c|] eqn:Eg.
      * intros H. apply Hfin in H as [Hr Hs]. split; [exact Hs|].
        right. exists chain. split; [reflexivity|]. left. exists c.
        unfold chain_verdict. rewrite Ei, Eg. split; [reflexivity|exact Hr].
      * intros H. apply Hfin in H as [Hr Hs]. split; [exact Hs|].
        right. exists chain. split; [reflexivity|]. right.
        unfold chain_verdict. rewrite Ei, Eg. split; [reflexivity|exact Hr].
  - intros H. apply Hfin in H as [Hr Hs]. split; [exact Hs|]. now left.
Qed.

Lemma chain_verdict_none_iff (store : ArtifactStore) (trace_id : string)
    (include_rejected_attempts : bool) (chain : ResolvedTraceChain) :
  resolveTraceChain store trace_id include_rejected_attempts = Some chain ->
  (chain_verdict store chain = Ret None
   <-> forall x, In x (rc_ordered chain) ->
         v_ok (validateEnvelope (la_envelope x)) = true
         /\ hashEnvelope (la_envelope x) = Ret (la_envelope_hash x)
         /\ prerequisites_hold store trace_id x).
Proof.
  intros Hc. unfold chain_verdict. split.
  - destruct (integrity_loop (rc_ordered chain)) as [[c|]|msg] eqn:Ei;
      try discriminate.
    intros [= Hg]. intros x Hx.
    pose proof (proj1 (integrity_loop_none_iff _) Ei x Hx) as Hi.
    apply schemaAndHashCheck_none_iff in Hi as [Hv Hh].
    split; [exact Hv|]. split; [exact Hh|].
    apply (governance_check_none_iff store trace_id x
             (resolved_chain_trace_id _ _ _ _ _ Hc Hx)).
    exact (proj1 (governance_loop_none_iff _ _) Hg x Hx).
  - intros H.
    rewrite (proj2 (integrity_loop_none_iff (rc_ordered chain))).
    + f_equal. apply governance_loop_none_iff. intros x Hx.
      apply (governance_check_none_iff store trace_id x
               (resolved_chain_trace_id _ _ _ _ _ Hc Hx)).
      apply (H x Hx).
    + intros x Hx. apply schemaAndHashCheck_none_iff.
      destruct (H x Hx) as (Hv & Hh & _). now split.
Qed.

Lemma chain_verdict_failure (store : ArtifactStore) (chain : ResolvedTraceChain)
    (c : string) :
  chain_verdict store chain = Ret (Some c) ->
  In c [ReplayFailure.SCHEMA_REJECT; ReplayFailure.HASH_MISMATCH;
        ReplayFailure.MISSING_PREREQ; ReplayFailure.TRACE_VIOLATION;
        ReplayFailure.UNAUTHORIZED_EXECUTION].
Proof.
  unfold chain_verdict.
  destruct (integrity_loop (rc_ordered chain)) as [[c'|]|msg] eqn:Ei;
    try discriminate.
  - intros [= <-]. apply integrity_loop_failure in Ei as [-> | ->];
      cbn [In]; repeat (first [now left|right]).
  - intros [= Hg]. apply governance_loop_failure in Hg as [-> |[-> | ->]];
      cbn [In]; repeat (first [now left|right]).
Qed.

(** X11: the verdict of invariant replay is the conjunction of its checks.
    When invariant replay returns, its result is "pass" exactly when the
    trace resolves to a chain and every artifact of the chain validates,
    is stored under the hash of its own envelope, and names accepted
    artifacts: the hash it gives as its authorization context (and, for a
    call, the hash it gives as its policy decision) is that of an accepted
    artifact with the replayed trace identifier, and the [decision.result]
    of the artifact named as policy decision is "allow". *)
Theorem invariantReplay_pass_iff
    (store : ArtifactStore) (trace_id : string)
    (include_rejected_attempts persist_result : bool) (clock_iso : string)
    (o : ReplayOutput) :
  fst (invariantReplay store trace_id include_rejected_attempts persist_result
         clock_iso) = Ret o ->
  (rp_result (ro_record o) = "pass"
   <-> exists chain,
         resolveTraceChain store trace_id include_rejected_attempts = Some chain
         /\ forall x, In x (rc_ordered chain) ->
              v_ok (validateEnvelope (la_envelope x)) = true
              /\ hashEnvelope (la_envelope x) = Ret (la_envelope_hash x)
              /\ prerequisites_hold store trace_id x).
Proof.
  intros Hrun. destruct (invariantReplay_run _ _ _ _ _ _ Hrun) as [_ Hcases].
  destruct Hcases as [[Hnone ->]|(chain & Hc & [(c & Hv & ->)|[Hv ->]])].
  - simpl. split; [discriminate|]. intros (chain & Hc & _). congruence.
  - simpl. split; [discriminate|]. intros (chain' & Hc' & H).
    assert (chain' = chain) by congruence. subst chain'.
    apply (chain_verdict_none_iff _ _ _ _ Hc) in H. congruence.
  - simpl. split; [|reflexivity]. intros _. exists chain. split; [exact Hc|].
    now apply (chain_verdict_none_iff _ _ _ _ Hc).
Qed.

(** X12: the shape of the record of invariant replay. A returned record has
    replay type "invariant", the requested trace as target, the given clock
    as [generated_at] and no reference trace; its result is "pass" with no
    failure class, or "fail" with one of REPLAY_CHAIN_NOT_FOUND,
    SCHEMA_REJECT, HASH_MISMATCH, MISSING_PREREQ, TRACE_VIOLATION,
    UNAUTHORIZED_EXECUTION; the class is REPLAY_CHAIN_NOT_FOUND exactly when
    the trace resolves to no chain; the input hashes are those of the
    resolved chain in chain order (none without a chain); and the output
    carries an artifact hash exactly when the result was persisted. *)
Theorem invariantReplay_record_shape
    (store : ArtifactStore) (trace_id : string)
    (include_rejected_attempts persist_result : bool) (clock_iso : string)
    (o : ReplayOutput) :
  fst (invariantReplay store trace_id include_rejected_attempts persist_result
         clock_iso) = Ret o ->
  rp_replay_type (ro_record o) = "invariant"
  /\ rp_target_trace_id (ro_record o) = trace_id
  /\ rp_generated_at (ro_record o) = clock_iso
  /\ rp_reference_trace_id (ro_record o) = None
  /\ (rp_result (ro_record o) = "pass" /\ rp_failure_class (ro_record o) = None
      \/ rp_result (ro_record o) = "fail"
         /\ exists c, rp_failure_class (ro_record o) = Some c
                      /\ In c [ReplayFailure.CHAIN_NOT_FOUND;
                               ReplayFailure.SCHEMA_REJECT;
                               ReplayFailure.HASH_MISMATCH;
                               ReplayFailure.MISSING_PREREQ;
                               ReplayFailure.TRACE_VIOLATION;
                               ReplayFailure.UNAUTHORIZED_EXECUTION])
  /\ (rp_failure_class (ro_record o) = Some ReplayFailure.CHAIN_NOT_FOUND
      <-> resolveTraceChain store trace_id include_rejected_attempts = None)
  /\ rp_input_envelope_hashes (ro_record o)
     = match resolveTraceChain store trace_id include_rejected_attempts with
       | Some chain => map la_envelope_hash (rc_ordered chain)
       | None => []
       end
  /\ (ro_artifact_sha256 o = None <-> persist_result = false).
Proof.
  intros Hrun. destruct (invariantReplay_run _ _ _ _ _ _ Hrun) as [Hsha Hcases].
  destruct Hcases as [[Hnone ->]|(chain & Hc & [(c & Hv & ->)|[Hv ->]])];
    rewrite ?Hnone, ?Hc; cbn [with_failure with_hashes with_result rp_replay_type
      rp_target_trace_id rp_generated_at rp_reference_trace_id rp_result
      rp_failure_class rp_input_envelope_hashes].
  - split; [reflexivity|]. split; [reflexivity|]. split; [reflexivity|].
    split; [reflexivity|]. split; [|split; [now split|split; [reflexivity|exact Hsha]]].
    right. split; [reflexivity|]. eexists. split; [reflexivity|now left].
  - apply chain_verdict_failure in Hv.
    split; [reflexivity|]. split; [reflexivity|]. split; [reflexivity|].
    split; [reflexivity|]. split; [|split; [|split; [reflexivity|exact Hsha]]].
    + right. split; [reflexivity|]. exists c. split; [reflexivity|now right].
    + split; [|discriminate]. intros [= ->]. simpl in Hv.
      repeat (destruct Hv as [Hv|Hv]; [discriminate|]). destruct Hv.
  - split; [reflexivity|]. split; [reflexivity|]. split; [reflexivity|].
    split; [reflexivity|]. split; [|split; [|split; [reflexivity|exact Hsha]]].
    + left. now split.
    + split; discriminate.
Qed.


(* ================================================================ *)
(** *** From the gate to the trace index *)

Lemma resolveTraceChain_member (store : ArtifactStore) (trace_id : string)
    (include_rejected_attempts : bool) (x : LedgerEnvelopeArtifact) :
  In x (trace_artifacts store trace_id include_rejected_attempts) ->
  exists chain,
    resolveTraceChain store trace_id include_rejected_attempts = Some chain
    /\ In x (rc_ordered chain)
    /\ (String.eqb (la_record_type x) "auth_context" = true ->
        In x (rc_auth_context chain))
    /\ (String.eqb (la_record_type x) "policy_decision" = true ->
        In x (rc_policy_decision chain))
    /\ (is_evidence x = true -> In x (rc_evidence chain)).
Proof.
  intros Hin. rewrite resolveTraceChain_ordered.
  destruct (trace_artifacts store trace_id include_rejected_attempts)
    as [|i items] eqn:E; [contradiction|].
  assert (Hs : In x (js_sort compareArtifacts (i :: items)))
    by (apply (Permutation_in _ (js_sort_perm compareArtifacts _)); exact Hin).
  eexists. split; [reflexivity|]. cbn [rc_ordered rc_auth_context rc_policy_decision
                                       rc_evidence].
  split; [exact Hs|].
  repeat split; intros H; apply filter_In; now split.
Qed.

Lemma has_trace_id_intro (trace_id : string) (x : LedgerEnvelopeArtifact) :
  trace_id <> EmptyString -> getTraceId (la_envelope x) = JStr trace_id ->
  has_trace_id trace_id x = true.
Proof.
  intros Hne H. unfold has_trace_id. rewrite H, String.eqb_refl.
  destruct trace_id; [contradiction|reflexivity].
Qed.

(** X26: what the gate accepts, the trace index finds. After a commit that
    accepts a record whose trace identifier is a non-empty string, the chain
    of that trace resolves, with or without rejected attempts, and holds the
    record as an accepted artifact under the returned hash, with the
    returned canonical JSON, in the ordered chain and in the view of its
    kind. *)
Theorem accepted_record_is_resolved
    (store store' : ArtifactStore) (record_type declared_envelope_hash : string)
    (envelope : value) (envelope_hash canonical_json trace_id : string)
    (include_rejected_attempts : bool) :
  commit_action store record_type declared_envelope_hash envelope
  = (Ret (Accepted envelope_hash canonical_json), store') ->
  getTraceId envelope = JStr trace_id ->
  trace_id <> EmptyString ->
  let art := mkLedgerEnvelopeArtifact envelope_hash record_type envelope
               canonical_json status_accepted None None in
  exists chain,
    resolveTraceChain store' trace_id include_rejected_attempts = Some chain
    /\ In art (rc_ordered chain)
    /\ (record_type = "auth_context" -> In art (rc_auth_context chain))
    /\ (record_type = "policy_decision" -> In art (rc_policy_decision chain))
    /\ (record_type = "model_call" \/ record_type = "tool_call" ->
        In art (rc_evidence chain)).
Proof.
  intros Hrun Ht Hne art.
  pose proof (commit_action_run store record_type declared_envelope_hash envelope) as Hg.
  rewrite Hrun in Hg. cbn [fst snd] in Hg.
  inversion Hg as [| | | | |canon h p Hrt Hv Hk Hc Hh Hd Hp Hc' Ha Eo Es].
  subst canon h store'. clear Hg Hrun.
  set (store' := putAccepted store _) in *.
  assert (Hin : In art (trace_artifacts store' trace_id include_rejected_attempts)).
  { unfold trace_artifacts, ledger_artifacts. apply filter_In.
    split; [|now apply has_trace_id_intro].
    apply in_or_app. left.
    change art with (accepted_artifact
                       (envelope_hash,
                        mkStoredArtifact envelope_hash record_type envelope
                          canonical_json)).
    apply in_map. apply map_get_In. simpl. apply map_get_set_same. }
  destruct (resolveTraceChain_member _ _ _ _ Hin) as (chain & Hc1 & Ho & Hau & Hpd & Hev).
  exists chain. split; [exact Hc1|]. split; [exact Ho|].
  repeat split.
  - intros ->. now apply Hau.
  - intros ->. now apply Hpd.
  - intros [-> | ->]; now apply Hev.
Qed.

(** X27: a persisted rejected attempt is found only on request. After a
    commit rejected past the hash computation (HASH_MISMATCH, MISSING_PREREQ,
    TRACE_VIOLATION, UNAUTHORIZED_EXECUTION) of a record whose trace
    identifier is a non-empty string, the chain of that trace resolved with
    [include_rejected_attempts] holds the attempt, marked as a rejected
    attempt with its classification and error kind; and every artifact of a
    chain resolved without that option is an accepted one, the view of an
    entry of the accepted namespace as it was before the call. *)
Theorem rejected_attempt_is_resolved_on_request
    (store : ArtifactStore) (record_type declared_envelope_hash : string)
    (envelope : value) (classification error_kind computed canonical_json : string)
    (trace_id : string) :
  fst (commit_action store record_type declared_envelope_hash envelope)
  = Ret (Rejected classification error_kind (Some (computed, canonical_json))) ->
  getTraceId envelope = JStr trace_id ->
  trace_id <> EmptyString ->
  let store' := snd (commit_action store record_type declared_envelope_hash envelope) in
  (exists chain,
     resolveTraceChain store' trace_id true = Some chain
     /\ In (mkLedgerEnvelopeArtifact computed record_type envelope canonical_json
              status_rejected_attempt (Some classification) (Some error_kind))
          (rc_ordered chain))
  /\ (forall t chain,
        resolveTraceChain store' t false = Some chain ->
        forall x, In x (rc_ordered chain) ->
          la_ledger_status x = status_accepted
          /\ exists a, In (la_envelope_hash x, a) (accepted store)
                       /\ x = accepted_artifact (la_envelope_hash x, a)).
Proof.
  intros Hrun Ht Hne.
  pose proof (commit_action_run store record_type declared_envelope_hash envelope) as Hg.
  destruct (commit_action store record_type declared_envelope_hash envelope)
    as [r store']. cbn [fst snd] in *. subst r.
  inversion Hg as [| | | |canon h c k Hrt Hv Hk Hc Hh Hwhy Eo Es|]. subst.
  assert (Hper : includes PERSIST_REJECTED_ATTEMPT classification = true).
  { destruct Hwhy as [(-> & _)|[(_ & Hf)|(_ & p & _ & Hf)]].
    - reflexivity.
    - now destruct (resolvePrereqs_fail_kind _ _ _ _ _ Hrt Hf) as [-> _].
    - destruct Hf as [Hf|[_ Hf]].
      + now apply enforceTraceContinuity_fail_class in Hf as [-> _].
      + now apply enforceAuthorization_fail_class in Hf as [-> _]. }
  rewrite persistRejectedAttemptIfRequired_persisted by exact Hper.
  set (attempt := mkStoredRejectedAttempt computed record_type envelope canonical_json
                    classification error_kind).
  split.
  - set (art := mkLedgerEnvelopeArtifact computed record_type envelope canonical_json
                  status_rejected_attempt (Some classification) (Some error_kind)).
    assert (Hin : In art (trace_artifacts (putRejectedAttempt store attempt)
                            trace_id true)).
    { unfold trace_artifacts, ledger_artifacts. apply filter_In.
      split; [|now apply has_trace_id_intro].
      apply in_or_app. right.
      change art with (rejected_artifact (computed, attempt)).
      apply in_map. apply map_get_In. simpl. apply map_get_set_same. }
    destruct (resolveTraceChain_member _ _ _ _ Hin) as (chain & Hc1 & Ho & _).
    now exists chain.
  - intros t chain Hres x Hx.
    apply resolved_chain_members in Hres as [_ Hmem].
    apply Hmem in Hx. apply In_trace_artifacts in Hx as [(h' & a & Hin & ->) _].
    simpl in Hin. split; [reflexivity|]. exists a. split; [exact Hin|reflexivity].
Qed.
(* ================================================================ *)
(** *** More on the persistence of replay results *)

Lemma map_set_twice {V : Type} (k : string) (v : V) (m : JsMap V) :
  map_set k v (map_set k v m) = map_set k v m.
Proof. apply map_set_same_value, map_get_set_same. Qed.

(** X14: persisting a replay result into a store is an insert that a lookup
    reads back. When [persistReplayResult] returns, the hash it returns is
    the digest of the canonical JSON it returns, which is the canonical form
    of the result; the bucket of other artifacts then exists and maps that
    hash to the result, its canonical JSON and the type "replay_result";
    every other key of the bucket and both envelope namespaces are as
    before. When canonicalization of the result throws, the call throws the
    same exception and the store is untouched (no bucket is attached). *)
Theorem persistReplayResult_round_trip (store : ArtifactStore) (result : value) :
  (forall sha canonical_json store',
     persistReplayResult store result = (Ret (sha, canonical_json), store') ->
     canonicalizeEnvelope result = Ret canonical_json
     /\ sha = sha256 canonical_json
     /\ (exists m,
           other_artifacts store' = Some m
           /\ map_get sha m
              = Some (mkOtherArtifact sha canonical_json result "replay_result")
           /\ forall k, k <> sha -> map_get k m = map_get k (bucket store))
     /\ accepted store' = accepted store
     /\ rejected_attempts store' = rejected_attempts store)
  /\ (forall msg,
        canonicalizeEnvelope result = Throw msg ->
        persistReplayResult store result = (Throw msg, store)).
Proof.
  unfold persistReplayResult, sealReplayResult, hashEnvelope.
  destruct (canonicalizeEnvelope result) as [canon|msg]; simpl.
  - split; [|discriminate].
    intros sha canonical_json store' [= <- <- <-]. simpl.
    repeat split.
    eexists. split; [reflexivity|]. split; [apply map_get_set_same|].
    intros k Hk. now rewrite map_get_set_other.
  - split; [discriminate|]. now intros m [= ->].
Qed.

(** X15: persisting the same replay result twice is the same as persisting
    it once, on both persistence paths: the second call returns what the
    first returned and leaves the store (the ledger) as the first left it. *)
Theorem persistReplayResult_idempotent (result : value) :
  (forall store : ArtifactStore,
     let once := persistReplayResult store result in
     persistReplayResult (snd once) result = once)
  /\ (forall ledger : Ledger,
        let once := persistReplayResult_ledger ledger result in
        persistReplayResult_ledger (snd once) result = once).
Proof.
  split.
  - intros store. cbv zeta. unfold persistReplayResult.
    destruct (sealReplayResult result) as [[canon sha]|msg]; [|reflexivity].
    cbn [snd other_artifacts accepted rejected_attempts].
    now rewrite map_set_twice.
  - intros ledger. cbv zeta.
    unfold persistReplayResult_ledger.
    destruct (canonicalizeReplayResult result) as [canon|msg]; [|reflexivity].
    destruct (hashReplayResult result) as [h|msg]; [|reflexivity].
    cbn [snd]. unfold putReplayResult. cbn [ledger_store replay_results].
    now rewrite map_set_twice.
Qed.

(** X16: emitting a replay result into a ledger is an insert that
    [getReplayResult] reads back. When the ledger's [persistReplayResult]
    returns an entry, the entry holds the result, its canonical JSON and the
    digest of that JSON; afterwards [getReplayResult] of that digest yields
    the entry, results stored under other hashes are as before, and the
    envelope store of the ledger is untouched. *)
Theorem ledger_replay_result_round_trip
    (ledger ledger' : Ledger) (result : value) (entry : ReplayResultEntry) :
  persistReplayResult_ledger ledger result = (Ret entry, ledger') ->
  rr_artifact entry = result
  /\ canonicalizeEnvelope result = Ret (rr_canonical_json entry)
  /\ rr_artifact_hash entry = sha256 (rr_canonical_json entry)
  /\ getReplayResult ledger' (rr_artifact_hash entry) = Some entry
  /\ (forall h, h <> rr_artifact_hash entry ->
                getReplayResult ledger' h = getReplayResult ledger h)
  /\ ledger_store ledger' = ledger_store ledger.
Proof.
  unfold persistReplayResult_ledger, canonicalizeReplayResult, hashReplayResult,
    hashEnvelope, getReplayResult.
  destruct (canonicalizeEnvelope result) as [canon|msg]; simpl; [|discriminate].
  intros [= <- <-]. simpl. repeat split.
  - apply map_get_set_same.
  - intros h Hh. now rewrite map_get_set_other.
Qed.

(* ================================================================ *)
(** *** Forensic replay over a store *)

Lemma forensic_integrity_loop_none_iff (chain : list LedgerEnvelopeArtifact) :
  forensic_integrity_loop chain = Ret None
  <-> forall x, In x chain ->
        v_ok (validateEnvelope (la_envelope x)) = true
        /\ canonicalizeEnvelope (la_envelope x) = Ret (la_canonical_json x)
        /\ hashEnvelope (la_envelope x) = Ret (la_envelope_hash x).
Proof.
  induction chain as [|a chain IH]; simpl.
  - split; [intros _ x []|reflexivity].
  - destruct (v_ok (validateEnvelope (la_envelope a))) eqn:Hv; simpl.
    2:{ split; [discriminate|]. intros H.
        destruct (H a (or_introl eq_refl)) as (Hv' & _). congruence. }
    destruct (canonicalizeEnvelope (la_envelope a)) as [canon|msg] eqn:Hc; simpl.
    2:{ split; [discriminate|]. intros H.
        destruct (H a (or_introl eq_refl)) as (_ & Hc' & _). congruence. }
    destruct (String.eqb_spec canon (la_canonical_json a)) as [Ec|Nc]; simpl.
    2:{ split; [discriminate|]. intros H.
        destruct (H a (or_introl eq_refl)) as (_ & Hc' & _). congruence. }
    destruct (hashEnvelope (la_envelope a)) as [h|msg] eqn:Hh; simpl.
    2:{ split; [discriminate|]. intros H.
        destruct (H a (or_introl eq_refl)) as (_ & _ & Hh'). congruence. }
    destruct (String.eqb_spec h (la_envelope_hash a)) as [Eh|Nh]; simpl.
    2:{ split; [discriminate|]. intros H.
        destruct (H a (or_introl eq_refl)) as (_ & _ & Hh'). congruence. }
    rewrite IH. split.
    + intros H x [<-|Hx]; [|now apply H]. repeat split; congruence.
    + intros H x Hx. apply H. now right.
Qed.



(** X18: the verdict of forensic replay over a store is the conjunction of
    its checks. When it returns, its result is "pass" exactly when the trace
    resolves to a chain and every artifact of the chain validates, is
    stored with the canonical JSON of its own envelope and under the hash
    of its own envelope, and names accepted artifacts: the hash it gives as
    its authorization context (and, for a call, the hash it gives as its
    policy decision) is that of an accepted artifact with the replayed
    trace identifier, and the [decision.result] of the artifact named as
    policy decision is "allow". *)
Theorem store_forensicReplay_pass_iff
    (store : ArtifactStore) (trace_id : string)
    (include_rejected_attempts persist_result : bool) (clock_iso : string)
    (o : ReplayOutput) :
  fst (store_forensicReplay store trace_id include_rejected_attempts persist_result
         clock_iso) = Ret o ->
  (rp_result (ro_record o) = "pass"
   <-> exists chain,
         resolveTraceChain store trace_id include_rejected_attempts = Some chain
         /\ forall x, In x (rc_ordered chain) ->
              v_ok (validateEnvelope (la_envelope x)) = true
              /\ canonicalizeEnvelope (la_envelope x) = Ret (la_canonical_json x)
              /\ hashEnvelope (la_envelope x) = Ret (la_envelope_hash x)
              /\ prerequisites_hold store trace_id x).
Proof.
  unfold store_forensicReplay. cbv zeta.
  assert (Hfin : forall s r p,
            fst (finalize s r p) = Ret o -> ro_record o = r).
  { intros s r p H. destruct (finalize s r p) as [out s'] eqn:E. simpl in H. subst out.
    now apply finalize_record in E. }
  destruct (resolveTraceChain store trace_id include_rejected_attempts)
    as [chain|] eqn:Ec.
  2:{ intros H. apply Hfin in H. rewrite H. simpl.
      split; [discriminate|]. intros (chain & Hc & _). discriminate. }
  assert (Hgov : governance_loop store (rc_ordered chain) = None
                 <-> forall x, In x (rc_ordered chain) ->
                               prerequisites_hold store trace_id x).
  { rewrite governance_loop_none_iff. split; intros H x Hx.
    - apply (governance_check_none_iff store trace_id x
               (resolved_chain_trace_id _ _ _ _ _ Ec Hx)). now apply H.
    - apply (governance_check_none_iff store trace_id x
               (resolved_chain_trace_id _ _ _ _ _ Ec Hx)). now apply H. }
  destruct (forensic_integrity_loop (rc_ordered chain)) as [[c|]|msg] eqn:Ef.
  - intros H. apply Hfin in H. rewrite H. simpl. split; [discriminate|].
    intros (chain' & [= <-] & Hall).
    assert (Hn : forensic_integrity_loop (rc_ordered chain) = Ret None).
    { apply forensic_integrity_loop_none_iff. intros x Hx.
      destruct (Hall x Hx) as (Hv & Hc & Hh & _). now repeat split. }
    congruence.
  - pose proof (proj1 (forensic_integrity_loop_none_iff _) Ef) as Hint.
    destruct (governance_loop store (rc_ordered chain)) as [c|] eqn:Eg.
    + intros H. apply Hfin in H. rewrite H. simpl. split; [discriminate|].
      intros (chain' & [= <-] & Hall).
      assert (Hn : Some c = None).
      { apply Hgov. intros x Hx. apply (Hall x Hx). }
      discriminate.
    + intros H. apply Hfin in H. rewrite H. simpl. split; [|reflexivity].
      intros _. exists chain. split; [reflexivity|]. intros x Hx.
      destruct (Hint x Hx) as (Hv & Hc & Hh).
      repeat split; try assumption; now apply (proj1 Hgov eq_refl x Hx).
  - discriminate.
Qed.



(* ================================================================ *)
(** *** Constrained replay: what the variance loop tests *)

















(* ================================================================ *)
(** *** More on constrained replay *)

Lemma finalize_constrained_record (store : ArtifactStore) (record : ReplayRecord)
    (diagnostics : Diagnostics) (persist : bool) (o : ConstrainedOutput) :
  fst (finalize_constrained store record diagnostics persist) = Ret o ->
  co_record o = record /\ co_diagnostics o = diagnostics
  /\ (co_artifact_sha256 o = None <-> persist = false).
Proof.
  unfold finalize_constrained. destruct persist.
  - destruct (persistReplayResult store (record_value record)) as [[[sha c]|msg] s'];
      simpl; [|discriminate].
    intros [= <-]. simpl. repeat split; discriminate.
  - simpl. intros [= <-]. simpl. now repeat split.
Qed.

Lemma invariant_failure_class (store : ArtifactStore) (trace_id : string)
    (include_rejected_attempts persist_result : bool) (clock_iso : string)
    (o : ReplayOutput) (chain : ResolvedTraceChain) :
  resolveTraceChain store trace_id include_rejected_attempts = Some chain ->
  fst (invariantReplay store trace_id include_rejected_attempts persist_result
         clock_iso) = Ret o ->
  rp_result (ro_record o) <> "pass" ->
  exists c, rp_failure_class (ro_record o) = Some c
            /\ In c [ReplayFailure.SCHEMA_REJECT; ReplayFailure.HASH_MISMATCH;
                     ReplayFailure.MISSING_PREREQ; ReplayFailure.TRACE_VIOLATION;
                     ReplayFailure.UNAUTHORIZED_EXECUTION].
Proof.
  intros Hc Hrun Hfail.
  destruct (invariantReplay_run _ _ _ _ _ _ Hrun) as [_ Hcases].
  destruct Hcases as [[Hnone _]|(chain' & Hc' & [(c & Hv & Hr)|[Hv Hr]])].
  - congruence.
  - exists c. rewrite Hr. split; [reflexivity|]. now apply chain_verdict_failure in Hv.
  - rewrite Hr in Hfail. now destruct Hfail.
Qed.



(** X21: the shape of the record of constrained replay. A returned record
    has replay type "constrained", the candidate trace as target, the
    baseline trace as reference and the given clock as [generated_at]; its
    result is "pass" with no failure class, or "fail" with one of
    REPLAY_CHAIN_NOT_FOUND, SCHEMA_REJECT, HASH_MISMATCH, MISSING_PREREQ,
    TRACE_VIOLATION, UNAUTHORIZED_EXECUTION, REPLAY_POLICY_PATH_MISMATCH,
    REPLAY_VARIANCE_VIOLATION; the class is REPLAY_CHAIN_NOT_FOUND, with no
    input hash and no policy path in the diagnostics, exactly when one of
    the two traces resolves to no chain; otherwise the input hashes are
    those of the baseline chain followed by those of the candidate chain;
    and the output carries an artifact hash exactly when the result was
    persisted. *)
Theorem constrainedReplay_record_shape
    (store : ArtifactStore) (baseline_trace_id candidate_trace_id : string)
    (replay_policy : value) (persist_result : bool) (clock_iso : string)
    (o : ConstrainedOutput) :
  fst (constrainedReplay store baseline_trace_id candidate_trace_id replay_policy
         persist_result clock_iso) = Ret o ->
  rp_replay_type (co_record o) = "constrained"
  /\ rp_target_trace_id (co_record o) = candidate_trace_id
  /\ rp_reference_trace_id (co_record o) = Some baseline_trace_id
  /\ rp_generated_at (co_record o) = clock_iso
  /\ (rp_result (co_record o) = "pass" /\ rp_failure_class (co_record o) = None
      \/ rp_result (co_record o) = "fail"
         /\ exists c, rp_failure_class (co_record o) = Some c
                      /\ In c [ReplayFailure.CHAIN_NOT_FOUND;
                               ReplayFailure.SCHEMA_REJECT;
                               ReplayFailure.HASH_MISMATCH;
                               ReplayFailure.MISSING_PREREQ;
                               ReplayFailure.TRACE_VIOLATION;
                               ReplayFailure.UNAUTHORIZED_EXECUTION;
                               ReplayFailure.POLICY_PATH_MISMATCH;
                               ReplayFailure.VARIANCE_VIOLATION])
  /\ match resolveTraceChain store baseline_trace_id false,
           resolveTraceChain store candidate_trace_id false with
     | Some baseline, Some candidate =>
         rp_input_envelope_hashes (co_record o)
         = map la_envelope_hash (rc_ordered baseline)
           ++ map la_envelope_hash (rc_ordered candidate)
         /\ rp_failure_class (co_record o) <> Some ReplayFailure.CHAIN_NOT_FOUND
     | _, _ =>
         rp_input_envelope_hashes (co_record o) = []
         /\ rp_failure_class (co_record o) = Some ReplayFailure.CHAIN_NOT_FOUND
         /\ co_diagnostics o = mkDiagnostics [] None None
     end
  /\ (co_artifact_sha256 o = None <-> persist_result = false).
Proof.
  unfold constrainedReplay. cbv zeta.
  assert (Hmem : forall c l, In c l -> In c (ReplayFailure.CHAIN_NOT_FOUND :: l))
    by (intros; now right).
  assert (Hshape : forall r d (Q : ReplayRecord -> Diagnostics -> Prop),
            fst (finalize_constrained store r d persist_result) = Ret o ->
            rp_replay_type r = "constrained" ->
            rp_target_trace_id r = candidate_trace_id ->
            rp_reference_trace_id r = Some baseline_trace_id ->
            rp_generated_at r = clock_iso ->
            (rp_result r = "pass" /\ rp_failure_class r = None
             \/ rp_result r = "fail"
                /\ exists c, rp_failure_class r = Some c
                     /\ In c [ReplayFailure.CHAIN_NOT_FOUND;
                              ReplayFailure.SCHEMA_REJECT;
                              ReplayFailure.HASH_MISMATCH;
                              ReplayFailure.MISSING_PREREQ;
                              ReplayFailure.TRACE_VIOLATION;
                              ReplayFailure.UNAUTHORIZED_EXECUTION;
                              ReplayFailure.POLICY_PATH_MISMATCH;
                              ReplayFailure.VARIANCE_VIOLATION]) ->
            Q r d ->
            rp_replay_type (co_record o) = "constrained"
            /\ rp_target_trace_id (co_record o) = candidate_trace_id
            /\ rp_reference_trace_id (co_record o) = Some baseline_trace_id
            /\ rp_generated_at (co_record o) = clock_iso
            /\ (rp_result (co_record o) = "pass" /\ rp_failure_class (co_record o) = None
                \/ rp_result (co_record o) = "fail"
                   /\ exists c, rp_failure_class (co_record o) = Some c
                        /\ In c [ReplayFailure.CHAIN_NOT_FOUND;
                                 ReplayFailure.SCHEMA_REJECT;
                                 ReplayFailure.HASH_MISMATCH;
                                 ReplayFailure.MISSING_PREREQ;
                                 ReplayFailure.TRACE_VIOLATION;
                                 ReplayFailure.UNAUTHORIZED_EXECUTION;
                                 ReplayFailure.POLICY_PATH_MISMATCH;
                                 ReplayFailure.VARIANCE_VIOLATION])
            /\ Q (co_record o) (co_diagnostics o)
            /\ (co_artifact_sha256 o = None <-> persist_result = false)).
  { intros r d Q H H1 H2 H3 H4 H5 HQ.
    apply finalize_constrained_record in H as (Er & Ed & Hs).
    rewrite Er, Ed. repeat split; assumption || apply Hs. }
  assert (Hnone : forall d,
            d = mkDiagnostics [] None None ->
            fst (finalize_constrained store
                   (with_failure
                      (mkReplayRecord "constrained" candidate_trace_id [] "fail"
                         clock_iso (Some baseline_trace_id) None)
                      ReplayFailure.CHAIN_NOT_FOUND) d persist_result) = Ret o ->
            rp_replay_type (co_record o) = "constrained"
            /\ rp_target_trace_id (co_record o) = candidate_trace_id
            /\ rp_reference_trace_id (co_record o) = Some baseline_trace_id
            /\ rp_generated_at (co_record o) = clock_iso
            /\ (rp_result (co_record o) = "pass" /\ rp_failure_class (co_record o) = None
                \/ rp_result (co_record o) = "fail"
                   /\ exists c, rp_failure_class (co_record o) = Some c
                        /\ In c [ReplayFailure.CHAIN_NOT_FOUND;
                                 ReplayFailure.SCHEMA_REJECT;
                                 ReplayFailure.HASH_MISMATCH;
                                 ReplayFailure.MISSING_PREREQ;
                                 ReplayFailure.TRACE_VIOLATION;
                                 ReplayFailure.UNAUTHORIZED_EXECUTION;
                                 ReplayFailure.POLICY_PATH_MISMATCH;
                                 ReplayFailure.VARIANCE_VIOLATION])
            /\ (rp_input_envelope_hashes (co_record o) = []
                /\ rp_failure_class (co_record o) = Some ReplayFailure.CHAIN_NOT_FOUND
                /\ co_diagnostics o = mkDiagnostics [] None None)
            /\ (co_artifact_sha256 o = None <-> persist_result = false)).
  { intros d -> H.
    refine (Hshape _ _
              (fun r d => rp_input_envelope_hashes r = []
                          /\ rp_failure_class r = Some ReplayFailure.CHAIN_NOT_FOUND
                          /\ d = mkDiagnostics [] None None)
              H eq_refl eq_refl eq_refl eq_refl _ _).
    - right. split; [reflexivity|]. eexists. split; [reflexivity|now left].
    - now repeat split. }
  destruct (resolveTraceChain store baseline_trace_id false) as [baseline|] eqn:Eb;
    [|now apply Hnone].
  destruct (resolveTraceChain store candidate_trace_id false) as [candidate|] eqn:Ec;
    [|now apply Hnone].
  set (hashes := map la_envelope_hash (rc_ordered baseline)
                 ++ map la_envelope_hash (rc_ordered candidate)).
  assert (Hfailed : forall c d,
            In c [ReplayFailure.SCHEMA_REJECT; ReplayFailure.HASH_MISMATCH;
                  ReplayFailure.MISSING_PREREQ; ReplayFailure.TRACE_VIOLATION;
                  ReplayFailure.UNAUTHORIZED_EXECUTION;
                  ReplayFailure.POLICY_PATH_MISMATCH;
                  ReplayFailure.VARIANCE_VIOLATION] ->
            fst (finalize_constrained store
                   (mkReplayRecord "constrained" candidate_trace_id hashes "fail"
                      clock_iso (Some baseline_trace_id) (Some c))
                   d persist_result) = Ret o ->
            rp_replay_type (co_record o) = "constrained"
            /\ rp_target_trace_id (co_record o) = candidate_trace_id
            /\ rp_reference_trace_id (co_record o) = Some baseline_trace_id
            /\ rp_generated_at (co_record o) = clock_iso
            /\ (rp_result (co_record o) = "pass" /\ rp_failure_class (co_record o) = None
                \/ rp_result (co_record o) = "fail"
                   /\ exists c, rp_failure_class (co_record o) = Some c
                        /\ In c [ReplayFailure.CHAIN_NOT_FOUND;
                                 ReplayFailure.SCHEMA_REJECT;
                                 ReplayFailure.HASH_MISMATCH;
                                 ReplayFailure.MISSING_PREREQ;
                                 ReplayFailure.TRACE_VIOLATION;
                                 ReplayFailure.UNAUTHORIZED_EXECUTION;
                                 ReplayFailure.POLICY_PATH_MISMATCH;
                                 ReplayFailure.VARIANCE_VIOLATION])
            /\ (rp_input_envelope_hashes (co_record o) = hashes
                /\ rp_failure_class (co_record o) <> Some ReplayFailure.CHAIN_NOT_FOUND)
            /\ (co_artifact_sha256 o = None <-> persist_result = false)).
  { intros c d Hc H.
    refine (Hshape _ _
              (fun r _ => rp_input_envelope_hashes r = hashes
                          /\ rp_failure_class r <> Some ReplayFailure.CHAIN_NOT_FOUND)
              H eq_refl eq_refl eq_refl eq_refl _ _).
    - right. split; [reflexivity|]. exists c. split; [reflexivity|now apply Hmem].
    - split; [reflexivity|]. simpl. intros [= ->].
      simpl in Hc. repeat (destruct Hc as [Hc|Hc]; [discriminate|]). destruct Hc. }
  destruct (invariantReplay store baseline_trace_id false false
              "1970-01-01T00:00:00.000Z") as [[ob|msg] sb] eqn:Eib; [|discriminate].
  destruct (String.eqb_spec (rp_result (ro_record ob)) "pass") as [Epb|Npb];
    cbn [negb].
  2:{ destruct (invariant_failure_class store baseline_trace_id false false _ ob
                  baseline Eb ltac:(now rewrite Eib) Npb) as (c & -> & Hc).
      cbn [with_hashes rp_replay_type rp_target_trace_id rp_input_envelope_hashes
             rp_result rp_generated_at rp_reference_trace_id rp_failure_class].
      apply Hfailed. simpl in Hc |- *. tauto. }
  destruct (invariantReplay store candidate_trace_id false false
              "1970-01-01T00:00:00.000Z") as [[oc|msg] sc] eqn:Eic; [|discriminate].
  destruct (String.eqb_spec (rp_result (ro_record oc)) "pass") as [Epc|Npc];
    cbn [negb].
  2:{ destruct (invariant_failure_class store candidate_trace_id false false _ oc
                  candidate Ec ltac:(now rewrite Eic) Npc) as (c & -> & Hc).
      cbn [with_hashes rp_replay_type rp_target_trace_id rp_input_envelope_hashes
             rp_result rp_generated_at rp_reference_trace_id rp_failure_class].
      apply Hfailed. simpl in Hc |- *. tauto. }
  destruct (List.length (policyPath baseline) =? List.length (policyPath candidate))%nat;
    cbn [negb].
  2:{ apply Hfailed. simpl. tauto. }
  destruct (paths_differ (policyPath baseline) (policyPath candidate)).
  { apply Hfailed. simpl. tauto. }
  match goal with
  | |- context [if negb ?b then _ else _] => destruct b; cbn [negb]
  end.
  2:{ apply Hfailed. simpl. tauto. }
  destruct (variance_loop replay_policy (evidenceById store (rc_evidence baseline))
              (evidenceById store (rc_evidence candidate))
              (js_sort String.compare
                 (map_keys (evidenceById store (rc_evidence baseline)))) [])
    as [[c|] allowed] eqn:Ev.
  - assert (c = ReplayFailure.VARIANCE_VIOLATION).
    { pose proof (variance_loop_spec replay_policy
                    (evidenceById store (rc_evidence baseline))
                    (evidenceById store (rc_evidence candidate))
                    (js_sort String.compare
                       (map_keys (evidenceById store (rc_evidence baseline)))) [])
        as [Hall Hsome]. cbv zeta in Hall, Hsome.
      match type of Hall with
      | ?b = true -> _ => destruct b
      end.
      - rewrite (Hall eq_refl) in Ev. discriminate.
      - destruct (Hsome eq_refl) as [pushed Hp]. congruence. }
    subst c. apply Hfailed. simpl. tauto.
  - intros H.
    refine (Hshape _ _
              (fun r _ => rp_input_envelope_hashes r = hashes
                          /\ rp_failure_class r <> Some ReplayFailure.CHAIN_NOT_FOUND)
              H eq_refl eq_refl eq_refl eq_refl _ _).
    + left. now split.
    + split; [reflexivity|discriminate].
Qed.

(** X22: a trace that fails invariant replay fails constrained replay with
    the same class, the baseline being examined first. When both traces
    resolve and invariant replay of the baseline returns a failure,
    constrained replay returns "fail" with the failure class of that
    replay; when the baseline passes and invariant replay of the candidate
    returns a failure, constrained replay returns "fail" with the failure
    class of the candidate's replay. No policy path is computed in either
    case. *)
Theorem constrainedReplay_propagates_invariant_failure
    (store : ArtifactStore) (baseline_trace_id candidate_trace_id : string)
    (replay_policy : value) (persist_result : bool) (clock_iso : string)
    (baseline candidate : ResolvedTraceChain) (ob : ReplayOutput) :
  resolveTraceChain store baseline_trace_id false = Some baseline ->
  resolveTraceChain store candidate_trace_id false = Some candidate ->
  fst (invariantReplay store baseline_trace_id false false epoch_iso) = Ret ob ->
  let run := constrainedReplay store baseline_trace_id candidate_trace_id
               replay_policy persist_result clock_iso in
  (rp_result (ro_record ob) <> "pass" ->
   exists o, fst run = Ret o
             /\ rp_result (co_record o) = "fail"
             /\ rp_failure_class (co_record o) = rp_failure_class (ro_record ob)
             /\ co_diagnostics o = mkDiagnostics [] None None)
  /\ (rp_result (ro_record ob) = "pass" ->
      forall oc,
        fst (invariantReplay store candidate_trace_id false false epoch_iso) = Ret oc ->
        rp_result (ro_record oc) <> "pass" ->
        exists o, fst run = Ret o
                  /\ rp_result (co_record o) = "fail"
                  /\ rp_failure_class (co_record o) = rp_failure_class (ro_record oc)
                  /\ co_diagnostics o = mkDiagnostics [] None None).
Proof.
  intros Hb Hc Hob run. subst run. unfold constrainedReplay. cbv zeta.
  rewrite Hb, Hc. change "1970-01-01T00:00:00.000Z" with epoch_iso.
  destruct (invariantReplay store baseline_trace_id false false epoch_iso)
    as [rb sb]. cbn [fst] in Hob. subst rb.
  split.
  - intros Hfail.
    destruct (String.eqb_spec (rp_result (ro_record ob)) "pass") as [E|_];
      [contradiction|]. cbn [negb].
    match goal with
    | |- context [finalize_constrained ?s ?r ?d ?p] =>
        destruct (finalize_constrained_returns s r d p) as (o & Ho & Hr & Hd)
    end.
    exists o. rewrite Hr, Hd. now repeat split.
  - intros Hpass oc Hoc Hfail. rewrite Hpass, String.eqb_refl. cbn [negb].
    destruct (invariantReplay store candidate_trace_id false false epoch_iso)
      as [rc sc]. cbn [fst] in Hoc. subst rc.
    destruct (String.eqb_spec (rp_result (ro_record oc)) "pass") as [E|_];
      [contradiction|]. cbn [negb].
    match goal with
    | |- context [finalize_constrained ?s ?r ?d ?p] =>
        destruct (finalize_constrained_returns s r d p) as (o & Ho & Hr & Hd)
    end.
    exists o. rewrite Hr, Hd. now repeat split.
Qed.

(* ================================================================ *)
(** *** Invariant replay over a ledger *)

Lemma chain_invariants_of_none_iff (ledger : Ledger) (trace_id : string)
    (ref : LedgerEnvelopeArtifact) :
  chain_invariants_of ledger trace_id ref = None
  <-> prerequisites_hold ledger trace_id ref.
Proof.
  unfold chain_invariants_of, prerequisites_hold. cbv zeta.
  destruct (String.eqb_spec (la_record_type ref) "policy_decision") as [E2|N2].
  { rewrite E2. cbn [String.eqb orb].
    change (("policy_decision" =? "model_call")%string) with false.
    change (("policy_decision" =? "tool_call")%string) with false. cbn [orb].
    destruct (getAccepted ledger (get (la_envelope ref) "auth_context_envelope_sha256"))
      as [auth|].
    - destruct (strict_eq (traceIdOf (sa_envelope auth)) (JStr trace_id)) eqn:Es;
        cbn [negb].
      + apply strict_eq_string in Es. split; [|reflexivity]. intros _.
        split; [intros _; now exists auth|intros [H|H]; discriminate].
      + split; [discriminate|]. intros [H _].
        destruct (H eq_refl) as (a & [= <-] & Ha).
        apply strict_eq_string in Ha. congruence.
    - split; [discriminate|]. intros [H _]. destruct (H eq_refl) as (a & Ha & _).
      discriminate. }
  destruct (String.eqb_spec (la_record_type ref) "model_call") as [E3|N3];
    destruct (String.eqb_spec (la_record_type ref) "tool_call") as [E4|N4];
    cbn [orb].
  4:{ split; [|reflexivity]. intros _.
      split; [intros H; contradiction|intros [H|H]; contradiction]. }
  all: destruct (getAccepted ledger (get (la_envelope ref) "auth_context_envelope_sha256"))
         as [auth|];
    [|split; [discriminate|];
      intros [_ H]; destruct (H ltac:(auto)) as (a & p & Ha & _); discriminate].
  all: destruct (getAccepted ledger
                   (get (la_envelope ref) "policy_decision_envelope_sha256"))
         as [pd|];
    [|split; [discriminate|];
      intros [_ H]; destruct (H ltac:(auto)) as (a & p & _ & Hp & _); discriminate].
  all: destruct (strict_eq (traceIdOf (sa_envelope auth)) (JStr trace_id)) eqn:Ea;
    destruct (strict_eq (traceIdOf (sa_envelope pd)) (JStr trace_id)) eqn:Ep;
    destruct (strict_eq (get (get (sa_envelope pd) "decision") "result") (JStr "allow"))
      eqn:Ed; cbn [negb orb];
    try (split; [discriminate|];
         intros [_ H];
         destruct (H ltac:(auto)) as (a & p & [= <-] & [= <-] & Ha' & Hp' & Hd');
         apply strict_eq_string in Ha', Hp', Hd'; congruence).
  all: apply strict_eq_string in Ea, Ep, Ed;
    (split; [|reflexivity]); intros _;
    (split; [intros H; congruence|intros _; now exists auth, pd]).
Qed.

Lemma envelope_invariants_passes (trace_id : string)
    (refs : list LedgerEnvelopeArtifact) :
  (forall x, In x refs ->
     v_ok (validateEnvelope (la_envelope x)) = true
     /\ traceIdOf (la_envelope x) = JStr trace_id
     /\ hashEnvelope (la_envelope x) = Ret (la_envelope_hash x)) ->
  envelope_invariants trace_id refs = Ret None.
Proof.
  induction refs as [|a refs IH]; intros H; simpl; [reflexivity|].
  destruct (H a (or_introl eq_refl)) as (Hv & Ht & Hh).
  rewrite Hv, Ht, Hh. simpl. rewrite !String.eqb_refl. simpl.
  apply IH. intros x Hx. apply H. now right.
Qed.

Lemma chain_invariants_passes (ledger : Ledger) (trace_id : string)
    (refs : list LedgerEnvelopeArtifact) :
  (forall x, In x refs -> prerequisites_hold ledger trace_id x) ->
  chain_invariants ledger trace_id refs = None.
Proof.
  induction refs as [|a refs IH]; intros H; simpl; [reflexivity|].
  rewrite (proj2 (chain_invariants_of_none_iff ledger trace_id a)
             (H a (or_introl eq_refl))).
  apply IH. intros x Hx. apply H. now right.
Qed.

Lemma emit_result_kept (ledger : Ledger) (emit_result ok : bool)
    (r : LedgerReplayResult) (out : ForensicOutput) :
  fst (emit ledger emit_result ok r) = Ret out ->
  fo_replay_result out = r /\ fo_ok out = ok.
Proof.
  unfold emit. destruct emit_result.
  - destruct (persistReplayResult_ledger ledger (ledger_result_value r))
      as [[entry|msg] l']; simpl; [now intros [= <-]|discriminate].
  - simpl. now intros [= <-].
Qed.

(** X23: over a ledger, forensic replay refines invariant replay. With the
    ledger index both engines share, on a ledger whose accepted namespace
    binds no hash twice: when forensic replay of a trace returns a record
    whose result is "pass", invariant replay of that trace over the same
    ledger returns when it does not emit, and whenever it returns (emitting
    or not) its result is "pass" and its [ok] flag is set. *)
Theorem ledger_forensic_pass_entails_ledger_invariant_pass
    (ledger : Ledger) (trace_id : string) (emit_result : bool) (now_ms : number)
    (out : ForensicOutput) :
  distinct (map_keys (accepted ledger)) = true ->
  fst (forensicReplay ledger trace_id emit_result now_ms) = Ret out ->
  lr_result (fo_replay_result out) = "pass" ->
  (forall now_ms', returns (fst (ledger_invariantReplay ledger trace_id false now_ms')))
  /\ (forall emit_result' now_ms' out',
        fst (ledger_invariantReplay ledger trace_id emit_result' now_ms') = Ret out' ->
        lr_result (fo_replay_result out') = "pass" /\ fo_ok out' = true).
Proof.
  intros Hd Hrun Hpass. apply distinct_NoDup in Hd.
  destruct (forensicReplay_pass_loop _ _ _ _ _ Hrun Hpass) as [Hrefs Hloop].
  unfold ledger_invariantReplay.
  destruct (ReplayIndex_resolve ledger trace_id) as [refs rejected] eqn:Er.
  cbn [fst] in Hrefs, Hloop.
  assert (Hsrc : forall ref, In ref refs ->
            (exists h a, In (h, a) (accepted ledger) /\ ref = accepted_artifact (h, a))
            /\ traceIdOf (la_envelope ref) = JStr trace_id).
  { unfold ReplayIndex_resolve in Er. injection Er as <- _. intros ref Hin.
    apply (Permutation_in _ (Permutation_sym (js_sort_perm chain_order _))) in Hin.
    apply filter_In in Hin as [Hin Ht]. apply strict_eq_string in Ht.
    split; [|exact Ht].
    apply in_map_iff in Hin as ([h a] & <- & Hin). now exists h, a. }
  pose proof (forensic_loop_sound ledger Hd refs new_ArtifactStore
                ltac:(intros h a; discriminate)
                (fun ref Hin => proj1 (Hsrc ref Hin)) Hloop) as Hsound.
  assert (He : envelope_invariants trace_id refs = Ret None).
  { apply envelope_invariants_passes. intros x Hx.
    destruct (Hsound x Hx) as [Hi _]. apply schemaAndHashCheck_none_iff in Hi as [Hv Hh].
    split; [exact Hv|]. split; [exact (proj2 (Hsrc x Hx))|exact Hh]. }
  assert (Hc : chain_invariants ledger trace_id refs = None).
  { apply chain_invariants_passes. intros x Hx.
    apply (governance_check_none_iff ledger trace_id x (proj2 (Hsrc x Hx))).
    apply (Hsound x Hx). }
  destruct refs as [|r0 refs']; [contradiction|].
  rewrite He, Hc. split.
  - intros now_ms'. simpl. now eexists.
  - intros emit_result' now_ms' out' Hout.
    apply emit_result_kept in Hout as [-> ->]. now split.
Qed.

Lemma emit_shape (ledger : Ledger) (emit_result ok : bool)
    (r : LedgerReplayResult) (out : ForensicOutput) :
  fst (emit ledger emit_result ok r) = Ret out ->
  fo_replay_result out = r /\ fo_ok out = ok
  /\ (fo_result_artifact out = None <-> emit_result = false).
Proof.
  unfold emit. destruct emit_result.
  - destruct (persistReplayResult_ledger ledger (ledger_result_value r))
      as [[entry|msg] l']; simpl; [|discriminate].
    intros [= <-]. simpl. repeat split; discriminate.
  - simpl. intros [= <-]. simpl. now repeat split.
Qed.

Lemma emit_ledger_result_shape (ledger : Ledger) (emit_result ok : bool)
    (r : LedgerReplayResult) (out : ForensicOutput) (hashes : list string) :
  fst (emit ledger emit_result ok r) = Ret out ->
  lr_input_envelope_hashes r = hashes ->
  (ok = true /\ lr_result r = "pass" /\ lr_failure_class r = None
   /\ lr_failure_kind r = None /\ hashes <> []
   \/ ok = false /\ lr_result r = "fail"
      /\ (exists c k, lr_failure_class r = Some c /\ lr_failure_kind r = Some k)
      /\ (hashes = [] -> lr_failure_class r = Some "REPLAY_NOT_FOUND")) ->
  ledger_result_shape (lr_replay_type r) (lr_target_trace_id r)
    (lr_generated_at_ms r) hashes emit_result out.
Proof.
  intros H Hh Hcase. apply emit_shape in H as (Er & Eo & Hs).
  unfold ledger_result_shape. cbv zeta. rewrite Er, Eo. clear Er Eo.
  split; [reflexivity|]. split; [reflexivity|]. split; [reflexivity|].
  split; [exact Hh|].
  destruct Hcase as [(-> & Hr & Hc & Hk & Hne)|(-> & Hr & Hck & Hnf)].
  - split; [now split|]. split; [left; now repeat split|].
    split; [intros E; contradiction|exact Hs].
  - split; [split; [discriminate|intros E; rewrite Hr in E; discriminate]|].
    split; [right; now split|]. split; [exact Hnf|exact Hs].
Qed.

(** X24: the shape of the results of the replay engines over a ledger. A
    result returned by forensic replay (replay/forensic.js) or by invariant
    replay (replay/invariant.js) over a ledger carries its replay type, the
    requested trace, the time of the run and the hashes of the resolved
    accepted chain in chain order; its [ok] flag is set exactly when the
    result is "pass"; a pass has null failure class and kind, a fail has
    both; with no accepted artifact for the trace the class is
    REPLAY_NOT_FOUND; and a result artifact is returned exactly when
    emission was asked for. *)
Theorem ledger_replay_result_shape
    (ledger : Ledger) (trace_id : string) (emit_result : bool) (now_ms : number) :
  let hashes := map la_envelope_hash (fst (ReplayIndex_resolve ledger trace_id)) in
  (forall out,
     fst (forensicReplay ledger trace_id emit_result now_ms) = Ret out ->
     ledger_result_shape "forensic" trace_id now_ms hashes emit_result out)
  /\ (forall out,
        fst (ledger_invariantReplay ledger trace_id emit_result now_ms) = Ret out ->
        ledger_result_shape "invariant" trace_id now_ms hashes emit_result out).
Proof.
  cbv zeta. unfold forensicReplay, ledger_invariantReplay.
  destruct (ReplayIndex_resolve ledger trace_id) as [refs rejected]. cbn [fst].
  assert (Hne : forall (r0 : LedgerEnvelopeArtifact) l,
            map la_envelope_hash (r0 :: l) <> []) by (intros; discriminate).
  split; intros out.
  - destruct refs as [|r0 refs'].
    + intros H.
      apply (emit_ledger_result_shape _ _ _ _ _ [] H eq_refl).
      right. split; [reflexivity|]. split; [reflexivity|].
      split; [do 2 eexists; split; reflexivity|reflexivity].
    + cbv zeta.
      destruct (forensic_loop new_ArtifactStore (r0 :: refs')) as [[[[c k] d]|]|msg];
        [| |discriminate]; intros H.
      * apply (emit_ledger_result_shape _ _ _ _ _ _ H eq_refl).
        right. split; [reflexivity|]. split; [reflexivity|].
        split; [do 2 eexists; split; reflexivity|].
        intros E. now destruct (Hne _ _ E).
      * apply (emit_ledger_result_shape _ _ _ _ _ _ H eq_refl).
        left. repeat split. apply Hne.
  - destruct refs as [|r0 refs'].
    + intros H.
      apply (emit_ledger_result_shape _ _ _ _ _ [] H eq_refl).
      right. split; [reflexivity|]. split; [reflexivity|].
      split; [do 2 eexists; split; reflexivity|reflexivity].
    + cbv zeta.
      destruct (envelope_invariants trace_id (r0 :: refs')) as [[[[c k] d]|]|msg];
        [| |discriminate].
      * intros H. apply (emit_ledger_result_shape _ _ _ _ _ _ H eq_refl).
        right. split; [reflexivity|]. split; [reflexivity|].
        split; [do 2 eexists; split; reflexivity|].
        intros E. now destruct (Hne _ _ E).
      * destruct (chain_invariants ledger trace_id (r0 :: refs')) as [[[c k] d]|];
          intros H.
        -- apply (emit_ledger_result_shape _ _ _ _ _ _ H eq_refl).
           right. split; [reflexivity|]. split; [reflexivity|].
        split; [do 2 eexists; split; reflexivity|].
        intros E. now destruct (Hne _ _ E).
        -- apply (emit_ledger_result_shape _ _ _ _ _ _ H eq_refl).
           left. repeat split. apply Hne.
Qed.

End Runtime.

(* ================================================================== *)
(** ** Worked examples on the conformance fixtures

    The fixtures are run through the gate and the replay engines with the
    stand-ins for the platform services: a digest that prefixes its input,
    a validator that accepts every envelope (for the variance checks, one
    that admits a response only as a blob reference), the code-unit
    collation, and a heap in which no two stored objects are shared. *)

Definition digest (e : value) : string :=
  match hashEnvelope test_sha256 e with
  | Ret h => h
  | Throw _ => EmptyString
  end.

Definition trace_A : string := "4bf92f3577b34da6a3ce929d0e0e4736".
Definition trace_B : string := "7d1c2f3577b34da6a3ce929d0e0e4799".

(** [{...e, trace: {...e.trace, trace_id}}] *)
Definition retrace (trace_id : string) (e : value) : value :=
  match e with
  | JObj fs =>
      JObj (map (fun kv =>
                   if String.eqb (fst kv) "trace" then
                     match snd kv with
                     | JObj ts =>
                         (fst kv,
                          JObj (map (fun t => if String.eqb (fst t) "trace_id"
                                              then (fst t, JStr trace_id) else t) ts))
                     | _ => kv
                     end
                   else kv) fs)
  | _ => e
  end.

Definition auth_A : value := produceAuthContext_A.
Definition policy_A : value := producePolicyDecisionAllow_Model (digest auth_A).
Definition model_A : value := produceModelCall_A (digest auth_A) (digest policy_A).

Definition auth_B : value := retrace trace_B produceAuthContext_A.
Definition policy_B : value :=
  retrace trace_B (producePolicyDecisionAllow_Model (digest auth_B)).
Definition model_B : value :=
  model_call_fixture trace_B "c3ab8ff13720e8ad" "b7ad6b7169203332"
    (blobref (hex64 "f") 789) (digest auth_B) (digest policy_B).

Definition submit (rt : string) (e : value) : string * string * value :=
  (rt, digest e, e).

Definition chain_A : list (string * string * value) :=
  [submit "auth_context" auth_A; submit "policy_decision" policy_A;
   submit "model_call" model_A].

Definition chain_B : list (string * string * value) :=
  [submit "auth_context" auth_B; submit "policy_decision" policy_B;
   submit "model_call" model_B].

Definition store_A : ArtifactStore :=
  commit_all test_sha256 test_validate new_ArtifactStore chain_A.

Definition store_AB : ArtifactStore :=
  commit_all test_sha256 test_validate new_ArtifactStore (chain_A ++ chain_B).

Definition ledger_A : Ledger := mkLedger store_A [].

(** A policy decision submitted before its authorization context. *)
Definition early_run : outcome CommitResult * ArtifactStore :=
  commit_action test_sha256 test_validate new_ArtifactStore
    "policy_decision" (digest policy_A) policy_A.

Definition early_result : CommitResult :=
  match fst early_run with
  | Ret r => r
  | Throw _ => Accepted EmptyString EmptyString
  end.

(** The same policy decision, rejected first, accepted on resubmission. *)
Definition resubmission : list LedgerCall :=
  [call_commit "policy_decision" (digest policy_A) policy_A;
   call_commit "auth_context" (digest auth_A) auth_A;
   call_commit "policy_decision" (digest policy_A) policy_A].

Definition resolved_A : ResolvedTraceChain :=
  chain_of test_localeCompare store_A trace_A.

Definition forensic_A : ForensicOutput :=
  match fst (forensicReplay test_sha256 test_validate ledger_A trace_A false
               (number_of_Z 0)) with
  | Ret out => out
  | Throw _ =>
      mkForensicOutput false
        (buildReplayResult EmptyString EmptyString [] EmptyString None None
           (number_of_Z 0) JNull) None
  end.









(** [{allow_variance: {model_call: {allow_response_blobref: true}}}] *)
Definition model_variance_policy : value :=
  JObj [("allow_variance",
         JObj [("model_call", JObj [("allow_response_blobref", JBool true)])])].

(* ---------------------------------------------------------------- *)




(** C2 on the chain of trace A. *)
Lemma gate_built_store_replays_pass_witness :
  collision_free test_sha256 chain_A = true
  /\ trace_A <> EmptyString
  /\ has_accepted_record
       (commit_all test_sha256 test_validate new_ArtifactStore chain_A) trace_A = true
  /\ exists o,
       fst (invariantReplay test_sha256 test_validate test_localeCompare
              (commit_all test_sha256 test_validate new_ArtifactStore chain_A)
              trace_A false true epoch_iso) = Ret o
       /\ rp_result (ro_record o) = "pass".
Proof.
  assert (H1 : collision_free test_sha256 chain_A = true) by (vm_compute; reflexivity).
  assert (H2 : trace_A <> EmptyString) by discriminate.
  assert (H3 : has_accepted_record
                 (commit_all test_sha256 test_validate new_ArtifactStore chain_A)
                 trace_A = true) by (vm_compute; reflexivity).
  split; [exact H1|]. split; [exact H2|]. split; [exact H3|].
  exact (gate_built_store_replays_pass test_sha256 test_validate test_localeCompare
           chain_A trace_A true epoch_iso H1 H2 H3).
Defined.

(** C3 as stated fails on the resubmission: the hash of the policy decision
    is a key of the accepted and of the rejected-attempts namespace. *)
Lemma resubmitted_hash_in_two_namespaces :
  let ledger := run_calls test_sha256 test_validate new_Ledger resubmission in
  includes (map_keys (accepted ledger)) (digest policy_A) = true
  /\ includes (map_keys (rejected_attempts ledger)) (digest policy_A) = true.
Proof. vm_compute. split; reflexivity. Qed.

(** C4 as stated fails on 2^53: a finite integer that a double holds without
    loss and that fits in 64 bits signed, which canonicalization refuses. *)
Lemma two_pow_53_refused :
  valid_binary 53 1024 two_pow_53 = true
  /\ denotes_integer two_pow_53 (2 ^ 53)
  /\ - 2 ^ 63 <= 2 ^ 53 < 2 ^ 63
  /\ jcsSerialize (JNum two_pow_53)
     = Throw "Unsafe integers are forbidden in canonical JSON".
Proof.
  split; [reflexivity|]. split; [left; split; [lia|reflexivity]|].
  split; [lia|reflexivity].
Qed.

(** C5 on the two constructions of the tool-call fixture. *)
Lemma canonicalization_order_independent_witness :
  let a := produceToolCall_A (digest auth_A) (digest policy_A) in
  let b := produceToolCall_B (digest auth_A) (digest policy_A) in
  well_formed a /\ well_formed b /\ json_eq a b
  /\ canonicalizeEnvelope a = canonicalizeEnvelope b
  /\ hashEnvelope test_sha256 a = hashEnvelope test_sha256 b.
Proof.
  intros a b.
  assert (Ha : well_formed a) by (apply well_formedb_sound; vm_compute; reflexivity).
  assert (Hb : well_formed b) by (apply well_formedb_sound; vm_compute; reflexivity).
  assert (Hab : json_eq a b)
    by (apply json_eqb_sound; [vm_compute; reflexivity|exact Ha]).
  split; [exact Ha|]. split; [exact Hb|]. split; [exact Hab|].
  exact (canonicalization_order_independent test_sha256 a b Ha Hb Hab).
Defined.

(** C6 on the ledger holding the chain of trace A. *)
Lemma forensic_pass_entails_invariant_pass_witness :
  distinct (map_keys (accepted ledger_A)) = true
  /\ trace_A <> EmptyString
  /\ fst (forensicReplay test_sha256 test_validate ledger_A trace_A false
            (number_of_Z 0)) = Ret forensic_A
  /\ lr_result (fo_replay_result forensic_A) = "pass"
  /\ exists o,
       fst (invariantReplay test_sha256 test_validate test_localeCompare
              ledger_A trace_A false false epoch_iso) = Ret o
       /\ rp_result (ro_record o) = "pass".
Proof.
  assert (H1 : distinct (map_keys (accepted ledger_A)) = true)
    by (vm_compute; reflexivity).
  assert (H2 : trace_A <> EmptyString) by discriminate.
  assert (H3 : fst (forensicReplay test_sha256 test_validate ledger_A trace_A false
                      (number_of_Z 0)) = Ret forensic_A)
    by (vm_compute; reflexivity).
  assert (H4 : lr_result (fo_replay_result forensic_A) = "pass")
    by (vm_compute; reflexivity).
  split; [exact H1|]. split; [exact H2|]. split; [exact H3|]. split; [exact H4|].
  exact (forensic_pass_entails_invariant_pass test_sha256 test_validate
           test_localeCompare ledger_A trace_A false (number_of_Z 0) false epoch_iso
           forensic_A H1 H2 H3 H4).
Defined.

(** C7 on the authorization context submitted as a tool call. *)
Lemma payload_kind_agreement_witness :
  includes RECORD_TYPES "tool_call" = true
  /\ v_ok (validateEnvelope test_validate auth_A) = true
  /\ get auth_A "record_type" <> JStr "tool_call"
  /\ commit_action test_sha256 test_validate store_A "tool_call" (digest auth_A) auth_A
     = (Ret (Rejected FailureClass.SCHEMA_REJECT
               "schema_violation.record_type_mismatch" None),
        store_A).
Proof.
  assert (H1 : includes RECORD_TYPES "tool_call" = true) by reflexivity.
  assert (H2 : v_ok (validateEnvelope test_validate auth_A) = true) by reflexivity.
  assert (H3 : get auth_A "record_type" <> JStr "tool_call") by discriminate.
  split; [exact H1|]. split; [exact H2|]. split; [exact H3|].
  exact (payload_kind_agreement test_sha256 test_validate store_A "tool_call"
           (digest auth_A) auth_A H1 H2 H3).
Defined.




(* ================================================================== *)
(** ** Further worked examples *)

Definition canonical (e : value) : string :=
  match canonicalizeEnvelope e with
  | Ret c => c
  | Throw _ => EmptyString
  end.

(** The store after the authorization context and the policy decision of
    trace A. *)
Definition store_AP : ArtifactStore :=
  commit_all test_sha256 test_validate new_ArtifactStore
    [submit "auth_context" auth_A; submit "policy_decision" policy_A].

(** A store holding the policy decision of trace A without its
    authorization context. *)
Definition store_orphan : ArtifactStore :=
  putAccepted new_ArtifactStore
    (mkStoredArtifact (digest policy_A) "policy_decision" policy_A (canonical policy_A)).

Definition returned {A : Type} (default : A) (x : outcome A) : A :=
  match x with
  | Ret a => a
  | Throw _ => default
  end.

Definition no_output : ReplayOutput :=
  mkReplayOutput (mkReplayRecord EmptyString EmptyString [] EmptyString EmptyString
                    None None) None.

Definition no_constrained_output : ConstrainedOutput :=
  mkConstrainedOutput (ro_record no_output) (mkDiagnostics [] None None) None.

Definition invariant_A : ReplayOutput :=
  returned no_output
    (fst (invariantReplay test_sha256 test_validate test_localeCompare store_A trace_A
            false false epoch_iso)).

Definition invariant_orphan : ReplayOutput :=
  returned no_output
    (fst (invariantReplay test_sha256 test_validate test_localeCompare store_orphan
            trace_A false false epoch_iso)).

Definition store_forensic_A : ReplayOutput :=
  returned no_output
    (fst (store_forensicReplay test_sha256 test_validate test_localeCompare store_A
            trace_A false false epoch_iso)).

Definition constrained_AB : ConstrainedOutput :=
  returned no_constrained_output
    (fst (constrainedReplay test_sha256 test_validate test_localeCompare
            test_Number_toString test_same_object store_AB trace_A trace_B model_variance_policy
            false epoch_iso)).


Definition emitted_A : ReplayResultEntry :=
  returned (mkReplayResultEntry EmptyString EmptyString JNull)
    (fst (persistReplayResult_ledger test_sha256 ledger_A
            (record_value (ro_record invariant_A)))).

(* ---------------------------------------------------------------- *)

(** X1 on the first commit of trace A. *)
Lemma commit_accepted_is_stored_witness :
  commit_action test_sha256 test_validate new_ArtifactStore "auth_context"
    (digest auth_A) auth_A
  = (Ret (Accepted (digest auth_A) (canonical auth_A)),
     putAccepted new_ArtifactStore
       (mkStoredArtifact (digest auth_A) "auth_context" auth_A (canonical auth_A)))
  /\ getAccepted
       (putAccepted new_ArtifactStore
          (mkStoredArtifact (digest auth_A) "auth_context" auth_A (canonical auth_A)))
       (JStr (digest auth_A))
     = Some (mkStoredArtifact (digest auth_A) "auth_context" auth_A (canonical auth_A)).
Proof.
  assert (H : commit_action test_sha256 test_validate new_ArtifactStore "auth_context"
                (digest auth_A) auth_A
              = (Ret (Accepted (digest auth_A) (canonical auth_A)),
                 putAccepted new_ArtifactStore
                   (mkStoredArtifact (digest auth_A) "auth_context" auth_A
                      (canonical auth_A))))
    by (vm_compute; reflexivity).
  split; [exact H|].
  destruct (commit_accepted_is_stored test_sha256 test_validate _ _ _ _ _ _ _ H)
    as (_ & _ & _ & _ & _ & _ & Hget & _).
  exact Hget.
Defined.

(** X3 on the first commit of trace A, submitted twice. *)
Lemma commit_accepted_idempotent_witness :
  let once := putAccepted new_ArtifactStore
                (mkStoredArtifact (digest auth_A) "auth_context" auth_A
                   (canonical auth_A)) in
  map_get (digest auth_A) (accepted new_ArtifactStore) = None
  /\ commit_action test_sha256 test_validate new_ArtifactStore "auth_context"
       (digest auth_A) auth_A
     = (Ret (Accepted (digest auth_A) (canonical auth_A)), once)
  /\ commit_action test_sha256 test_validate once "auth_context" (digest auth_A) auth_A
     = (Ret (Accepted (digest auth_A) (canonical auth_A)), once).
Proof.
  intros once.
  assert (H0 : map_get (digest auth_A) (accepted new_ArtifactStore) = None)
    by reflexivity.
  assert (H : commit_action test_sha256 test_validate new_ArtifactStore "auth_context"
                (digest auth_A) auth_A
              = (Ret (Accepted (digest auth_A) (canonical auth_A)), once))
    by (vm_compute; reflexivity).
  split; [exact H0|]. split; [exact H|].
  exact (commit_accepted_idempotent test_sha256 test_validate _ _ _ _ _ _ _ H0 H).
Defined.

(** X4 on the model call of trace A. *)
Lemma accepted_record_has_prerequisites_witness :
  commit_action test_sha256 test_validate store_AP "model_call" (digest model_A) model_A
  = (Ret (Accepted (digest model_A) (canonical model_A)), store_A)
  /\ exists auth pd trace_id,
       getAccepted store_AP (get model_A "auth_context_envelope_sha256") = Some auth
       /\ getAccepted store_AP (get model_A "policy_decision_envelope_sha256") = Some pd
       /\ traceIdOf model_A = JStr trace_id
       /\ traceIdOf (sa_envelope auth) = JStr trace_id
       /\ traceIdOf (sa_envelope pd) = JStr trace_id
       /\ get (get (sa_envelope pd) "decision") "result" = JStr "allow".
Proof.
  assert (H : commit_action test_sha256 test_validate store_AP "model_call"
                (digest model_A) model_A
              = (Ret (Accepted (digest model_A) (canonical model_A)), store_A))
    by (vm_compute; reflexivity).
  split; [exact H|].
  exact (proj2 (accepted_record_has_prerequisites test_sha256 test_validate
                  _ _ _ _ _ _ _ H) (or_introl eq_refl)).
Defined.

(** X5 on the early policy decision. *)
Lemma commit_classification_by_first_failure_witness :
  fst early_run = Ret early_result
  /\ (commit_classification early_result = FailureClass.HASH_MISMATCH
      <-> includes RECORD_TYPES "policy_decision" = true
          /\ v_ok (validateEnvelope test_validate policy_A) = true
          /\ get policy_A "record_type" = JStr "policy_decision"
          /\ exists computed, hashEnvelope test_sha256 policy_A = Ret computed
                              /\ computed <> digest policy_A).
Proof.
  assert (H : fst early_run = Ret early_result) by (vm_compute; reflexivity).
  split; [exact H|].
  exact (proj2 (proj2 (commit_classification_by_first_failure test_sha256 test_validate
                         new_ArtifactStore "policy_decision" (digest policy_A)
                         policy_A early_result H))).
Defined.

(** X6 on the early policy decision. *)
Lemma rejection_error_kinds_witness :
  fst early_run
  = Ret (Rejected FailureClass.MISSING_PREREQ "missing_prereq.auth_context"
           (Some (digest policy_A, canonical policy_A)))
  /\ canonicalizeEnvelope policy_A = Ret (canonical policy_A).
Proof.
  assert (H : fst early_run
              = Ret (Rejected FailureClass.MISSING_PREREQ "missing_prereq.auth_context"
                       (Some (digest policy_A, canonical policy_A))))
    by (vm_compute; reflexivity).
  split; [exact H|].
  destruct (rejection_error_kinds test_sha256 test_validate new_ArtifactStore
              "policy_decision" (digest policy_A) policy_A _ _ _ H)
    as [(E & _)|[(E & _)|(h & canon & Ec & Hc & _)]];
    [discriminate E|discriminate E|].
  injection Ec as _ <-. exact Hc.
Defined.

(** X8 on the model call of trace A. *)
Lemma canonicalization_succeeds_iff_witness :
  well_formed model_A
  /\ (returns (canonicalizeEnvelope model_A) <-> canonicalizable model_A = true).
Proof.
  assert (H : well_formed model_A)
    by (apply well_formedb_sound; vm_compute; reflexivity).
  split; [exact H|]. exact (canonicalization_succeeds_iff model_A H).
Defined.

(** X10 on the chain of trace A. *)
Lemma resolved_views_concatenate_witness :
  resolveTraceChain test_localeCompare store_A trace_A false = Some resolved_A
  /\ forallb (fun x => includes RECORD_TYPES (la_record_type x)) (rc_ordered resolved_A)
     = true
  /\ rc_ordered resolved_A
     = rc_auth_context resolved_A ++ rc_policy_decision resolved_A
       ++ rc_evidence resolved_A.
Proof.
  assert (H1 : resolveTraceChain test_localeCompare store_A trace_A false
               = Some resolved_A) by (vm_compute; reflexivity).
  assert (H2 : forallb (fun x => includes RECORD_TYPES (la_record_type x))
                 (rc_ordered resolved_A) = true) by (vm_compute; reflexivity).
  split; [exact H1|]. split; [exact H2|].
  exact (resolved_views_concatenate test_localeCompare store_A trace_A false
           resolved_A H1 H2).
Defined.

(** X11 on trace A. *)
Lemma invariantReplay_pass_iff_witness :
  fst (invariantReplay test_sha256 test_validate test_localeCompare store_A trace_A
         false false epoch_iso) = Ret invariant_A
  /\ rp_result (ro_record invariant_A) = "pass"
  /\ exists chain,
       resolveTraceChain test_localeCompare store_A trace_A false = Some chain
       /\ forall x, In x (rc_ordered chain) ->
            v_ok (validateEnvelope test_validate (la_envelope x)) = true
            /\ hashEnvelope test_sha256 (la_envelope x) = Ret (la_envelope_hash x)
            /\ prerequisites_hold store_A trace_A x.
Proof.
  assert (H : fst (invariantReplay test_sha256 test_validate test_localeCompare store_A
                     trace_A false false epoch_iso) = Ret invariant_A)
    by (vm_compute; reflexivity).
  assert (Hp : rp_result (ro_record invariant_A) = "pass") by (vm_compute; reflexivity).
  split; [exact H|]. split; [exact Hp|].
  exact (proj1 (invariantReplay_pass_iff test_sha256 test_validate test_localeCompare
                  store_A trace_A false false epoch_iso invariant_A H) Hp).
Defined.

(** X12 on the orphan policy decision. *)
Lemma invariantReplay_record_shape_witness :
  fst (invariantReplay test_sha256 test_validate test_localeCompare store_orphan
         trace_A false false epoch_iso) = Ret invariant_orphan
  /\ rp_failure_class (ro_record invariant_orphan) = Some ReplayFailure.MISSING_PREREQ
  /\ rp_replay_type (ro_record invariant_orphan) = "invariant"
  /\ rp_target_trace_id (ro_record invariant_orphan) = trace_A.
Proof.
  assert (H : fst (invariantReplay test_sha256 test_validate test_localeCompare
                     store_orphan trace_A false false epoch_iso) = Ret invariant_orphan)
    by (vm_compute; reflexivity).
  split; [exact H|]. split; [vm_compute; reflexivity|].
  destruct (invariantReplay_record_shape test_sha256 test_validate test_localeCompare
              store_orphan trace_A false false epoch_iso invariant_orphan H)
    as (H1 & H2 & _).
  split; [exact H1|exact H2].
Defined.

(** X16 on the result of the invariant replay of trace A. *)
Lemma ledger_replay_result_round_trip_witness :
  let result := record_value (ro_record invariant_A) in
  persistReplayResult_ledger test_sha256 ledger_A result
  = (Ret emitted_A, snd (persistReplayResult_ledger test_sha256 ledger_A result))
  /\ getReplayResult (snd (persistReplayResult_ledger test_sha256 ledger_A result))
       (rr_artifact_hash emitted_A) = Some emitted_A.
Proof.
  intros result.
  assert (H : persistReplayResult_ledger test_sha256 ledger_A result
              = (Ret emitted_A,
                 snd (persistReplayResult_ledger test_sha256 ledger_A result)))
    by (vm_compute; reflexivity).
  split; [exact H|].
  destruct (ledger_replay_result_round_trip test_sha256 _ _ _ _ H)
    as (_ & _ & _ & Hget & _).
  exact Hget.
Defined.


(** X18 on trace A. *)
Lemma store_forensicReplay_pass_iff_witness :
  fst (store_forensicReplay test_sha256 test_validate test_localeCompare store_A
         trace_A false false epoch_iso) = Ret store_forensic_A
  /\ rp_result (ro_record store_forensic_A) = "pass"
  /\ exists chain,
       resolveTraceChain test_localeCompare store_A trace_A false = Some chain
       /\ forall x, In x (rc_ordered chain) ->
            v_ok (validateEnvelope test_validate (la_envelope x)) = true
            /\ canonicalizeEnvelope (la_envelope x) = Ret (la_canonical_json x)
            /\ hashEnvelope test_sha256 (la_envelope x) = Ret (la_envelope_hash x)
            /\ prerequisites_hold store_A trace_A x.
Proof.
  assert (H : fst (store_forensicReplay test_sha256 test_validate test_localeCompare
                     store_A trace_A false false epoch_iso) = Ret store_forensic_A)
    by (vm_compute; reflexivity).
  assert (Hp : rp_result (ro_record store_forensic_A) = "pass")
    by (vm_compute; reflexivity).
  split; [exact H|]. split; [exact Hp|].
  exact (proj1 (store_forensicReplay_pass_iff test_sha256 test_validate
                  test_localeCompare store_A trace_A false false epoch_iso
                  store_forensic_A H) Hp).
Defined.


(** X21 on traces A and B. *)
Lemma constrainedReplay_record_shape_witness :
  fst (constrainedReplay test_sha256 test_validate test_localeCompare
         test_Number_toString test_same_object store_AB trace_A trace_B model_variance_policy
         false epoch_iso) = Ret constrained_AB
  /\ rp_replay_type (co_record constrained_AB) = "constrained"
  /\ rp_target_trace_id (co_record constrained_AB) = trace_B
  /\ rp_reference_trace_id (co_record constrained_AB) = Some trace_A.
Proof.
  assert (H : fst (constrainedReplay test_sha256 test_validate test_localeCompare
                     test_Number_toString test_same_object store_AB trace_A trace_B
                     model_variance_policy false epoch_iso) = Ret constrained_AB)
    by (vm_compute; reflexivity).
  split; [exact H|].
  destruct (constrainedReplay_record_shape test_sha256 test_validate test_localeCompare
              test_Number_toString test_same_object store_AB trace_A trace_B model_variance_policy
              false epoch_iso constrained_AB H) as (H1 & H2 & H3 & _).
  split; [exact H1|]. split; [exact H2|exact H3].
Defined.

(** X22 on the orphan policy decision, compared with itself. *)
Lemma constrainedReplay_propagates_invariant_failure_witness :
  resolveTraceChain test_localeCompare store_orphan trace_A false
  = Some (chain_of test_localeCompare store_orphan trace_A)
  /\ fst (invariantReplay test_sha256 test_validate test_localeCompare store_orphan
            trace_A false false epoch_iso) = Ret invariant_orphan
  /\ rp_result (ro_record invariant_orphan) <> "pass"
  /\ exists o,
       fst (constrainedReplay test_sha256 test_validate test_localeCompare
              test_Number_toString test_same_object store_orphan trace_A trace_A (JObj []) false
              epoch_iso) = Ret o
       /\ rp_result (co_record o) = "fail"
       /\ rp_failure_class (co_record o) = rp_failure_class (ro_record invariant_orphan)
       /\ co_diagnostics o = mkDiagnostics [] None None.
Proof.
  assert (H1 : resolveTraceChain test_localeCompare store_orphan trace_A false
               = Some (chain_of test_localeCompare store_orphan trace_A))
    by (vm_compute; reflexivity).
  assert (H2 : fst (invariantReplay test_sha256 test_validate test_localeCompare
                      store_orphan trace_A false false epoch_iso)
               = Ret invariant_orphan) by (vm_compute; reflexivity).
  assert (H3 : rp_result (ro_record invariant_orphan) <> "pass")
    by (vm_compute; discriminate).
  split; [exact H1|]. split; [exact H2|]. split; [exact H3|].
  exact (proj1 (constrainedReplay_propagates_invariant_failure test_sha256
                  test_validate test_localeCompare test_Number_toString test_same_object
                  store_orphan trace_A trace_A (JObj []) false epoch_iso _ _ invariant_orphan
                  H1 H1 H2) H3).
Defined.

(** X23 on the ledger holding the chain of trace A. *)
Lemma ledger_forensic_pass_entails_ledger_invariant_pass_witness :
  distinct (map_keys (accepted ledger_A)) = true
  /\ fst (forensicReplay test_sha256 test_validate ledger_A trace_A false
            (number_of_Z 0)) = Ret forensic_A
  /\ lr_result (fo_replay_result forensic_A) = "pass"
  /\ returns (fst (ledger_invariantReplay test_sha256 test_validate ledger_A trace_A
                     false (number_of_Z 0))).
Proof.
  assert (H1 : distinct (map_keys (accepted ledger_A)) = true)
    by (vm_compute; reflexivity).
  assert (H2 : fst (forensicReplay test_sha256 test_validate ledger_A trace_A false
                      (number_of_Z 0)) = Ret forensic_A)
    by (vm_compute; reflexivity).
  assert (H3 : lr_result (fo_replay_result forensic_A) = "pass")
    by (vm_compute; reflexivity).
  split; [exact H1|]. split; [exact H2|]. split; [exact H3|].
  exact (proj1 (ledger_forensic_pass_entails_ledger_invariant_pass test_sha256
                  test_validate ledger_A trace_A false (number_of_Z 0) forensic_A
                  H1 H2 H3) (number_of_Z 0)).
Defined.

(** X25 on the two constructions of the tool-call fixture, which insert the
    same properties in different orders. *)
Lemma canonicalization_injective_witness :
  let a := produceToolCall_A (digest auth_A) (digest policy_A) in
  let b := produceToolCall_B (digest auth_A) (digest policy_A) in
  canonicalizeEnvelope a = Ret (canonical a)
  /\ canonicalizeEnvelope b = Ret (canonical a)
  /\ same_data a b.
Proof.
  intros a b.
  assert (Ha : canonicalizeEnvelope a = Ret (canonical a)) by (vm_compute; reflexivity).
  assert (Hb : canonicalizeEnvelope b = Ret (canonical a)) by (vm_compute; reflexivity).
  split; [exact Ha|]. split; [exact Hb|].
  exact (canonicalization_injective a b (canonical a) Ha Hb).
Defined.

(** X26 on the first commit of trace A. *)
Lemma accepted_record_is_resolved_witness :
  let store' :=
    putAccepted new_ArtifactStore
      (mkStoredArtifact (digest auth_A) "auth_context" auth_A (canonical auth_A)) in
  let art :=
    mkLedgerEnvelopeArtifact (digest auth_A) "auth_context" auth_A (canonical auth_A)
      status_accepted None None in
  commit_action test_sha256 test_validate new_ArtifactStore "auth_context"
    (digest auth_A) auth_A
  = (Ret (Accepted (digest auth_A) (canonical auth_A)), store')
  /\ getTraceId auth_A = JStr trace_A
  /\ trace_A <> EmptyString
  /\ exists chain,
       resolveTraceChain test_localeCompare store' trace_A false = Some chain
       /\ In art (rc_ordered chain)
       /\ In art (rc_auth_context chain).
Proof.
  intros store' art.
  assert (H : commit_action test_sha256 test_validate new_ArtifactStore "auth_context"
                (digest auth_A) auth_A
              = (Ret (Accepted (digest auth_A) (canonical auth_A)), store'))
    by (vm_compute; reflexivity).
  assert (Ht : getTraceId auth_A = JStr trace_A) by reflexivity.
  assert (Hne : trace_A <> EmptyString) by discriminate.
  split; [exact H|]. split; [exact Ht|]. split; [exact Hne|].
  destruct (accepted_record_is_resolved test_sha256 test_validate test_localeCompare
              new_ArtifactStore store' "auth_context" (digest auth_A) auth_A
              (digest auth_A) (canonical auth_A) trace_A false H Ht Hne)
    as (chain & Hc & Ho & Hau & _).
  exists chain. split; [exact Hc|]. split; [exact Ho|]. now apply Hau.
Defined.

(** X27 on the policy decision of trace A submitted before its
    authorization context. *)
Lemma rejected_attempt_is_resolved_on_request_witness :
  let run :=
    commit_action test_sha256 test_validate new_ArtifactStore "policy_decision"
      (digest policy_A) policy_A in
  fst run
  = Ret (Rejected FailureClass.MISSING_PREREQ "missing_prereq.auth_context"
           (Some (digest policy_A, canonical policy_A)))
  /\ getTraceId policy_A = JStr trace_A
  /\ trace_A <> EmptyString
  /\ (exists chain,
        resolveTraceChain test_localeCompare (snd run) trace_A true = Some chain
        /\ In (mkLedgerEnvelopeArtifact (digest policy_A) "policy_decision" policy_A
                 (canonical policy_A) status_rejected_attempt
                 (Some FailureClass.MISSING_PREREQ)
                 (Some "missing_prereq.auth_context"))
             (rc_ordered chain))
  /\ resolveTraceChain test_localeCompare (snd run) trace_A false = None.
Proof.
  intros run.
  assert (H : fst run
              = Ret (Rejected FailureClass.MISSING_PREREQ "missing_prereq.auth_context"
                       (Some (digest policy_A, canonical policy_A))))
    by (vm_compute; reflexivity).
  assert (Ht : getTraceId policy_A = JStr trace_A) by reflexivity.
  assert (Hne : trace_A <> EmptyString) by discriminate.
  split; [exact H|]. split; [exact Ht|]. split; [exact Hne|].
  split; [|vm_compute; reflexivity].
  exact (proj1 (rejected_attempt_is_resolved_on_request test_sha256 test_validate
                  test_localeCompare new_ArtifactStore "policy_decision"
                  (digest policy_A) policy_A _ _ _ _ trace_A H Ht Hne)).
Defined.

(** The gate looks up the artifacts a record names by their hashes and reads
    their envelopes; it does not ask their kind. A policy decision that
    gives the hash of another policy decision as its authorization context
    is accepted. *)
Definition policy_on_policy : value :=
  producePolicyDecisionAllow_Model (digest policy_A).

Example named_artifact_kind_not_examined :
  fst (commit_action test_sha256 test_validate store_AP "policy_decision"
         (digest policy_on_policy) policy_on_policy)
  = Ret (Accepted (digest policy_on_policy) (canonical policy_on_policy)).
Proof. vm_compute. reflexivity. Qed.
